(** * EntropyVisualizer: entropy, colour gradient and grid layout

    A shallow embedding of [EntropyVisualizer.py].

    Numbers.  Python [int] is [Z].  A finite Python [float] is the real
    number it denotes, and every floating-point operation is the exact
    operation followed by the rounding [rnd] of the result to binary64;
    [rnd] is a parameter of the development, constrained where a proof
    needs it by [binary64_rounding] (monotone, the identity on
    representable numbers, relative error at most 2^-53).  [math.log2]
    belongs to the C library and is the parameter [flog2].  Infinities
    and NaN are outside the model: the program divides a finite entropy
    by a positive finite maximum and never produces them.

    Failure.  A Python operation that can raise returns a [result]; the
    functions of the program are written in the error monad.

    Effects.  The image renderer and [main] thread the observable [world]
    (lines printed, files written) and read the [runtime] (is Pillow
    there, does the save succeed); [main] is given the content of the
    file, or the exception of the read, as a function of the name. *)

From Stdlib Require Import Reals Lra Lia ZArith List Ascii String Bool.
From Stdlib Require Import Permutation FinFun DecimalString.
From Stdlib.Strings Require Byte.
From Stdlib Require PrimFloat Uint63.
Import ListNotations.

Local Open Scope Z_scope.
Local Open Scope R_scope.

(** ** Exceptions and the error monad *)

(** The exceptions of the program, all of them instances of Python's
    [Exception]; [Exception msg] stands for any other one, with its
    message.  [KeyboardInterrupt] and [SystemExit] are no part of the
    model. *)
Inductive exn : Type :=
| ZeroDivisionError
| ValueError
| Exception (msg : string).

Inductive result (A : Type) : Type :=
| Ok (a : A)
| Raise (e : exn).

Arguments Ok {A} a.
Arguments Raise {A} e.

Definition bind {A B : Type} (m : result A) (k : A -> result B) : result B :=
  match m with
  | Ok a => k a
  | Raise e => Raise e
  end.

Notation "x <- m ;; k" := (bind m (fun x => k))
  (at level 61, m at next level, right associativity).

(** ** Python numbers *)

(** [min(a, b)] and [max(a, b)] of two arguments: the first one is kept
    unless the second is strictly smaller (larger). *)
Definition py_min (a b : R) : R := if Rlt_dec b a then b else a.
Definition py_max (a b : R) : R := if Rlt_dec a b then b else a.

(** [int(x)] of a float truncates toward zero; [math.ceil(x)] is the
    least integer not below [x]. *)
Definition py_int (x : R) : Z := if Rle_dec 0 x then Zfloor x else Zceil x.
Definition math_ceil (x : R) : Z := Zceil x.

Section Float.

(** Rounding of an exact result to the nearest binary64 number. *)
Variable rnd : R -> R.
(** The value [math.log2] returns on a positive argument. *)
Variable flog2 : R -> R.

Definition fadd (x y : R) : R := rnd (x + y).
Definition fsub (x y : R) : R := rnd (x - y).
Definition fmul (x y : R) : R := rnd (x * y).

(** [x / y] on floats. *)
Definition fdiv (x y : R) : result R :=
  if Req_dec_T y 0 then Raise ZeroDivisionError else Ok (rnd (x / y)).

(** [a / b] on ints: the correctly rounded quotient. *)
Definition truediv (a b : Z) : result R :=
  if (b =? 0)%Z then Raise ZeroDivisionError else Ok (rnd (IZR a / IZR b)).

(** [math.log2(x)]: a domain error unless [x] is positive. *)
Definition math_log2 (x : R) : result R :=
  if Rlt_dec 0 x then Ok (flog2 x) else Raise ValueError.

(** ** [compute_entropy] *)

(** The dict [freq]: keys in insertion order. *)
Definition dict : Type := list (Byte.byte * Z).

Fixpoint dict_get (d : dict) (k : Byte.byte) (default : Z) : Z :=
  match d with
  | [] => default
  | (k', v) :: d' => if Byte.eqb k' k then v else dict_get d' k default
  end.

(** [d[k] = v]: an existing key keeps its place, a new one goes last. *)
Fixpoint dict_set (d : dict) (k : Byte.byte) (v : Z) : dict :=
  match d with
  | [] => [(k, v)]
  | (k', v') :: d' =>
      if Byte.eqb k' k then (k', v) :: d' else (k', v') :: dict_set d' k v
  end.

Definition dict_values (d : dict) : list Z := map snd d.

(** [freq[b] = freq.get(b, 0) + 1] *)
Definition dict_incr (freq : dict) (b : Byte.byte) : dict :=
  dict_set freq b (dict_get freq b 0 + 1)%Z.

(** [for b in block: freq[b] = freq.get(b, 0) + 1], from the empty dict. *)
Definition count_bytes (block : list Byte.byte) : dict :=
  fold_left dict_incr block [].

(** [len(l)] *)
Definition len {A : Type} (l : list A) : Z := Z.of_nat (List.length l).

(** One turn of [for count in freq.values()]. *)
Definition entropy_step (n : Z) (ent : R) (count : Z) : result R :=
  p <- truediv count n ;;
  l <- math_log2 p ;;
  Ok (fsub ent (fmul p l)).

Fixpoint entropy_loop (n : Z) (ent : R) (counts : list Z) : result R :=
  match counts with
  | [] => Ok ent
  | count :: rest => ent' <- entropy_step n ent count ;; entropy_loop n ent' rest
  end.

(** [0.0] for an empty block, else the loop over [freq.values()] from
    [ent = 0.0]. *)
Definition compute_entropy (block : list Byte.byte) : result R :=
  match block with
  | [] => Ok 0
  | _ => entropy_loop (len block) 0 (dict_values (count_bytes block))
  end.

(** ** [max_entropy] *)

(** [0.0] if [n == 0], else [math.log2(n) if n < 256 else 8.0]. *)
Definition max_entropy (n : Z) : result R :=
  if (n =? 0)%Z then Ok 0
  else if (n <? 256)%Z then math_log2 (IZR n) else Ok 8.

(** ** [entropy_to_color] *)

(** An RGB tuple of ints. *)
Definition color : Type := (Z * Z * Z)%type.

(** The table of the gradient: position and colour of blue, cyan, green,
    yellow and red. *)
Definition anchors : list (R * color) :=
  [ (0,    (0, 0, 255)%Z);
    (0.25, (0, 255, 255)%Z);
    (0.5,  (0, 255, 0)%Z);
    (0.75, (255, 255, 0)%Z);
    (1,    (255, 0, 0)%Z) ].

(** [int(col0[k] + t * (col1[k] - col0[k]))] *)
Definition channel (t : R) (c0 c1 : Z) : Z :=
  py_int (fadd (IZR c0) (fmul t (IZR (c1 - c0)))).

(** The body of the [if x0 <= norm <= x1] branch. *)
Definition interpolate (norm : R) (a0 a1 : R * color) : result color :=
  let '(x0, (r0, g0, b0)) := a0 in
  let '(x1, (r1, g1, b1)) := a1 in
  t <- fdiv (fsub norm x0) (fsub x1 x0) ;;
  Ok (channel t r0 r1, channel t g0 g1, channel t b0 b1).

(** [for i in range(len(anchors) - 1)] over the adjacent pairs;
    [None] when the loop ends without a [return]. *)
Fixpoint anchor_loop (norm : R) (l : list (R * color)) : result (option color) :=
  match l with
  | a0 :: ((a1 :: _) as rest) =>
      if Rle_dec (fst a0) norm then
        if Rle_dec norm (fst a1) then
          c <- interpolate norm a0 a1 ;; Ok (Some c)
        else anchor_loop norm rest
      else anchor_loop norm rest
  | _ => Ok None
  end.

(** [max(0.0, min(1.0, norm))] *)
Definition clamp (norm : R) : R := py_max 0 (py_min 1 norm).

(** The fallback after the loop is [anchors[-1][1]]. *)
Definition entropy_to_color (norm : R) : result color :=
  let norm := clamp norm in
  found <- anchor_loop norm anchors ;;
  match found with
  | Some c => Ok c
  | None => Ok (snd (last anchors (0, (0, 0, 0)%Z)))
  end.

(** ** [main]: one block *)

(** Lines 191-194: entropy of the block, its maximum, the normalized
    value and the colour. *)
Definition process_block (block : list Byte.byte) : result (R * color) :=
  ent <- compute_entropy block ;;
  max_ent <- max_entropy (len block) ;;
  norm <- (if Rlt_dec 0 max_ent then fdiv ent max_ent else Ok 0) ;;
  col <- entropy_to_color norm ;;
  Ok (norm, col).

(** ** [create_image]: the grid layout *)

Definition canvas_width : Z := 400.
Definition canvas_height : Z := 800.

(** [a // b] and [a % b] on ints. *)
Definition floordiv (a b : Z) : result Z :=
  if (b =? 0)%Z then Raise ZeroDivisionError else Ok (a / b)%Z.
Definition pymod (a b : Z) : result Z :=
  if (b =? 0)%Z then Raise ZeroDivisionError else Ok (a mod b)%Z.

(** [range(a, b)] *)
Definition py_range (a b : Z) : list Z :=
  map (fun i => (a + Z.of_nat i)%Z) (seq 0 (Z.to_nat (b - a))).

(** The three variables of the search:
    [(max_square_size, best_cols, best_rows)]. *)
Definition best : Type := (Z * Z * Z)%type.

(** [rows = math.ceil(n / cols)] *)
Definition rows_for (n cols : Z) : result Z :=
  q <- truediv n cols ;; Ok (math_ceil q).

(** [int(min(canvas_width / cols, canvas_height / rows))] *)
Definition square_size_for (cols rows : Z) : result Z :=
  w <- truediv canvas_width cols ;;
  h <- truediv canvas_height rows ;;
  Ok (py_int (py_min w h)).

(** The body of [for cols in range(1, n + 1)]. *)
Definition search_step (n : Z) (st : best) (cols : Z) : result best :=
  let '(max_square_size, _, _) := st in
  rows <- rows_for n cols ;;
  square_size <- square_size_for cols rows ;;
  if (square_size >? max_square_size)%Z then Ok (square_size, cols, rows)
  else Ok st.

Fixpoint search_loop (n : Z) (st : best) (l : list Z) : result best :=
  match l with
  | [] => Ok st
  | cols :: rest => st' <- search_step n st cols ;; search_loop n st' rest
  end.

(** Lines 112-129: the vertical layout when its squares are large
    enough, the search otherwise. *)
Definition choose_layout (n pixel_size : Z) : result best :=
  h <- truediv canvas_height n ;;
  let vertical_square_size := py_int (py_min (IZR canvas_width) h) in
  if (vertical_square_size >=? pixel_size)%Z
  then Ok (vertical_square_size, 1, n)%Z
  else search_loop n (0, 1, 1)%Z (py_range 1 (n + 1)).

Record geometry : Type := {
  best_cols : Z;
  best_rows : Z;
  max_square_size : Z;
  left_margin : Z;
  top_margin : Z
}.

(** Lines 108-133. *)
Definition grid_layout (n pixel_size : Z) : result geometry :=
  b <- choose_layout n pixel_size ;;
  let '(size, cols, rows) := b in
  Ok {| best_cols := cols;
        best_rows := rows;
        max_square_size := size;
        left_margin := (canvas_width - cols * size) / 2;
        top_margin := (canvas_height - rows * size) / 2 |}%Z.

(** ** [create_image]: drawing and saving *)

Record rectangle : Type := {
  rect_x0 : Z; rect_y0 : Z; rect_x1 : Z; rect_y1 : Z; rect_fill : color
}.

(** The image: its size, its background and the rectangles drawn on it,
    oldest first. *)
Record image : Type := {
  img_width : Z;
  img_height : Z;
  img_background : string;
  img_rectangles : list rectangle
}.

(** [Image.new("RGB", (w, h), background)] *)
Definition Image_new (w h : Z) (background : string) : image :=
  {| img_width := w; img_height := h; img_background := background;
     img_rectangles := [] |}.

(** What the process has printed and written. *)
Record world : Type := {
  stdout : list string;
  files : list (string * image)
}.

(** [print(s)] adds a line to the output; a successful [img.save] adds a
    file. *)
Definition print (s : string) (w : world) : world :=
  {| stdout := stdout w ++ [s]; files := files w |}.

Definition write_file (name : string) (img : image) (w : world) : world :=
  {| stdout := stdout w; files := (name, img) :: files w |}.

(** What the program finds when it runs: whether [from PIL import Image]
    succeeded; whether the imaging library checks the boxes it is asked
    to draw (Pillow 9.5 and later do, earlier versions do not); and
    whether [img.save] raises ([Some e]) or writes the file ([None]). *)
Record runtime : Type := {
  pillow : bool;
  checks_boxes : bool;
  save_raises : image -> string -> option exn
}.

(** A box [[x0, y0, x1, y1]] whose second corner is left of or above the
    first. *)
Definition inverted (r : rectangle) : bool :=
  ((rect_x1 r <? rect_x0 r) || (rect_y1 r <? rect_y0 r))%Z.

(** [draw.rectangle]: the primitive of the imaging library.  A library
    that checks its boxes raises [ValueError] (x1 must be greater than or
    equal to x0, and the same for y) on an inverted box; otherwise the
    rectangle is drawn. *)
Definition draw_rectangle (rt : runtime) (img : image) (r : rectangle)
  : result image :=
  if checks_boxes rt && inverted r then Raise ValueError
  else
    Ok {| img_width := img_width img; img_height := img_height img;
          img_background := img_background img;
          img_rectangles := img_rectangles img ++ [r] |}.

(** [for i, col in enumerate(colors)], from index [i] on. *)
Fixpoint draw_loop (rt : runtime) (g : geometry) (i : Z) (colors : list color)
    (img : image) : result image :=
  match colors with
  | [] => Ok img
  | col :: rest =>
      row <- floordiv i (best_cols g) ;;
      col_index <- pymod i (best_cols g) ;;
      let x := (left_margin g + col_index * max_square_size g)%Z in
      let y := (top_margin g + row * max_square_size g)%Z in
      img' <- draw_rectangle rt img
                {| rect_x0 := x; rect_y0 := y;
                   rect_x1 := x + max_square_size g - 1;
                   rect_y1 := y + max_square_size g - 1;
                   rect_fill := col |} ;;
      draw_loop rt g (i + 1) rest img'
  end.

(** [str(e)], as [print] shows the exception. *)
Definition str (e : exn) : string :=
  match e with
  | ZeroDivisionError => "division by zero"
  | ValueError => "math domain error"
  | Exception msg => msg
  end.

Definition pillow_missing_message : string :=
  "Pillow is not installed. Please install it (pip install Pillow) to create images.".

(** Lines 103-152: the notice when Pillow is missing; else the layout, the
    white canvas, the squares, and the save inside [try ... except
    Exception].  An exception of the layout or of the drawing leaves the
    function: only the save is guarded. *)
Definition create_image (rt : runtime) (colors : list color) (pixel_size : Z)
    (output_file : string) (w : world) : result unit * world :=
  if negb (pillow rt) then (Ok tt, print pillow_missing_message w)
  else
    match grid_layout (len colors) pixel_size with
    | Raise e => (Raise e, w)
    | Ok g =>
        match draw_loop rt g 0 colors
                (Image_new canvas_width canvas_height "white") with
        | Raise e => (Raise e, w)
        | Ok img =>
            match save_raises rt img output_file with
            | None =>
                (Ok tt, print ("Image saved to " ++ output_file)
                          (write_file output_file img w))
            | Some e => (Ok tt, print ("Error saving image: " ++ str e) w)
            end
        end
    end.

(** ** [main] *)

(** [range(start, stop, step)] *)
Definition py_range_step (start stop step : Z) : result (list Z) :=
  if (step =? 0)%Z then Raise ValueError
  else
    let count :=
      if (0 <? step)%Z then ((stop - start + step - 1) / step)%Z
      else ((start - stop - step - 1) / (- step))%Z in
    Ok (map (fun k => (start + Z.of_nat k * step)%Z) (seq 0 (Z.to_nat count))).

(** An index of a slice, brought into [0 .. n]. *)
Definition slice_index (n i : Z) : Z :=
  if (i <? 0)%Z then Z.max (i + n) 0 else Z.min i n.

(** [l[i:j]] *)
Definition py_slice {A : Type} (l : list A) (i j : Z) : list A :=
  let lo := slice_index (len l) i in
  let hi := slice_index (len l) j in
  firstn (Z.to_nat (hi - lo)) (skipn (Z.to_nat lo) l).

(** [[data[i:i + bs] for i in range(0, len(data), bs)]] *)
Definition split_blocks (data : list Byte.byte) (bs : Z)
  : result (list (list Byte.byte)) :=
  starts <- py_range_step 0 (len data) bs ;;
  Ok (map (fun i => py_slice data i (i + bs)) starts).

(** The digits of the format codes [X] and [x]. *)
Definition hex_digit (upper : bool) (d : N) : Ascii.ascii :=
  match d with
  | 0%N => "0" | 1%N => "1" | 2%N => "2" | 3%N => "3" | 4%N => "4"
  | 5%N => "5" | 6%N => "6" | 7%N => "7" | 8%N => "8" | 9%N => "9"
  | 10%N => if upper then "A" else "a"
  | 11%N => if upper then "B" else "b"
  | 12%N => if upper then "C" else "c"
  | 13%N => if upper then "D" else "d"
  | 14%N => if upper then "E" else "e"
  | _ => if upper then "F" else "f"
  end%char.

(** The hexadecimal digits of a number, most significant first, in front
    of [acc]; [fuel] bounds the number of digits. *)
Fixpoint hex_digits (fuel : nat) (upper : bool) (n : N) (acc : string) : string :=
  match fuel with
  | O => acc
  | S fuel' =>
      let acc' := String (hex_digit upper (n mod 16)) acc in
      if (n / 16 =? 0)%N then acc' else hex_digits fuel' upper (n / 16) acc'
  end.

(** [f"{n:X}"]: upper-case hexadecimal, with a sign for a negative int. *)
Definition format_X (n : Z) : string :=
  let digits :=
    hex_digits (S (N.to_nat (N.log2 (Z.abs_N n)))) true (Z.abs_N n) EmptyString in
  if (n <? 0)%Z then String "-" digits else digits.

(** [f"{b:02x}"] for a byte: two lower-case hexadecimal digits. *)
Definition format_02x (b : Byte.byte) : string :=
  String (hex_digit false (Byte.to_N b / 16))
    (String (hex_digit false (Byte.to_N b mod 16)) EmptyString).

(** [f"{n}"] for an int: decimal. *)
Definition format_d (n : Z) : string :=
  DecimalString.NilZero.string_of_int (Z.to_int n).

(** [" ".join(f"{b:02x}" for b in block)] *)
Definition hex_str (block : list Byte.byte) : string :=
  String.concat " " (map format_02x block).

(** The escape character, [\033]. *)
Definition ESC : string := String (Ascii.ascii_of_nat 27) EmptyString.

(** The text of a block: the hex bytes on the background colour, and the
    offset tag.  The newline that ends it is the line break of [stdout]. *)
Definition block_line (col : color) (block : list Byte.byte) (offset_counter : Z)
  : string :=
  let '(r, g, b) := col in
  (ESC ++ "[48;2;" ++ format_d r ++ ";" ++ format_d g ++ ";" ++ format_d b ++ "m"
     ++ hex_str block ++ ESC ++ "[0m"
     ++ "[0x" ++ format_X offset_counter ++ "]")%string.

(** One turn of the header loop: [f"{count:X}{spacing}"]. *)
Definition header_cell (count : Z) : string :=
  let spacing :=
    (if (count <? 16)%Z then "  " else if (count <? 256)%Z then " "
     else EmptyString)%string in
  (format_X count ++ spacing)%string.

(** [while count < bs], from [count = 0]; the cells are printed with
    [end] empty and the line is ended by an empty [print]. *)
Definition header_line (bs : Z) : string :=
  String.concat EmptyString (map header_cell (py_range 0 bs)).

(** [for block in blocks], from the block at hand on: the colours
    appended to [color_list], the offset counter and the lines written.
    An exception leaves the loop with the lines written so far. *)
Fixpoint block_loop (bs : Z) (blocks : list (list Byte.byte))
    (color_list : list color) (offset_counter : Z) (w : world)
  : result (list color) * world :=
  match blocks with
  | [] => (Ok color_list, w)
  | block :: rest =>
      match process_block block with
      | Raise e => (Raise e, w)
      | Ok (_, col) =>
          block_loop bs rest (color_list ++ [col]) (offset_counter + bs)
            (print (block_line col block offset_counter) w)
      end
  end.

(** The command line, as [argparse] hands it over. *)
Record arguments : Type := {
  arg_filename : string;
  arg_block_size : Z;
  arg_image : option string
}.

(** [if args.image]: [None] and the empty string are false. *)
Definition requested (image : option string) : option string :=
  match image with
  | Some EmptyString => None
  | other => other
  end.

(** How the process ends: [main] returns, [sys.exit(status)], or an
    exception nobody catches. *)
Inductive outcome : Type :=
| Returned
| Exited (status : Z)
| Uncaught (e : exn).

(** [read_file name] is what [open(name, "rb")] and [f.read()] give: the
    bytes, or the exception raised. *)
Definition main (rt : runtime) (read_file : string -> result (list Byte.byte))
    (args : arguments) (w : world) : outcome * world :=
  match read_file (arg_filename args) with
  | Raise e => (Exited 1, print ("Error opening file: " ++ str e) w)
  | Ok data =>
      let bs := arg_block_size args in
      match split_blocks data bs with
      | Raise e => (Uncaught e, w)
      | Ok blocks =>
          match block_loop bs blocks [] 0 (print (header_line bs) w) with
          | (Raise e, w1) => (Uncaught e, w1)
          | (Ok color_list, w1) =>
              let w2 := print EmptyString w1 in
              match requested (arg_image args) with
              | None => (Returned, w2)
              | Some output_file =>
                  match create_image rt color_list 1 output_file w2 with
                  | (Ok _, w3) => (Returned, w3)
                  | (Raise e, w3) => (Uncaught e, w3)
                  end
              end
          end
      end
  end.

End Float.

(** ** The arithmetic of binary64 *)

(** What the proofs use of rounding to nearest in binary64: it is
    monotone, it leaves the numbers of the format unchanged ([m * 2^e]
    with a mantissa of at most 53 bits), and in the normal range its
    relative error is at most the unit roundoff [2^-53]. *)
Record binary64_rounding (rnd : R -> R) : Prop := {
  rnd_monotone : forall x y, x <= y -> rnd x <= rnd y;
  rnd_representable :
    forall m e : Z, (Z.abs m <= 2 ^ 53)%Z -> (-1074 <= e <= 970)%Z ->
      rnd (IZR m * powerRZ 2 e) = IZR m * powerRZ 2 e;
  rnd_relative_error :
    forall x, powerRZ 2 (-1022) <= Rabs x <= powerRZ 2 1023 ->
      Rabs (rnd x - x) <= Rabs x * powerRZ 2 (-53)
}.

(** Exact arithmetic: nothing is rounded, and [log2] is the real
    logarithm in base 2. *)
Definition exact (x : R) : R := x.
Definition log2 (x : R) : R := ln x / ln 2.

(** ** The entropy in machine arithmetic *)

(** The functions of the entropy once more, over Rocq's primitive floats:
    these are the binary64 numbers with the operations of IEEE 754,
    rounded to nearest with ties to even, which is the arithmetic of
    Python's [float].  [math.log2] is again a parameter.  The definitions
    serve to evaluate the program bit for bit on a given block. *)
Module Binary64.

Import PrimFloat.
Local Open Scope float_scope.

Section Machine.

(** The value [math.log2] returns on a positive argument. *)
Variable flog2 : float -> float.

(** An int from 0 to 2^53 as a float: the conversion is exact. *)
Definition of_int (z : Z) : float := of_uint63 (Uint63.of_Z z).

(** [a / b] on ints from 0 to 2^53: the quotient of the two floats. *)
Definition truediv (a b : Z) : result float :=
  if (b =? 0)%Z then Raise ZeroDivisionError else Ok (of_int a / of_int b).

(** [math.log2(x)]: a domain error unless [x] is positive. *)
Definition math_log2 (x : float) : result float :=
  if 0 <? x then Ok (flog2 x) else Raise ValueError.

(** One turn of [for count in freq.values()]. *)
Definition entropy_step (n : Z) (ent : float) (count : Z) : result float :=
  p <- truediv count n ;;
  l <- math_log2 p ;;
  Ok (ent - p * l).

Fixpoint entropy_loop (n : Z) (ent : float) (counts : list Z) : result float :=
  match counts with
  | [] => Ok ent
  | count :: rest => ent' <- entropy_step n ent count ;; entropy_loop n ent' rest
  end.

Definition compute_entropy (block : list Byte.byte) : result float :=
  match block with
  | [] => Ok 0
  | _ => entropy_loop (len block) 0 (dict_values (count_bytes block))
  end.

Definition max_entropy (n : Z) : result float :=
  if (n =? 0)%Z then Ok 0
  else if (n <? 256)%Z then math_log2 (of_int n) else Ok 8.

(** Lines 191-193 of [main]: the normalized entropy of a block. *)
Definition normalized (block : list Byte.byte) : result float :=
  ent <- compute_entropy block ;;
  max_ent <- max_entropy (len block) ;;
  if 0 <? max_ent then Ok (ent / max_ent) else Ok 0.

End Machine.

(** [math.log2] at the arguments the examples below reach, 11, 1/11, 1/6,
    1/3 and 1/2: the values of the C library, which are the logarithms
    rounded to the nearest float.  Elsewhere the table has no entry. *)
Definition libm_log2 (x : float) : float :=
  if x =? 0x1.6p+3 then 0x1.bacea7c065d42p+1
  else if x =? 0x1.745d1745d1746p-4 then -0x1.bacea7c065d42p+1
  else if x =? 0x1.5555555555555p-3 then -0x1.4ae00d1cfdeb4p+1
  else if x =? 0x1.5555555555555p-2 then -0x1.95c01a39fbd69p+0
  else if x =? 0x1p-1 then -0x1p+0
  else nan.

End Binary64.

(** The blocks of the examples: eleven distinct bytes, and [b"abbccc"]
    with its reordering [b"acccbb"]. *)
Definition eleven_bytes : list Byte.byte :=
  [Byte.x00; Byte.x01; Byte.x02; Byte.x03; Byte.x04; Byte.x05;
   Byte.x06; Byte.x07; Byte.x08; Byte.x09; Byte.x0a].

Definition abbccc : list Byte.byte :=
  [Byte.x61; Byte.x62; Byte.x62; Byte.x63; Byte.x63; Byte.x63].

Definition acccbb : list Byte.byte :=
  [Byte.x61; Byte.x63; Byte.x63; Byte.x63; Byte.x62; Byte.x62].

(** ** The words of the specification *)

(** The clamp: a value outside [0,1] is pinned to the nearest bound. *)
Definition nearest_bound (x : R) : R :=
  if Rlt_dec x 0 then 0 else if Rlt_dec 1 x then 1 else x.

(** A colour is a triple of 8-bit unsigned integers. *)
Definition valid_color (c : color) : Prop :=
  let '(r, g, b) := c in
  (0 <= r <= 255)%Z /\ (0 <= g <= 255)%Z /\ (0 <= b <= 255)%Z.

(** [ceil(n / cols)] and [floor(min(canvasWidth / cols, canvasHeight / rows))]
    on integers, without rounding. *)
Definition ceil_div (a b : Z) : Z := ((a + b - 1) / b)%Z.

Definition cell_size (cols rows : Z) : Z :=
  Z.min (canvas_width / cols) (canvas_height / rows).

(** The search for the strictly largest cell size over the column counts
    of [l], in increasing order. *)
Definition search_step_exact (n : Z) (st : best) (cols : Z) : best :=
  let '(max_square_size, _, _) := st in
  let rows := ceil_div n cols in
  let square_size := cell_size cols rows in
  if (square_size >? max_square_size)%Z then (square_size, cols, rows) else st.

Definition search_exact (n : Z) (st : best) (l : list Z) : best :=
  fold_left (search_step_exact n) l st.

Definition layout_exact (n pixel_size : Z) : best :=
  let vertical := Z.min canvas_width (canvas_height / n) in
  if (vertical >=? pixel_size)%Z then (vertical, 1, n)%Z
  else search_exact n (0, 1, 1)%Z (py_range 1 (n + 1)).

(** The vertical layout: one column of [n] squares. *)
Definition vertical_layout (n : Z) (g : geometry) : Prop :=
  best_cols g = 1%Z /\ best_rows g = n /\
  max_square_size g = Z.min canvas_width (canvas_height / n).

(** The searched layout: a candidate of the search over [cols = 1..n]
    whose cell size no other candidate exceeds. *)
Definition searched_layout (n : Z) (g : geometry) : Prop :=
  (1 <= best_cols g <= n)%Z /\
  best_rows g = ceil_div n (best_cols g) /\
  max_square_size g = cell_size (best_cols g) (best_rows g) /\
  forall cols, (1 <= cols <= n)%Z ->
    (cell_size cols (ceil_div n cols) <= max_square_size g)%Z.

(** The keys of a dict and the sum of a list of counts. *)
Definition dict_keys (d : dict) : list Byte.byte := map fst d.

Definition total (l : list Z) : Z := fold_right Z.add 0%Z l.

(** Shannon's formula on the table of counts, in real numbers: the term
    [-(c/n) * log2(c/n)] and the sum of the terms. *)
Definition shannon_term (n c : Z) : R :=
  - (IZR c / IZR n * log2 (IZR c / IZR n)).

Definition shannon_sum (n : Z) (counts : list Z) : R :=
  fold_right (fun c s => shannon_term n c + s) 0 counts.

(** ** The accuracy of the entropy *)

(** The accuracy asked of [math.log2] on (0, 1]: a relative error of at
    most 2^-52, which is one unit in the last place. *)
Definition log2_accuracy (flog2 : R -> R) : Prop :=
  forall x, 0 < x <= 1 ->
    Rabs (flog2 x - log2 x) <= powerRZ 2 (-52) * Rabs (log2 x).

(** What one turn of the entropy loop adds at most, rounding included:
    the term of Shannon's sum for the count [c], with the error of the
    quotient, of the logarithm and of the product. *)
Definition term_budget (n c : Z) : R :=
  (1 + powerRZ 2 (-53)) *
    ((1 + powerRZ 2 (-52)) *
       ((1 + powerRZ 2 (-53)) * shannon_term n c
        + 2 * powerRZ 2 (-53) * (IZR c / IZR n)))
  + powerRZ 2 (-1022).

(** The bound the loop keeps: it starts at [ent] and every turn adds its
    budget and the error of one subtraction. *)
Fixpoint budget (n : Z) (ent : R) (counts : list Z) : R :=
  match counts with
  | [] => ent
  | c :: rest =>
      budget n ((1 + powerRZ 2 (-53)) * (ent + term_budget n c)
                + powerRZ 2 (-1022)) rest
  end.

(** ** Runtimes and worlds for the examples *)

(** Pillow is installed and every save fails. *)
Definition failing_runtime : runtime :=
  {| pillow := true; checks_boxes := true;
     save_raises := fun _ _ => Some (Exception "disk full") |}.

Definition empty_world : world := {| stdout := []; files := [] |}.

(** Pillow is installed and every save succeeds. *)
Definition working_runtime : runtime :=
  {| pillow := true; checks_boxes := true; save_raises := fun _ _ => None |}.

(** A file of three bytes, read whatever its name; the command lines
    [f -b 2] and [f -b 2 -i out.png]. *)
Definition sample_file (name : string) : result (list Byte.byte) :=
  Ok [Byte.x41; Byte.x42; Byte.x43].

Definition sample_arguments : arguments :=
  {| arg_filename := "f"; arg_block_size := 2; arg_image := None |}.

Definition sample_arguments_image : arguments :=
  {| arg_filename := "f"; arg_block_size := 2; arg_image := Some "out.png"%string |}.

(** ** Notions for the properties of the gradient, the picture and the dump *)

(** The interpolation parameter [t] of an input [x] in the bracket that
    starts at [x0]: [(x - x0) / (x1 - x0)] with [x1 - x0 = 0.25]. *)
Definition bracket_parameter (rnd : R -> R) (x x0 : R) : R :=
  rnd (rnd (x - x0) / 0.25).

(** The square of the block of index [i]: the rectangle drawn by one turn
    of the drawing loop. *)
Definition square_of (g : geometry) (i : Z) (col : color) : rectangle :=
  let x := (left_margin g + (i mod best_cols g) * max_square_size g)%Z in
  let y := (top_margin g + (i / best_cols g) * max_square_size g)%Z in
  {| rect_x0 := x; rect_y0 := y;
     rect_x1 := x + max_square_size g - 1;
     rect_y1 := y + max_square_size g - 1;
     rect_fill := col |}.

(** The pixels of a rectangle are those of [x0..x1] times [y0..y1], both
    ends included.  A rectangle is inside the canvas when its bounds are;
    two rectangles are apart when they share no pixel. *)
Definition inside_canvas (r : rectangle) : Prop :=
  (0 <= rect_x0 r /\ rect_x1 r < canvas_width /\
   0 <= rect_y0 r /\ rect_y1 r < canvas_height)%Z.

Definition apart (r1 r2 : rectangle) : Prop :=
  (rect_x1 r1 < rect_x0 r2 \/ rect_x1 r2 < rect_x0 r1 \/
   rect_y1 r1 < rect_y0 r2 \/ rect_y1 r2 < rect_y0 r1)%Z.

(** The pixels a drawn rectangle covers: both corners are included, and
    a library that draws an inverted box draws it with its corners
    swapped. *)
Definition covers (r : rectangle) (x y : Z) : Prop :=
  (Z.min (rect_x0 r) (rect_x1 r) <= x <= Z.max (rect_x0 r) (rect_x1 r) /\
   Z.min (rect_y0 r) (rect_y1 r) <= y <= Z.max (rect_y0 r) (rect_y1 r))%Z.

(** A grid that lies on the canvas and holds [n] squares. *)
Definition on_canvas (n : Z) (g : geometry) : Prop :=
  (1 <= best_cols g /\ 1 <= best_rows g /\ 0 <= max_square_size g /\
   best_cols g * max_square_size g <= canvas_width /\
   best_rows g * max_square_size g <= canvas_height /\
   (1 <= max_square_size g -> n <= best_cols g * best_rows g) /\
   left_margin g = (canvas_width - best_cols g * max_square_size g) / 2 /\
   top_margin g = (canvas_height - best_rows g * max_square_size g) / 2)%Z.

(** The squares of the blocks from index [i] on, in the order drawn. *)
Fixpoint squares (g : geometry) (i : Z) (colors : list color) : list rectangle :=
  match colors with
  | [] => []
  | col :: rest => square_of g i col :: squares g (i + 1) rest
  end.

(** [data[k * bs : k * bs + bs]] for [bs >= 1], with lengths as naturals. *)
Definition chunk {A : Type} (data : list A) (bs : Z) (k : nat) : list A :=
  firstn (Z.to_nat bs) (skipn (k * Z.to_nat bs) data).

(** * Properties *)

(** ** Exact arithmetic is an instance *)

Lemma exact_binary64_rounding : binary64_rounding exact.
Proof.
  split; unfold exact; intros; try assumption; try reflexivity.
  replace (x - x) with 0 by ring. rewrite Rabs_R0.
  apply Rmult_le_pos; [apply Rabs_pos |].
  apply powerRZ_le; lra.
Qed.

Lemma log2_1 : log2 1 = 0.
Proof. unfold log2. rewrite ln_1. lra. Qed.

(** ** [int], [min] and [max] *)

Lemma py_int_IZR (k : Z) : py_int (IZR k) = k.
Proof.
  unfold py_int. destruct (Rle_dec 0 (IZR k)).
  - apply ZfloorZ.
  - apply Zceil_eq. lra.
Qed.

Lemma py_int_between (x : R) (lo hi : Z) :
  IZR lo <= x <= IZR hi -> (lo <= py_int x <= hi)%Z.
Proof.
  intros [Hlo Hhi]. unfold py_int.
  pose proof (Zfloor_bound x) as Hf. pose proof (Zceil_bound x) as Hc.
  destruct (Rle_dec 0 x).
  - split.
    + apply Zfloor_lub; assumption.
    + apply le_IZR. lra.
  - split.
    + apply le_IZR. lra.
    + assert (H : IZR (Zceil x) < IZR hi + 1) by lra.
      rewrite <- plus_IZR in H. apply lt_IZR in H. lia.
Qed.

Lemma py_int_py_min (w h : R) :
  0 <= w -> 0 <= h -> py_int (py_min w h) = Z.min (Zfloor w) (Zfloor h).
Proof.
  intros Hw Hh. unfold py_min, py_int.
  destruct (Rlt_dec h w) as [Hlt | Hge].
  - destruct (Rle_dec 0 h); [| lra].
    pose proof (Zfloor_le h w ltac:(lra)). lia.
  - destruct (Rle_dec 0 w); [| lra].
    pose proof (Zfloor_le w h ltac:(lra)). lia.
Qed.

Lemma clamp_cases (x : R) :
  (x < 0 /\ clamp x = 0) \/ (0 <= x <= 1 /\ clamp x = x) \/ (1 < x /\ clamp x = 1).
Proof.
  unfold clamp, py_max, py_min.
  destruct (Rlt_dec x 1); destruct (Rlt_dec 0 x); destruct (Rlt_dec 0 1); lra.
Qed.

Lemma clamp_range (x : R) : 0 <= clamp x <= 1.
Proof. destruct (clamp_cases x) as [[? ->] | [[? ->] | [? ->]]]; lra. Qed.

Lemma clamp_fixed (x : R) : 0 <= x <= 1 -> clamp x = x.
Proof. intros H. destruct (clamp_cases x) as [[? ->] | [[? ->] | [? ->]]]; lra. Qed.

Lemma clamp_nearest_bound (x : R) : clamp x = nearest_bound x.
Proof.
  unfold nearest_bound.
  destruct (clamp_cases x) as [[? ->] | [[? ->] | [? ->]]];
    destruct (Rlt_dec x 0); destruct (Rlt_dec 1 x); lra.
Qed.

Lemma clamp_idempotent (x : R) : clamp (clamp x) = clamp x.
Proof. apply clamp_fixed, clamp_range. Qed.

(** ** Powers of two *)

Lemma two_pow_53 : IZR (2 ^ 53) = powerRZ 2 53.
Proof.
  change 53%Z with (Z.of_nat 53). rewrite <- pow_powerRZ, pow_IZR. reflexivity.
Qed.

Lemma unit_roundoff : powerRZ 2 (-53) * IZR (2 ^ 53) = 1.
Proof.
  rewrite two_pow_53. rewrite <- powerRZ_add by lra. reflexivity.
Qed.

Lemma unit_roundoff_pos : 0 < powerRZ 2 (-53).
Proof. apply powerRZ_lt; lra. Qed.

Lemma powerRZ_2_le (a b : Z) : (a <= b)%Z -> powerRZ 2 a <= powerRZ 2 b.
Proof.
  intros H. replace b with (a + (b - a))%Z by lia.
  rewrite powerRZ_add by lra.
  assert (0 < powerRZ 2 a) by (apply powerRZ_lt; lra).
  assert (1 <= powerRZ 2 (b - a)).
  { destruct (b - a)%Z eqn:E; try lia.
    - simpl; lra.
    - simpl. apply pow_R1_Rle. lra. }
  nra.
Qed.

(** ** Consequences of [binary64_rounding] *)

Section Rounding.

Variable rnd : R -> R.
Hypothesis Hrnd : binary64_rounding rnd.

Lemma rnd_IZR (k : Z) : (Z.abs k <= 2 ^ 53)%Z -> rnd (IZR k) = IZR k.
Proof.
  intros Hk.
  pose proof (rnd_representable rnd Hrnd k 0 Hk ltac:(lia)) as H.
  simpl in H. rewrite Rmult_1_r in H. exact H.
Qed.

Lemma rnd_quarter (x : R) (k : Z) :
  x = IZR k / 4 -> (Z.abs k <= 2 ^ 53)%Z -> rnd x = x.
Proof.
  intros -> Hk.
  pose proof (rnd_representable rnd Hrnd k (-2) Hk ltac:(lia)) as H.
  simpl in H. replace (IZR k / 4) with (IZR k * / (2 * (2 * 1))) by field.
  exact H.
Qed.

Lemma rnd_int (x : R) (k : Z) :
  x = IZR k -> (Z.abs k <= 2 ^ 53)%Z -> rnd x = x.
Proof. intros -> Hk. apply rnd_IZR; assumption. Qed.

Lemma rnd_between (x : R) (lo hi : Z) :
  (Z.abs lo <= 2 ^ 53)%Z -> (Z.abs hi <= 2 ^ 53)%Z ->
  IZR lo <= x <= IZR hi -> IZR lo <= rnd x <= IZR hi.
Proof.
  intros Hlo Hhi [H1 H2]. split.
  - rewrite <- (rnd_IZR lo Hlo). apply (rnd_monotone rnd Hrnd); assumption.
  - rewrite <- (rnd_IZR hi Hhi). apply (rnd_monotone rnd Hrnd); assumption.
Qed.

Lemma rnd_nonneg (x : R) : 0 <= x -> 0 <= rnd x.
Proof.
  intros H. rewrite <- (rnd_IZR 0) by lia.
  apply (rnd_monotone rnd Hrnd). exact H.
Qed.

(** The rounded quotient of two positive ints below 2^53 stays within
    less than [1/b] of the exact one. *)
Lemma rnd_quotient (a b : Z) :
  (1 <= a < 2 ^ 53)%Z -> (1 <= b < 2 ^ 53)%Z ->
  Rabs (rnd (IZR a / IZR b) - IZR a / IZR b) * IZR b < 1.
Proof.
  intros Ha Hb.
  assert (Ha1 : 1 <= IZR a) by (apply IZR_le; lia).
  assert (Ha2 : IZR a < IZR (2 ^ 53)) by (apply IZR_lt; lia).
  assert (Hb1 : 1 <= IZR b) by (apply IZR_le; lia).
  assert (Hb2 : IZR b < IZR (2 ^ 53)) by (apply IZR_lt; lia).
  set (q := IZR a / IZR b).
  assert (Hqb : q * IZR b = IZR a) by (unfold q; field; lra).
  assert (Hq0 : 0 < q) by (unfold q; apply Rdiv_lt_0_compat; lra).
  pose proof unit_roundoff as Hu. pose proof unit_roundoff_pos as Hu0.
  assert (Hlo : powerRZ 2 (-53) <= q).
  { apply Rmult_le_reg_r with (IZR b); [lra |]. rewrite Hqb. nra. }
  assert (Hhi : q <= powerRZ 2 53).
  { rewrite <- two_pow_53. apply Rmult_le_reg_r with (IZR b); [lra |].
    rewrite Hqb. nra. }
  assert (Hrange : powerRZ 2 (-1022) <= Rabs q <= powerRZ 2 1023).
  { rewrite Rabs_pos_eq by lra. split.
    - apply Rle_trans with (powerRZ 2 (-53)); [apply powerRZ_2_le; lia | exact Hlo].
    - apply Rle_trans with (powerRZ 2 53); [exact Hhi | apply powerRZ_2_le; lia]. }
  pose proof (rnd_relative_error rnd Hrnd q Hrange) as He.
  rewrite (Rabs_pos_eq q) in He by lra.
  apply Rle_lt_trans with (q * powerRZ 2 (-53) * IZR b).
  - apply Rmult_le_compat_r; [lra | exact He].
  - replace (q * powerRZ 2 (-53) * IZR b) with (IZR a * powerRZ 2 (-53)) by (rewrite <- Hqb; ring).
    nra.
Qed.

Lemma truediv_floor (a b : Z) :
  (1 <= a < 2 ^ 53)%Z -> (1 <= b < 2 ^ 53)%Z ->
  Zfloor (rnd (IZR a / IZR b)) = (a / b)%Z.
Proof.
  intros Ha Hb. pose proof (rnd_quotient a b Ha Hb) as He.
  assert (Hb1 : 1 <= IZR b) by (apply IZR_le; lia).
  set (q := IZR a / IZR b) in *.
  assert (Hqb : q * IZR b = IZR a) by (unfold q; field; lra).
  pose proof (Z.div_mod a b ltac:(lia)) as Hdm.
  pose proof (Z.mod_pos_bound a b ltac:(lia)) as Hm.
  pose proof (Z.div_pos a b ltac:(lia) ltac:(lia)) as Hk0.
  assert (Hk1 : (a / b <= a)%Z) by (apply Z.div_le_upper_bound; nia).
  set (k := (a / b)%Z) in *. set (r := (a mod b)%Z) in *.
  assert (Ea : IZR a = IZR b * IZR k + IZR r).
  { pose proof (f_equal IZR Hdm) as E.
    rewrite plus_IZR, mult_IZR in E. exact E. }
  assert (Hr0 : 0 <= IZR r) by (apply IZR_le; lia).
  assert (Hr1 : IZR r <= IZR b - 1).
  { rewrite <- minus_IZR. apply IZR_le. lia. }
  apply Zfloor_eq. split.
  - rewrite <- (rnd_IZR k) by lia.
    apply (rnd_monotone rnd Hrnd).
    apply Rmult_le_reg_r with (IZR b); [lra |]. rewrite Hqb. nra.
  - assert (rnd q - q <= Rabs (rnd q - q)) by apply Rle_abs.
    apply Rmult_lt_reg_r with (IZR b); [lra |]. nra.
Qed.

Lemma truediv_ceil (a b : Z) :
  (1 <= a < 2 ^ 53)%Z -> (1 <= b < 2 ^ 53)%Z ->
  Zceil (rnd (IZR a / IZR b)) = ((a + b - 1) / b)%Z.
Proof.
  intros Ha Hb. pose proof (rnd_quotient a b Ha Hb) as He.
  assert (Hb1 : 1 <= IZR b) by (apply IZR_le; lia).
  set (q := IZR a / IZR b) in *.
  assert (Hqb : q * IZR b = IZR a) by (unfold q; field; lra).
  pose proof (Z.div_mod (a + b - 1) b ltac:(lia)) as Hdm.
  pose proof (Z.mod_pos_bound (a + b - 1) b ltac:(lia)) as Hm.
  pose proof (Z.div_pos (a + b - 1) b ltac:(lia) ltac:(lia)) as Hk0.
  assert (Hk1 : ((a + b - 1) / b <= a)%Z) by (apply Z.div_le_upper_bound; nia).
  set (c := ((a + b - 1) / b)%Z) in *. set (r := ((a + b - 1) mod b)%Z) in *.
  assert (Ea : IZR a + IZR b - 1 = IZR b * IZR c + IZR r).
  { pose proof (f_equal IZR Hdm) as E.
    rewrite minus_IZR, !plus_IZR, mult_IZR in E. lra. }
  assert (Hr0 : 0 <= IZR r) by (apply IZR_le; lia).
  assert (Hr1 : IZR r <= IZR b - 1).
  { rewrite <- minus_IZR. apply IZR_le. lia. }
  apply Zceil_eq. split.
  - assert (q - rnd q <= Rabs (rnd q - q)).
    { rewrite <- Rabs_Ropp. replace (- (rnd q - q)) with (q - rnd q) by ring.
      apply Rle_abs. }
    apply Rmult_lt_reg_r with (IZR b); [lra |]. nra.
  - rewrite <- (rnd_IZR c) by lia.
    apply (rnd_monotone rnd Hrnd).
    apply Rmult_le_reg_r with (IZR b); [lra |]. rewrite Hqb. nra.
Qed.
End Rounding.

(** ** The colour gradient *)

Section Colour.

Variable rnd : R -> R.
Hypothesis Hrnd : binary64_rounding rnd.

Lemma channel_range (t : R) (c0 c1 : Z) :
  0 <= t <= 1 -> (0 <= c0 <= 255)%Z -> (0 <= c1 <= 255)%Z ->
  (0 <= channel rnd t c0 c1 <= 255)%Z.
Proof.
  intros Ht H0 H1. unfold channel, fadd, fmul.
  apply py_int_between.
  apply (rnd_between rnd Hrnd); [lia | lia |].
  assert (Hc0 : 0 <= IZR c0 <= 255) by (split; apply IZR_le; lia).
  assert (Hc1 : 0 <= IZR c1 <= 255) by (split; apply IZR_le; lia).
  rewrite minus_IZR.
  destruct (Rle_dec (IZR c0) (IZR c1)) as [Hle | Hgt].
  - assert (IZR 0 <= rnd (t * (IZR c1 - IZR c0)) <= IZR (c1 - c0)).
    { apply (rnd_between rnd Hrnd); [lia | lia |]. rewrite minus_IZR. nra. }
    rewrite minus_IZR in H. lra.
  - assert (IZR (c1 - c0) <= rnd (t * (IZR c1 - IZR c0)) <= IZR 0).
    { apply (rnd_between rnd Hrnd); [lia | lia |]. rewrite minus_IZR. nra. }
    rewrite minus_IZR in H. lra.
Qed.

Lemma channel_at_0 (c0 c1 : Z) :
  (0 <= c0 <= 255)%Z -> channel rnd 0 c0 c1 = c0.
Proof.
  intros H0. unfold channel, fadd, fmul.
  rewrite Rmult_0_l. rewrite (rnd_IZR rnd Hrnd 0) by lia.
  rewrite Rplus_0_r. rewrite (rnd_IZR rnd Hrnd c0) by lia.
  apply py_int_IZR.
Qed.

Lemma channel_at_1 (c0 c1 : Z) :
  (0 <= c0 <= 255)%Z -> (0 <= c1 <= 255)%Z -> channel rnd 1 c0 c1 = c1.
Proof.
  intros H0 H1. unfold channel, fadd, fmul.
  rewrite Rmult_1_l. rewrite (rnd_IZR rnd Hrnd (c1 - c0)) by lia.
  rewrite <- plus_IZR. rewrite (rnd_IZR rnd Hrnd) by lia.
  rewrite py_int_IZR. lia.
Qed.

(** The interpolation parameter of a bracket of width one quarter. *)
Lemma interpolation_parameter (norm x0 x1 : R) (k : Z) :
  x0 = IZR k / 4 -> x1 = IZR (k + 1) / 4 -> (0 <= k <= 3)%Z ->
  x0 <= norm <= x1 ->
  exists t, fdiv rnd (fsub rnd norm x0) (fsub rnd x1 x0) = Ok t /\
            0 <= t <= 1 /\ (norm = x0 -> t = 0) /\ (norm = x1 -> t = 1).
Proof.
  intros E0 E1 Hk Hn. unfold fsub, fdiv.
  assert (Ew : rnd (x1 - x0) = 0.25).
  { rewrite (rnd_quarter rnd Hrnd (x1 - x0) 1); [| | lia].
    - subst. rewrite plus_IZR. lra.
    - subst. rewrite plus_IZR. lra. }
  rewrite Ew. destruct (Req_dec_T 0.25 0) as [E | _]; [lra |].
  assert (Hq0 : rnd 0 = 0) by (apply (rnd_IZR rnd Hrnd 0); lia).
  assert (Hq1 : rnd 1 = 1) by (apply (rnd_IZR rnd Hrnd 1); lia).
  assert (Hq : rnd 0.25 = 0.25) by (apply (rnd_quarter rnd Hrnd 0.25 1); [lra | lia]).
  assert (Hd : 0 <= rnd (norm - x0) <= 0.25).
  { split.
    - rewrite <- Hq0. apply (rnd_monotone rnd Hrnd). lra.
    - rewrite <- Hq. apply (rnd_monotone rnd Hrnd). subst. rewrite plus_IZR in Hn. lra. }
  eexists; split; [reflexivity |]. split; [| split].
  - split.
    + rewrite <- Hq0. apply (rnd_monotone rnd Hrnd). lra.
    + rewrite <- Hq1. apply (rnd_monotone rnd Hrnd). lra.
  - intros ->. replace (x0 - x0) with 0 by ring. rewrite Hq0.
    replace (0 / 0.25) with 0 by lra. exact Hq0.
  - intros ->. replace (x1 - x0) with 0.25 by (subst; rewrite plus_IZR; lra).
    rewrite Hq. replace (0.25 / 0.25) with 1 by lra. exact Hq1.
Qed.

Ltac bracket_test :=
  match goal with
  | |- context [Rle_dec ?a ?b] => destruct (Rle_dec a b); try lra
  end.

(** In the bracket of index [k] the loop returns the interpolated colour. *)
Lemma interpolate_in_bracket (norm : R) (k : Z) (x0 x1 : R) (c0 c1 : color) :
  x0 = IZR k / 4 -> x1 = IZR (k + 1) / 4 -> (0 <= k <= 3)%Z ->
  x0 <= norm <= x1 ->
  exists t, 0 <= t <= 1 /\ (norm = x0 -> t = 0) /\ (norm = x1 -> t = 1) /\ interpolate rnd norm (x0, c0) (x1, c1) =
      Ok (channel rnd t (fst (fst c0)) (fst (fst c1)),
          channel rnd t (snd (fst c0)) (snd (fst c1)),
          channel rnd t (snd c0) (snd c1)).
Proof.
  intros E0 E1 Hk Hn.
  destruct (interpolation_parameter norm x0 x1 k E0 E1 Hk Hn)
    as (t & Et & Ht & Ht0 & Ht1).
  exists t. repeat split; try tauto; try lra.
  destruct c0 as [[r0 g0] b0], c1 as [[r1 g1] b1].
  unfold interpolate. rewrite Et. reflexivity.
Qed.

Lemma anchor_loop_returns (norm : R) :
  0 <= norm <= 1 ->
  exists c, anchor_loop rnd norm anchors = Ok (Some c) /\ valid_color c.
Proof.
  intros Hn. unfold anchors. cbn [anchor_loop fst].
  bracket_test. bracket_test.
  { destruct (interpolate_in_bracket norm 0 0 0.25 (0, 0, 255)%Z (0, 255, 255)%Z)
      as (t & Ht & _ & _ & E); [lra | simpl; lra | lia | lra |].
    unfold color in *; rewrite E; cbn. eexists; split; [reflexivity |].
    repeat split; apply channel_range; (lra || lia). }
  bracket_test. bracket_test.
  { destruct (interpolate_in_bracket norm 1 0.25 0.5 (0, 255, 255)%Z (0, 255, 0)%Z)
      as (t & Ht & _ & _ & E); [lra | simpl; lra | lia | lra |].
    unfold color in *; rewrite E; cbn. eexists; split; [reflexivity |].
    repeat split; apply channel_range; (lra || lia). }
  bracket_test. bracket_test.
  { destruct (interpolate_in_bracket norm 2 0.5 0.75 (0, 255, 0)%Z (255, 255, 0)%Z)
      as (t & Ht & _ & _ & E); [lra | simpl; lra | lia | lra |].
    unfold color in *; rewrite E; cbn. eexists; split; [reflexivity |].
    repeat split; apply channel_range; (lra || lia). }
  bracket_test. bracket_test.
  destruct (interpolate_in_bracket norm 3 0.75 1 (255, 255, 0)%Z (255, 0, 0)%Z)
    as (t & Ht & _ & _ & E); [lra | simpl; lra | lia | lra |].
  unfold color in *; rewrite E; cbn. eexists; split; [reflexivity |].
  repeat split; apply channel_range; (lra || lia).
Qed.

Ltac at_upper_anchor k x0 x1 c0 c1 :=
  destruct (interpolate_in_bracket x1 k x0 x1 c0 c1)
    as (t & _ & _ & Ht & E); [simpl; lra | simpl; lra | lia | lra |];
  unfold color in *; rewrite E; rewrite (Ht eq_refl); cbn;
  rewrite !channel_at_1 by lia; reflexivity.

Lemma color_at_0 : entropy_to_color rnd 0 = Ok (0, 0, 255)%Z.
Proof.
  unfold entropy_to_color. rewrite clamp_fixed by lra.
  unfold anchors. cbn [anchor_loop fst]. bracket_test. bracket_test.
  destruct (interpolate_in_bracket 0 0 0 0.25 (0, 0, 255)%Z (0, 255, 255)%Z)
    as (t & _ & Ht & _ & E); [lra | simpl; lra | lia | lra |].
  unfold color in *; rewrite E; rewrite (Ht eq_refl); cbn.
  rewrite !channel_at_0 by lia. reflexivity.
Qed.

Lemma color_at_quarter : entropy_to_color rnd 0.25 = Ok (0, 255, 255)%Z.
Proof.
  unfold entropy_to_color. rewrite clamp_fixed by lra.
  unfold anchors. cbn [anchor_loop fst]. bracket_test. bracket_test.
  at_upper_anchor 0%Z 0 0.25 (0, 0, 255)%Z (0, 255, 255)%Z.
Qed.

Lemma color_at_half : entropy_to_color rnd 0.5 = Ok (0, 255, 0)%Z.
Proof.
  unfold entropy_to_color. rewrite clamp_fixed by lra.
  unfold anchors. cbn [anchor_loop fst]. do 4 bracket_test.
  at_upper_anchor 1%Z 0.25 0.5 (0, 255, 255)%Z (0, 255, 0)%Z.
Qed.

Lemma color_at_three_quarters : entropy_to_color rnd 0.75 = Ok (255, 255, 0)%Z.
Proof.
  unfold entropy_to_color. rewrite clamp_fixed by lra.
  unfold anchors. cbn [anchor_loop fst]. do 6 bracket_test.
  at_upper_anchor 2%Z 0.5 0.75 (0, 255, 0)%Z (255, 255, 0)%Z.
Qed.

Lemma color_at_1 : entropy_to_color rnd 1 = Ok (255, 0, 0)%Z.
Proof.
  unfold entropy_to_color. rewrite clamp_fixed by lra.
  unfold anchors. cbn [anchor_loop fst]. do 8 bracket_test.
  at_upper_anchor 3%Z 0.75 1 (255, 255, 0)%Z (255, 0, 0)%Z.
Qed.

(** C5: the colour mapper returns the anchor colours at the five anchor
    positions 0, 0.25, 0.5, 0.75 and 1, and the colour of any input
    (in particular of one outside [0,1]) is the colour of that input
    pinned to the nearest bound. *)
Theorem entropy_to_color_anchors :
  entropy_to_color rnd 0 = Ok (0, 0, 255)%Z /\
  entropy_to_color rnd 0.25 = Ok (0, 255, 255)%Z /\
  entropy_to_color rnd 0.5 = Ok (0, 255, 0)%Z /\
  entropy_to_color rnd 0.75 = Ok (255, 255, 0)%Z /\
  entropy_to_color rnd 1 = Ok (255, 0, 0)%Z /\
  forall x, entropy_to_color rnd x = entropy_to_color rnd (nearest_bound x).
Proof.
  split; [exact color_at_0 |].
  split; [exact color_at_quarter |].
  split; [exact color_at_half |].
  split; [exact color_at_three_quarters |].
  split; [exact color_at_1 |].
  intros x. unfold entropy_to_color.
  rewrite <- clamp_nearest_bound, clamp_idempotent. reflexivity.
Qed.

(** C6: once the input is clamped the loop over the adjacent anchor pairs
    finds a bracket and returns from inside; the fallback after the loop
    (the [None] of [anchor_loop]) is never taken. *)
Theorem fallback_unreachable (norm : R) :
  exists c, anchor_loop rnd (clamp norm) anchors = Ok (Some c) /\
            entropy_to_color rnd norm = Ok c.
Proof.
  destruct (anchor_loop_returns (clamp norm) (clamp_range norm)) as (c & E & _).
  exists c. split; [exact E |].
  unfold entropy_to_color. rewrite E. reflexivity.
Qed.

(** C10: for every real input the colour mapper returns a triple of
    integers, each within [0, 255]. *)
Theorem entropy_to_color_valid (norm : R) :
  exists r g b : Z,
    entropy_to_color rnd norm = Ok (r, g, b) /\
    (0 <= r <= 255)%Z /\ (0 <= g <= 255)%Z /\ (0 <= b <= 255)%Z.
Proof.
  destruct (anchor_loop_returns (clamp norm) (clamp_range norm))
    as ([[r g] b] & E & Hv).
  exists r, g, b. split; [| exact Hv].
  unfold entropy_to_color. rewrite E. reflexivity.
Qed.

End Colour.

(** ** Blocks of one byte *)

Section Single.

Variable rnd : R -> R.
Variable flog2 : R -> R.
Hypothesis Hrnd : binary64_rounding rnd.
(** The C library returns [+0] for [log2(1)]. *)
Hypothesis Hlog : flog2 1 = 0.

Lemma compute_entropy_single (b : Byte.byte) :
  compute_entropy rnd flog2 [b] = Ok 0.
Proof.
  unfold compute_entropy, count_bytes, dict_values, len. cbn.
  unfold entropy_step, truediv. cbn.
  rewrite (rnd_int rnd Hrnd (1 / 1) 1) by (lra || lia).
  replace (1 / 1) with 1 by lra.
  unfold math_log2. destruct (Rlt_dec 0 1); [| lra]. cbn.
  rewrite Hlog. unfold fsub, fmul. rewrite Rmult_0_r.
  rewrite (rnd_IZR rnd Hrnd 0) by lia.
  replace (0 - 0) with 0 by ring.
  rewrite (rnd_IZR rnd Hrnd 0) by lia. reflexivity.
Qed.

Lemma max_entropy_1 : max_entropy flog2 1 = Ok 0.
Proof.
  unfold max_entropy. cbn. unfold math_log2.
  destruct (Rlt_dec 0 1); [| lra]. rewrite Hlog. reflexivity.
Qed.

Lemma process_block_single (b : Byte.byte) : process_block rnd flog2 [b] = Ok (0, (0, 0, 255)%Z).
Proof.
  unfold process_block. rewrite compute_entropy_single.
  change (len [b]) with 1%Z. rewrite max_entropy_1. cbn.
  destruct (Rlt_dec 0 0); [lra |]. cbn.
  rewrite (color_at_0 rnd Hrnd). reflexivity.
Qed.

(** C8: for a block of exactly one byte, whatever the byte, the maximum
    entropy is [log2(1) = 0], so the guard on a zero maximum sets the
    normalized entropy to 0.0, and the colour is blue. *)
Theorem single_byte_block_blue (b : Byte.byte) :
  max_entropy flog2 (len [b]) = Ok 0 /\
  process_block rnd flog2 [b] = Ok (0, (0, 0, 255)%Z).
Proof.
  split.
  - exact max_entropy_1.
  - apply process_block_single.
Qed.

End Single.

(** ** [max_entropy] *)

(** C4: [max_entropy] returns 0.0 for 0, [math.log2(n)] for 0 < n < 256
    and 8.0 from 256 on; so [math.log2(255)] at 255, and 8.0 at 256 and
    at 1000. *)
Theorem max_entropy_cases (flog2 : R -> R) :
  max_entropy flog2 0 = Ok 0 /\
  (forall n, (0 < n < 256)%Z -> max_entropy flog2 n = Ok (flog2 (IZR n))) /\
  (forall n, (256 <= n)%Z -> max_entropy flog2 n = Ok 8) /\
  max_entropy flog2 255 = Ok (flog2 255) /\
  max_entropy flog2 256 = Ok 8 /\
  max_entropy flog2 1000 = Ok 8.
Proof.
  assert (Hlow : forall n, (0 < n < 256)%Z ->
                   max_entropy flog2 n = Ok (flog2 (IZR n))).
  { intros n Hn. unfold max_entropy, math_log2.
    destruct (Z.eqb_spec n 0); [lia |].
    destruct (Z.ltb_spec n 256); [| lia].
    destruct (Rlt_dec 0 (IZR n)) as [_ | Hneg]; [reflexivity |].
    exfalso. apply Hneg. apply IZR_lt. lia. }
  assert (Hhigh : forall n, (256 <= n)%Z -> max_entropy flog2 n = Ok 8).
  { intros n Hn. unfold max_entropy.
    destruct (Z.eqb_spec n 0); [lia |].
    destruct (Z.ltb_spec n 256); [lia | reflexivity]. }
  split; [reflexivity |].
  split; [exact Hlow |].
  split; [exact Hhigh |].
  split; [apply Hlow; lia |].
  split; apply Hhigh; lia.
Qed.

(** ** The grid layout: the search in exact arithmetic *)

Lemma in_py_range (a b c : Z) : In c (py_range a b) <-> (a <= c < b)%Z.
Proof.
  unfold py_range. rewrite in_map_iff. split.
  - intros (i & <- & Hi). apply in_seq in Hi. lia.
  - intros H. exists (Z.to_nat (c - a)). split; [lia |].
    apply in_seq. lia.
Qed.

Lemma ceil_div_bounds (n cols : Z) :
  (1 <= cols <= n)%Z ->
  (1 <= ceil_div n cols <= n /\ n <= cols * ceil_div n cols)%Z.
Proof.
  intros H. unfold ceil_div.
  pose proof (Z.div_mod (n + cols - 1) cols ltac:(lia)) as Hdm.
  pose proof (Z.mod_pos_bound (n + cols - 1) cols ltac:(lia)) as Hm.
  assert ((n + cols - 1) / cols <= n)%Z by (apply Z.div_le_upper_bound; nia).
  assert (1 <= (n + cols - 1) / cols)%Z by (apply Z.div_le_lower_bound; lia).
  nia.
Qed.

Lemma search_exact_spec (n : Z) (l : list Z) :
  forall st : best,
    let '(m0, c0, r0) := st in
    let '(m, c, r) := search_exact n st l in
    (m0 <= m)%Z /\
    ((m, c, r) = st \/
     (In c l /\ r = ceil_div n c /\ m = cell_size c r /\ (m0 < m)%Z)) /\
    (forall c', In c' l -> (cell_size c' (ceil_div n c') <= m)%Z).
Proof.
  induction l as [| x l IH]; intros [[m0 c0] r0].
  - cbn. repeat split; [lia | left; reflexivity | intros c' []].
  - cbn [search_exact fold_left].
    change (fold_left (search_step_exact n) l ?s) with (search_exact n s l).
    unfold search_step_exact.
    destruct (cell_size x (ceil_div n x) >? m0)%Z eqn:E.
    + specialize (IH (cell_size x (ceil_div n x), x, ceil_div n x)).
      cbn in IH. destruct (search_exact n _ l) as [[m c] r].
      destruct IH as (H1 & H2 & H3).
      assert (m0 < cell_size x (ceil_div n x))%Z by lia.
      split; [lia |]. split.
      * right. destruct H2 as [H2 | (Hin & Hr & Hm & Hlt)].
        -- inversion H2; subst. repeat split; try lia. left; reflexivity.
        -- repeat split; try assumption; try lia. right; exact Hin.
      * intros c' [<- | Hin]; [lia | apply H3; exact Hin].
    + specialize (IH (m0, c0, r0)).
      cbn in IH. destruct (search_exact n _ l) as [[m c] r].
      destruct IH as (H1 & H2 & H3).
      split; [lia |]. split.
      * destruct H2 as [H2 | (Hin & Hr & Hm & Hlt)].
        -- left; exact H2.
        -- right. repeat split; try assumption. right; exact Hin.
      * intros c' [<- | Hin]; [lia | apply H3; exact Hin].
Qed.

Lemma some_candidate_fits (n : Z) :
  (0 < n <= canvas_width * canvas_height)%Z ->
  (1 <= Z.min n 400 <= n)%Z /\
  (1 <= cell_size (Z.min n 400) (ceil_div n (Z.min n 400)))%Z.
Proof.
  unfold canvas_width, canvas_height, cell_size, ceil_div.
  intros Hn. split; [lia |].
  set (c := Z.min n 400).
  assert (Hc : (1 <= c <= 400)%Z) by lia.
  assert (Hr1 : (1 <= (n + c - 1) / c)%Z) by (apply Z.div_le_lower_bound; lia).
  assert (Hr2 : ((n + c - 1) / c < 801)%Z) by (apply Z.div_lt_upper_bound; lia).
  assert (1 <= 400 / c)%Z by (apply Z.div_le_lower_bound; lia).
  assert (1 <= 800 / ((n + c - 1) / c))%Z by (apply Z.div_le_lower_bound; lia).
  apply Z.min_glb; assumption.
Qed.

Lemma layout_exact_fits (n pixel_size : Z) :
  (0 < n <= canvas_width * canvas_height)%Z -> (1 <= pixel_size)%Z ->
  let '(m, c, r) := layout_exact n pixel_size in
  (n <= c * r)%Z /\ (1 <= m)%Z /\
  ((pixel_size <= Z.min canvas_width (canvas_height / n))%Z /\
     c = 1%Z /\ r = n /\ m = Z.min canvas_width (canvas_height / n)
   \/
   (Z.min canvas_width (canvas_height / n) < pixel_size)%Z /\
     (1 <= c <= n)%Z /\ r = ceil_div n c /\ m = cell_size c r /\
     forall cols, (1 <= cols <= n)%Z -> (cell_size cols (ceil_div n cols) <= m)%Z).
Proof.
  intros Hn Hp. unfold layout_exact.
  destruct (Z.geb_spec (Z.min canvas_width (canvas_height / n)) pixel_size) as [Hv | Hv].
  - split; [lia |]. split; [lia |]. left. repeat split; lia.
  - pose proof (search_exact_spec n (py_range 1 (n + 1)) (0, 1, 1)%Z) as Hs.
    cbn beta iota in Hs.
    destruct (search_exact n (0, 1, 1)%Z (py_range 1 (n + 1))) as [[m c] r].
    destruct Hs as (_ & H2 & H3).
    destruct (some_candidate_fits n Hn) as (Hin & Hfit).
    assert (Hm : (1 <= m)%Z).
    { specialize (H3 (Z.min n 400)). rewrite in_py_range in H3.
      specialize (H3 ltac:(lia)). lia. }
    destruct H2 as [H2 | (Hc & Hr & Hmc & _)].
    { inversion H2; subst. lia. }
    apply in_py_range in Hc.
    pose proof (ceil_div_bounds n c ltac:(lia)) as Hb.
    split; [subst r; lia |]. split; [exact Hm |].
    right. repeat split; try assumption; try lia.
    intros cols Hcols. apply H3. apply in_py_range. lia.
Qed.

(** ** The grid layout: the floating-point search is the exact one *)

Section Layout.

Variable rnd : R -> R.
Hypothesis Hrnd : binary64_rounding rnd.

Lemma rows_for_exact (n cols : Z) :
  (1 <= n < 2 ^ 53)%Z -> (1 <= cols < 2 ^ 53)%Z ->
  rows_for rnd n cols = Ok (ceil_div n cols).
Proof.
  intros Hn Hc. unfold rows_for, truediv.
  destruct (Z.eqb_spec cols 0); [lia |]. cbn. unfold math_ceil.
  rewrite (truediv_ceil rnd Hrnd) by lia. reflexivity.
Qed.

Lemma square_size_for_exact (cols rows : Z) :
  (1 <= cols < 2 ^ 53)%Z -> (1 <= rows < 2 ^ 53)%Z ->
  square_size_for rnd cols rows = Ok (cell_size cols rows).
Proof.
  intros Hc Hr. unfold square_size_for, truediv.
  destruct (Z.eqb_spec cols 0); [lia |].
  destruct (Z.eqb_spec rows 0); [lia |]. cbn.
  assert (0 < IZR cols) by (apply IZR_lt; lia).
  assert (0 < IZR rows) by (apply IZR_lt; lia).
  rewrite py_int_py_min.
  - rewrite (truediv_floor rnd Hrnd canvas_width cols)
      by (unfold canvas_width; lia).
    rewrite (truediv_floor rnd Hrnd canvas_height rows)
      by (unfold canvas_height; lia).
    reflexivity.
  - apply (rnd_nonneg rnd Hrnd). apply Rlt_le, Rdiv_lt_0_compat; [| assumption].
    unfold canvas_width. lra.
  - apply (rnd_nonneg rnd Hrnd). apply Rlt_le, Rdiv_lt_0_compat; [| assumption].
    unfold canvas_height. lra.
Qed.

Lemma search_step_refines (n : Z) (st : best) (cols : Z) :
  (1 <= n < 2 ^ 53)%Z -> (1 <= cols <= n)%Z ->
  search_step rnd n st cols = Ok (search_step_exact n st cols).
Proof.
  intros Hn Hc. destruct st as [[m bc] br].
  unfold search_step, search_step_exact.
  rewrite rows_for_exact by lia. cbn.
  pose proof (ceil_div_bounds n cols Hc).
  rewrite square_size_for_exact by lia. cbn.
  destruct (cell_size cols (ceil_div n cols) >? m)%Z; reflexivity.
Qed.

Lemma search_loop_refines (n : Z) (l : list Z) :
  (1 <= n < 2 ^ 53)%Z -> (forall c, In c l -> (1 <= c <= n)%Z) ->
  forall st, search_loop rnd n st l = Ok (search_exact n st l).
Proof.
  intros Hn. induction l as [| c l IH]; intros Hl st.
  - reflexivity.
  - cbn. rewrite search_step_refines; [| lia | apply Hl; left; reflexivity].
    cbn. apply IH. intros c' Hc'. apply Hl. right. exact Hc'.
Qed.

(** For fewer than 2^53 blocks the floating-point layout is the exact one. *)
Lemma choose_layout_refines (n pixel_size : Z) :
  (1 <= n < 2 ^ 53)%Z ->
  choose_layout rnd n pixel_size = Ok (layout_exact n pixel_size).
Proof.
  intros Hn. unfold choose_layout, layout_exact, truediv.
  destruct (Z.eqb_spec n 0); [lia |]. cbn.
  assert (0 < IZR n) by (apply IZR_lt; lia).
  rewrite py_int_py_min.
  - rewrite ZfloorZ.
    rewrite (truediv_floor rnd Hrnd canvas_height n)
      by (unfold canvas_height; lia).
    destruct (Z.min canvas_width (canvas_height / n) >=? pixel_size)%Z.
    + reflexivity.
    + apply search_loop_refines; [lia |].
      intros c Hc. apply in_py_range in Hc. lia.
  - unfold canvas_width. lra.
  - apply (rnd_nonneg rnd Hrnd). apply Rlt_le, Rdiv_lt_0_compat; [| assumption].
    unfold canvas_height. lra.
Qed.

Lemma grid_layout_refines (n pixel_size : Z) :
  (1 <= n < 2 ^ 53)%Z ->
  grid_layout rnd n pixel_size =
    let '(size, cols, rows) := layout_exact n pixel_size in
    Ok {| best_cols := cols; best_rows := rows; max_square_size := size;
          left_margin := (canvas_width - cols * size) / 2;
          top_margin := (canvas_height - rows * size) / 2 |}%Z.
Proof.
  intros Hn. unfold grid_layout.
  rewrite choose_layout_refines by assumption. reflexivity.
Qed.

Lemma vertical_layout_of_size_0 :
  grid_layout rnd 1600 0 =
    Ok {| best_cols := 1; best_rows := 1600; max_square_size := 0;
          left_margin := 200; top_margin := 400 |}.
Proof. rewrite grid_layout_refines by lia. reflexivity. Qed.

(** C3, amended: for 0 < n <= 400 * 800 blocks and a minimum cell size of
    at least 1, the layout is computed, its grid holds the n blocks and its
    cells are at least 1 wide; it is the single column when that one meets
    the minimum, and otherwise the candidate of largest cell size among
    cols = 1..n with rows = ceil(n / cols) and cell size
    floor(min(400 / cols, 800 / rows)). *)
Theorem grid_layout_fits (n pixel_size : Z) :
  (0 < n <= canvas_width * canvas_height)%Z -> (1 <= pixel_size)%Z ->
  exists g, grid_layout rnd n pixel_size = Ok g /\
    (n <= best_cols g * best_rows g)%Z /\ (1 <= max_square_size g)%Z /\
    ((pixel_size <= Z.min canvas_width (canvas_height / n))%Z /\ vertical_layout n g \/
     (Z.min canvas_width (canvas_height / n) < pixel_size)%Z /\ searched_layout n g).
Proof.
  intros Hn Hp.
  rewrite grid_layout_refines by (unfold canvas_width, canvas_height in Hn; lia).
  pose proof (layout_exact_fits n pixel_size Hn Hp) as H.
  destruct (layout_exact n pixel_size) as [[m c] r].
  destruct H as (H1 & H2 & H3).
  eexists; split; [reflexivity |]. cbn.
  split; [exact H1 |]. split; [exact H2 |].
  unfold vertical_layout, searched_layout; cbn.
  destruct H3 as [(Hv & -> & -> & ->) | (Hv & Hc & Hr & Hm & Hmax)].
  - left. repeat split; lia.
  - right. repeat split; try assumption; lia.
Qed.

(** *** The layout never fails for a non-empty list *)

Lemma rows_for_succeeds (n cols : Z) :
  (1 <= cols <= n)%Z -> exists rows, rows_for rnd n cols = Ok rows /\ (1 <= rows)%Z.
Proof.
  intros H. unfold rows_for, truediv.
  destruct (Z.eqb_spec cols 0); [lia |]. cbn.
  eexists; split; [reflexivity |]. unfold math_ceil.
  assert (H1 : 1 <= IZR n / IZR cols).
  { assert (0 < IZR cols) by (apply IZR_lt; lia).
    assert (IZR cols <= IZR n) by (apply IZR_le; lia).
    apply Rmult_le_reg_r with (IZR cols); [assumption |].
    replace (IZR n / IZR cols * IZR cols) with (IZR n) by (field; lra). lra. }
  assert (H2 : 1 <= rnd (IZR n / IZR cols)).
  { rewrite <- (rnd_IZR rnd Hrnd 1) at 1 by lia.
    apply (rnd_monotone rnd Hrnd). exact H1. }
  pose proof (Zceil_bound (rnd (IZR n / IZR cols))) as Hb.
  apply le_IZR. lra.
Qed.

Lemma search_step_succeeds (n : Z) (st : best) (cols : Z) :
  (1 <= cols <= n)%Z -> (1 <= snd (fst st))%Z ->
  exists st', search_step rnd n st cols = Ok st' /\ (1 <= snd (fst st'))%Z.
Proof.
  intros Hc Hst. destruct st as [[m bc] br]. unfold search_step.
  destruct (rows_for_succeeds n cols Hc) as (rows & -> & Hrows). cbn.
  unfold square_size_for, truediv.
  destruct (Z.eqb_spec cols 0); [lia |].
  destruct (Z.eqb_spec rows 0); [lia |]. cbn.
  match goal with |- context [(?s >? m)%Z] => destruct (s >? m)%Z end;
    eexists; (split; [reflexivity | cbn in *; lia]).
Qed.

Lemma search_loop_succeeds (n : Z) (l : list Z) :
  (forall c, In c l -> (1 <= c <= n)%Z) ->
  forall st, (1 <= snd (fst st))%Z ->
  exists st', search_loop rnd n st l = Ok st' /\ (1 <= snd (fst st'))%Z.
Proof.
  induction l as [| c l IH]; intros Hl st Hst.
  - exists st. split; [reflexivity | exact Hst].
  - cbn.
    destruct (search_step_succeeds n st c) as (st1 & -> & H1);
      [apply Hl; left; reflexivity | exact Hst |].
    cbn. apply IH; [| exact H1].
    intros c' Hc'. apply Hl. right. exact Hc'.
Qed.

(** With at least one block the layout is computed, and it has at least
    one column. *)
Lemma grid_layout_succeeds (n pixel_size : Z) :
  (1 <= n)%Z ->
  exists g, grid_layout rnd n pixel_size = Ok g /\ (1 <= best_cols g)%Z.
Proof.
  intros Hn. unfold grid_layout, choose_layout, truediv.
  destruct (Z.eqb_spec n 0); [lia |]. cbn.
  match goal with |- context [(?v >=? pixel_size)%Z] => destruct (v >=? pixel_size)%Z end.
  - cbn. eexists; split; [reflexivity |]. cbn. lia.
  - destruct (search_loop_succeeds n (py_range 1 (n + 1))) with (st := (0, 1, 1)%Z)
      as ([[m c] r] & -> & Hc).
    + intros c Hc. apply in_py_range in Hc. lia.
    + cbn. lia.
    + cbn. eexists; split; [reflexivity |]. cbn in *. lia.
Qed.

End Layout.

(** ** The image renderer *)

(** A square of at least one pixel is no inverted box, and a library that
    does not check draws every box. *)
Lemma draw_rectangle_accepts (rt : runtime) (img : image) (r : rectangle) :
  checks_boxes rt = false \/ inverted r = false ->
  draw_rectangle rt img r =
    Ok {| img_width := img_width img; img_height := img_height img;
          img_background := img_background img;
          img_rectangles := img_rectangles img ++ [r] |}.
Proof.
  intros [H | H]; unfold draw_rectangle; rewrite H;
    [reflexivity | rewrite andb_false_r; reflexivity].
Qed.

Lemma draw_loop_succeeds (rt : runtime) (g : geometry) (colors : list color) :
  best_cols g <> 0%Z ->
  checks_boxes rt = false \/ (1 <= max_square_size g)%Z ->
  forall i img, exists img', draw_loop rt g i colors img = Ok img'.
Proof.
  intros Hc Hs. induction colors as [| col rest IH]; intros i img.
  - eexists; reflexivity.
  - cbn [draw_loop]. unfold floordiv, pymod.
    destruct (Z.eqb_spec (best_cols g) 0); [contradiction |]. cbn [bind].
    rewrite draw_rectangle_accepts.
    + cbn [bind]. apply IH.
    + destruct Hs as [Hs | Hs]; [left; exact Hs | right].
      unfold inverted. cbn. apply orb_false_iff. split; apply Z.ltb_ge; lia.
Qed.

Section Renderer.

Variable rnd : R -> R.
Hypothesis Hrnd : binary64_rounding rnd.

Lemma create_image_without_pillow (rt : runtime) (colors : list color)
    (pixel_size : Z) (output_file : string) (w : world) :
  pillow rt = false ->
  create_image rnd rt colors pixel_size output_file w =
    (Ok tt, print pillow_missing_message w).
Proof. intros H. unfold create_image. rewrite H. reflexivity. Qed.

Lemma grid_layout_visible (n pixel_size : Z) :
  (0 < n <= canvas_width * canvas_height)%Z -> (1 <= pixel_size)%Z ->
  exists g, grid_layout rnd n pixel_size = Ok g /\
    (1 <= best_cols g)%Z /\ (1 <= max_square_size g)%Z.
Proof.
  intros Hn Hp.
  rewrite (grid_layout_refines rnd Hrnd)
    by (unfold canvas_width, canvas_height in Hn; lia).
  pose proof (layout_exact_fits n pixel_size Hn Hp) as H.
  destruct (layout_exact n pixel_size) as [[m c] r].
  destruct H as (_ & H2 & H3).
  eexists; split; [reflexivity |]. cbn.
  split; [| exact H2].
  destruct H3 as [(_ & -> & _) | (_ & Hc & _)]; lia.
Qed.

(** C7: a failure to persist the image does not leave [create_image].
    Without Pillow the function prints its notice and returns.  With
    Pillow, whenever the layout and the drawing are done and [img.save]
    raises [e], the function prints the error and returns.  The layout
    and the drawing are done whenever there is at least one block, the
    minimum size is at least 1 and the blocks are no more than the
    pixels of the canvas, so that the squares have at least one pixel.
    The lines printed before are still there, followed by the
    message. *)
Theorem persistence_failure_reported (rt : runtime) (colors : list color)
    (pixel_size : Z) (output_file : string) (w : world) :
  (pillow rt = false ->
   create_image rnd rt colors pixel_size output_file w =
     (Ok tt, {| stdout := stdout w ++ [pillow_missing_message];
                files := files w |})) /\
  (pillow rt = true ->
   forall g img e,
     grid_layout rnd (len colors) pixel_size = Ok g ->
     draw_loop rt g 0 colors (Image_new canvas_width canvas_height "white") = Ok img ->
     save_raises rt img output_file = Some e ->
     create_image rnd rt colors pixel_size output_file w =
       (Ok tt, {| stdout := stdout w ++ [("Error saving image: " ++ str e)%string];
                  files := files w |})) /\
  (colors <> [] -> (1 <= pixel_size)%Z ->
   (len colors <= canvas_width * canvas_height)%Z ->
   exists g img,
     grid_layout rnd (len colors) pixel_size = Ok g /\
     draw_loop rt g 0 colors (Image_new canvas_width canvas_height "white") = Ok img).
Proof.
  split; [| split].
  - intros Hp. rewrite create_image_without_pillow by exact Hp. reflexivity.
  - intros Hp g img e Eg Ei He.
    unfold create_image. rewrite Hp, Eg, Ei, He. reflexivity.
  - intros Hc Hp Hmax.
    assert (Hn : (1 <= len colors)%Z).
    { unfold len. destruct colors; [contradiction | cbn; lia]. }
    destruct (grid_layout_visible (len colors) pixel_size ltac:(lia) Hp)
      as (g & Eg & Hg & Hs).
    destruct (draw_loop_succeeds rt g colors ltac:(lia) (or_intror Hs) 0%Z
                (Image_new canvas_width canvas_height "white")) as (img & Ei).
    exists g, img. split; assumption.
Qed.

End Renderer.

(** C1: with Pillow installed and an empty colour list, [create_image]
    raises [ZeroDivisionError] at [canvas_height / n]; nothing is drawn,
    printed or written.  The spec asks for an empty canvas instead. *)
Theorem create_image_empty_raises (rnd : R -> R) (strict : bool)
    (save : image -> string -> option exn)
    (pixel_size : Z) (output_file : string) (w : world) :
  create_image rnd
    {| pillow := true; checks_boxes := strict; save_raises := save |} []
    pixel_size output_file w = (Raise ZeroDivisionError, w).
Proof. reflexivity. Qed.

(** ** The table of byte counts *)

Lemma total_cons (x : Z) (l : list Z) : total (x :: l) = (x + total l)%Z.
Proof. reflexivity. Qed.

Lemma byte_eqb_spec (a b : Byte.byte) : reflect (a = b) (Byte.eqb a b).
Proof.
  destruct (Byte.eqb a b) eqn:E; constructor.
  - apply Byte.byte_dec_bl. exact E.
  - apply Byte.eqb_false. exact E.
Qed.

Lemma dict_incr_cons (k : Byte.byte) (v : Z) (d : dict) (b : Byte.byte) :
  dict_incr ((k, v) :: d) b =
    if Byte.eqb k b then (k, v + 1)%Z :: d else (k, v) :: dict_incr d b.
Proof. unfold dict_incr. cbn. destruct (Byte.eqb k b); reflexivity. Qed.

Lemma dict_incr_keys (d : dict) (b : Byte.byte) :
  dict_keys (dict_incr d b) =
    if in_dec Byte.byte_eq_dec b (dict_keys d) then dict_keys d
    else dict_keys d ++ [b].
Proof.
  induction d as [| [k v] d IH].
  - reflexivity.
  - rewrite dict_incr_cons. unfold dict_keys in *. cbn [map fst].
    destruct (byte_eqb_spec k b) as [-> | Hne].
    + destruct (in_dec Byte.byte_eq_dec b (b :: map fst d)) as [_ | H];
        [reflexivity | exfalso; apply H; left; reflexivity].
    + cbn [map fst]. rewrite IH.
      destruct (in_dec Byte.byte_eq_dec b (map fst d)) as [Hin | Hnin];
        destruct (in_dec Byte.byte_eq_dec b (k :: map fst d)) as [Hin' | Hnin'];
        try reflexivity.
      * exfalso. apply Hnin'. right. exact Hin.
      * exfalso. destruct Hin' as [E | Hin']; [congruence | contradiction].
Qed.

Lemma dict_incr_NoDup (d : dict) (b : Byte.byte) :
  NoDup (dict_keys d) -> NoDup (dict_keys (dict_incr d b)).
Proof.
  intros H. rewrite dict_incr_keys.
  destruct (in_dec Byte.byte_eq_dec b (dict_keys d)) as [Hin | Hnin];
    [exact H |].
  apply NoDup_rev in H. rewrite <- (rev_involutive (dict_keys d ++ [b])).
  apply NoDup_rev. rewrite rev_app_distr. cbn.
  constructor; [| exact H]. rewrite <- in_rev. exact Hnin.
Qed.

Lemma dict_get_lower (d : dict) (b : Byte.byte) :
  Forall (fun c => 1 <= c)%Z (dict_values d) -> (0 <= dict_get d b 0)%Z.
Proof.
  induction d as [| [k v] d IH]; cbn; intros H.
  - lia.
  - inversion H; subst. destruct (Byte.eqb k b); [lia | apply IH; assumption].
Qed.

Lemma dict_incr_positive (d : dict) (b : Byte.byte) :
  Forall (fun c => 1 <= c)%Z (dict_values d) ->
  Forall (fun c => 1 <= c)%Z (dict_values (dict_incr d b)).
Proof.
  induction d as [| [k v] d IH]; intros H.
  - cbn. constructor; [lia | constructor].
  - rewrite dict_incr_cons. cbn in H. inversion H; subst.
    destruct (Byte.eqb k b); cbn.
    + constructor; [lia | assumption].
    + constructor; [assumption | apply IH; assumption].
Qed.

Lemma dict_incr_total (d : dict) (b : Byte.byte) :
  total (dict_values (dict_incr d b)) = (total (dict_values d) + 1)%Z.
Proof.
  induction d as [| [k v] d IH].
  - reflexivity.
  - rewrite dict_incr_cons. unfold dict_values in *.
    destruct (Byte.eqb k b); cbn [map snd]; rewrite !total_cons.
    + lia.
    + rewrite IH. lia.
Qed.

Lemma dict_incr_get (d : dict) (b k : Byte.byte) :
  dict_get (dict_incr d b) k 0 =
    (dict_get d k 0 + if Byte.eqb b k then 1 else 0)%Z.
Proof.
  induction d as [| [k' v] d IH].
  - cbn. destruct (Byte.eqb b k); reflexivity.
  - rewrite dict_incr_cons.
    destruct (byte_eqb_spec k' b) as [-> | Hne]; cbn.
    + destruct (Byte.eqb b k); lia.
    + destruct (byte_eqb_spec k' k) as [-> | Hne'].
      * destruct (byte_eqb_spec b k) as [-> | _]; [congruence | lia].
      * exact IH.
Qed.

(** What the counting loop builds, from any dict [d]. *)
Lemma count_loop_spec (block : list Byte.byte) :
  forall d : dict,
    NoDup (dict_keys d) -> Forall (fun c => 1 <= c)%Z (dict_values d) ->
    let d' := fold_left dict_incr block d in
    NoDup (dict_keys d') /\
    Forall (fun c => 1 <= c)%Z (dict_values d') /\
    total (dict_values d') = (total (dict_values d) + len block)%Z /\
    forall k, dict_get d' k 0 =
      (dict_get d k 0 + Z.of_nat (count_occ Byte.byte_eq_dec block k))%Z.
Proof.
  induction block as [| b block IH]; intros d Hnd Hpos; cbn [fold_left].
  - cbn. repeat split; try assumption; lia.
  - destruct (IH (dict_incr d b) (dict_incr_NoDup d b Hnd)
                (dict_incr_positive d b Hpos)) as (H1 & H2 & H3 & H4).
    cbn zeta. repeat split; try assumption.
    + rewrite H3, dict_incr_total. unfold len. cbn [List.length]. lia.
    + intros k. rewrite H4, dict_incr_get. cbn [count_occ].
      destruct (byte_eqb_spec b k) as [-> | Hne].
      * destruct (Byte.byte_eq_dec k k); [lia | contradiction].
      * destruct (Byte.byte_eq_dec b k); [contradiction | lia].
Qed.

Lemma count_bytes_spec (block : list Byte.byte) :
  NoDup (dict_keys (count_bytes block)) /\
  Forall (fun c => 1 <= c)%Z (dict_values (count_bytes block)) /\
  total (dict_values (count_bytes block)) = len block /\
  forall k, dict_get (count_bytes block) k 0 =
    Z.of_nat (count_occ Byte.byte_eq_dec block k).
Proof.
  unfold count_bytes.
  destruct (count_loop_spec block [] (NoDup_nil _) (Forall_nil _))
    as (H1 & H2 & H3 & H4).
  repeat split; try assumption.
Qed.

(** ** Entropy in exact arithmetic *)

Lemma ln_2_pos : 0 < ln 2.
Proof. rewrite <- ln_1. apply ln_increasing; lra. Qed.

Lemma ln_le_minus_1 (x : R) : 0 < x -> ln x <= x - 1.
Proof.
  intros H. pose proof (exp_ineq1_le (ln x)) as E.
  rewrite exp_ln in E by exact H. lra.
Qed.

Lemma ln_le (x y : R) : 0 < x -> x <= y -> ln x <= ln y.
Proof.
  intros Hx [Hlt | ->]; [| lra].
  apply Rlt_le, ln_increasing; assumption.
Qed.

Lemma log2_le (x y : R) : 0 < x -> x <= y -> log2 x <= log2 y.
Proof.
  intros Hx Hxy. unfold log2. pose proof ln_2_pos.
  apply Rmult_le_compat_r; [apply Rlt_le, Rinv_0_lt_compat; assumption |].
  apply ln_le; assumption.
Qed.

Lemma log2_256 : log2 256 = 8.
Proof.
  unfold log2. replace 256 with (2 ^ 8) by lra.
  rewrite ln_pow by lra. pose proof ln_2_pos. simpl INR. field. lra.
Qed.

(** Gibbs' inequality, one term: [-p ln p <= p ln K + 1/K - p]. *)
Lemma gibbs_term (p K : R) :
  0 < p -> 0 < K -> - (p * ln p) <= p * ln K + / K - p.
Proof.
  intros Hp HK.
  assert (Hx : 0 < / (K * p)) by (apply Rinv_0_lt_compat; nra).
  pose proof (ln_le_minus_1 _ Hx) as H.
  rewrite ln_Rinv in H by nra. rewrite ln_mult in H by assumption.
  assert (E : p * / (K * p) = / K) by (field; lra).
  assert (Hm : p * - (ln K + ln p) <= p * (/ (K * p) - 1)).
  { apply Rmult_le_compat_l; lra. }
  rewrite Rmult_minus_distr_l, E in Hm. nra.
Qed.

Lemma shannon_term_ln (n c : Z) :
  shannon_term n c * ln 2 = - (IZR c / IZR n * ln (IZR c / IZR n)).
Proof.
  unfold shannon_term, log2. pose proof ln_2_pos.
  set (p := IZR c / IZR n). field. lra.
Qed.

Lemma shannon_sum_gibbs (K : R) (n : Z) (counts : list Z) :
  (0 < n)%Z -> 0 < K -> Forall (fun c => 1 <= c)%Z counts ->
  shannon_sum n counts * ln 2 <=
    IZR (total counts) / IZR n * ln K
    + INR (List.length counts) / K - IZR (total counts) / IZR n.
Proof.
  intros Hn HK. assert (Hn' : 0 < IZR n) by (apply IZR_lt; lia).
  induction counts as [| c counts IH]; intros Hpos.
  - cbn. lra.
  - inversion Hpos as [| ? ? Hc Hrest]; subst.
    specialize (IH Hrest).
    cbn [shannon_sum fold_right]. fold (shannon_sum n counts).
    rewrite total_cons, plus_IZR.
    change (List.length (c :: counts)) with (S (List.length counts)).
    rewrite S_INR.
    rewrite Rmult_plus_distr_r, shannon_term_ln.
    assert (Hp : 0 < IZR c / IZR n).
    { apply Rdiv_lt_0_compat; [apply IZR_lt; lia | assumption]. }
    pose proof (gibbs_term _ K Hp HK) as G.
    unfold Rdiv in *. lra.
Qed.

Lemma total_length (l : list Z) :
  Forall (fun c => 1 <= c)%Z l -> (Z.of_nat (List.length l) <= total l)%Z.
Proof.
  induction l as [| x l IH]; intros H; [cbn; lia |].
  inversion H as [| ? ? Hx Hl]; subst. rewrite total_cons. specialize (IH Hl).
  cbn [List.length]. lia.
Qed.

Lemma total_upper (l : list Z) (c : Z) :
  Forall (fun c => 1 <= c)%Z l -> In c l -> (c <= total l)%Z.
Proof.
  induction l as [| x l IH]; intros H Hin; [destruct Hin |].
  inversion H as [| ? ? Hx Hl]; subst. rewrite total_cons.
  pose proof (total_length l Hl) as Hlen.
  destruct Hin as [-> | Hin]; [lia |]. specialize (IH Hl Hin). lia.
Qed.

Lemma shannon_term_nonneg (n c : Z) :
  (1 <= c <= n)%Z -> 0 <= shannon_term n c.
Proof.
  intros H. unfold shannon_term, log2.
  assert (0 < IZR n) by (apply IZR_lt; lia).
  assert (1 <= IZR c) by (apply IZR_le; lia).
  assert (IZR c <= IZR n) by (apply IZR_le; lia).
  assert (Hp : 0 < IZR c / IZR n) by (apply Rdiv_lt_0_compat; lra).
  assert (Hp1 : IZR c / IZR n <= 1).
  { apply Rmult_le_reg_r with (IZR n); [assumption |].
    replace (IZR c / IZR n * IZR n) with (IZR c) by (field; lra). lra. }
  pose proof (ln_le_minus_1 _ Hp) as Hl. pose proof ln_2_pos as Hln2.
  assert (Hq : ln (IZR c / IZR n) / ln 2 <= 0).
  { apply Rmult_le_reg_r with (ln 2); [assumption |].
    replace (ln (IZR c / IZR n) / ln 2 * ln 2) with (ln (IZR c / IZR n))
      by (field; lra). lra. }
  nra.
Qed.

Lemma shannon_sum_nonneg (n : Z) (counts : list Z) :
  (forall c, In c counts -> (1 <= c <= n)%Z) -> 0 <= shannon_sum n counts.
Proof.
  induction counts as [| c counts IH]; intros H; cbn.
  - lra.
  - pose proof (shannon_term_nonneg n c (H c (or_introl eq_refl))).
    assert (0 <= shannon_sum n counts)
      by (apply IH; intros c' Hc'; apply H; right; exact Hc').
    unfold shannon_sum in *. lra.
Qed.

Lemma shannon_sum_permutation (n : Z) (l l' : list Z) :
  Permutation l l' -> shannon_sum n l = shannon_sum n l'.
Proof.
  induction 1 as [| x l l' _ IH | x y l | l l' l'' _ IH1 _ IH2].
  - reflexivity.
  - cbn. fold (shannon_sum n l) (shannon_sum n l'). rewrite IH. reflexivity.
  - cbn. lra.
  - congruence.
Qed.

(** In exact arithmetic the loop computes Shannon's sum. *)
Lemma entropy_loop_exact (n : Z) (counts : list Z) :
  (0 < n)%Z -> Forall (fun c => 1 <= c)%Z counts ->
  forall ent, entropy_loop exact log2 n ent counts = Ok (ent + shannon_sum n counts).
Proof.
  intros Hn. assert (Hn' : 0 < IZR n) by (apply IZR_lt; lia).
  induction counts as [| c counts IH]; intros Hpos ent.
  - cbn. f_equal. lra.
  - inversion Hpos as [| ? ? Hc Hrest]; subst. cbn [entropy_loop].
    unfold entropy_step, truediv.
    destruct (Z.eqb_spec n 0); [lia |]. cbn [bind].
    unfold math_log2, exact at 1.
    assert (Hp : 0 < IZR c / IZR n).
    { apply Rdiv_lt_0_compat; [apply IZR_lt; lia | assumption]. }
    destruct (Rlt_dec 0 (IZR c / IZR n)); [| contradiction]. cbn [bind].
    rewrite IH by assumption. f_equal.
    unfold fsub, fmul, exact. cbn [shannon_sum fold_right].
    fold (shannon_sum n counts). unfold shannon_term. lra.
Qed.

Lemma distinct_bytes (l : list Byte.byte) :
  NoDup l -> (List.length l <= 256)%nat.
Proof.
  intros H.
  assert (Hn : NoDup (map Byte.to_nat l)).
  { apply Finite.Injective_map_NoDup; [| exact H].
    intros x y E. pose proof (Byte.of_to_nat x) as Hx.
    rewrite E, Byte.of_to_nat in Hx. congruence. }
  assert (Hi : incl (map Byte.to_nat l) (seq 0 256)).
  { intros i Hi. apply in_map_iff in Hi as (x & <- & _).
    apply in_seq. pose proof (Byte.to_nat_bounded x). lia. }
  pose proof (NoDup_incl_length Hn Hi) as Hlen.
  rewrite length_map, length_seq in Hlen. exact Hlen.
Qed.

Lemma compute_entropy_nonempty (rnd flog2 : R -> R) (block : list Byte.byte) :
  block <> [] ->
  compute_entropy rnd flog2 block =
    entropy_loop rnd flog2 (len block) 0 (dict_values (count_bytes block)).
Proof. intros H. destruct block; [contradiction | reflexivity]. Qed.

Lemma max_entropy_exact (n : Z) :
  (0 < n)%Z -> max_entropy log2 n = Ok (log2 (IZR (Z.min n 256))).
Proof.
  intros Hn. unfold max_entropy, math_log2.
  destruct (Z.eqb_spec n 0); [lia |].
  destruct (Z.ltb_spec n 256).
  - destruct (Rlt_dec 0 (IZR n)) as [_ | Hneg].
    + rewrite Z.min_l by lia. reflexivity.
    + exfalso. apply Hneg. apply IZR_lt. lia.
  - rewrite Z.min_r by lia. rewrite log2_256. reflexivity.
Qed.

(** Exact arithmetic: the entropy of a block lies between 0 and the
    maximum for its length, [log2(min(256, len(block)))]. *)
Lemma entropy_bounds_exact (block : list Byte.byte) :
  exists ent max_ent,
    compute_entropy exact log2 block = Ok ent /\
    max_entropy log2 (len block) = Ok max_ent /\
    0 <= ent <= max_ent.
Proof.
  destruct (list_eq_dec Byte.byte_eq_dec block []) as [-> | Hne].
  { exists 0, 0. repeat split; try reflexivity; lra. }
  set (n := len block).
  assert (Hn : (1 <= n)%Z).
  { unfold n, len. destruct block; [contradiction | cbn; lia]. }
  destruct (count_bytes_spec block) as (Hnd & Hpos & Htot & _).
  fold n in Htot.
  set (counts := dict_values (count_bytes block)) in *.
  assert (Hk : List.length counts = List.length (dict_keys (count_bytes block))).
  { unfold counts, dict_values, dict_keys. rewrite !length_map. reflexivity. }
  pose proof (distinct_bytes _ Hnd) as Hk256. rewrite <- Hk in Hk256.
  pose proof (total_length counts Hpos) as Hkn. rewrite Htot in Hkn.
  assert (Hk1 : (1 <= List.length counts)%nat).
  { destruct counts; [cbn in Htot; lia | cbn; lia]. }
  exists (0 + shannon_sum n counts), (log2 (IZR (Z.min n 256))).
  split.
  { rewrite compute_entropy_nonempty by exact Hne.
    apply entropy_loop_exact; [lia | exact Hpos]. }
  split; [apply max_entropy_exact; lia |].
  rewrite Rplus_0_l. split.
  - apply shannon_sum_nonneg. intros c Hc. split.
    + rewrite Forall_forall in Hpos. apply Hpos. exact Hc.
    + rewrite <- Htot. apply total_upper; assumption.
  - set (K := INR (List.length counts)).
    assert (HK : 1 <= K) by (unfold K; replace 1 with (INR 1) by reflexivity; apply le_INR; exact Hk1).
    pose proof (shannon_sum_gibbs K n counts ltac:(lia) ltac:(lra) Hpos) as G.
    rewrite Htot in G. fold K in G.
    assert (Hn' : 0 < IZR n) by (apply IZR_lt; lia).
    replace (IZR n / IZR n) with 1 in G by (field; lra).
    replace (K / K) with 1 in G by (field; lra).
    pose proof ln_2_pos as Hln2.
    apply Rle_trans with (log2 K).
    + unfold log2. apply Rmult_le_reg_r with (ln 2); [exact Hln2 |].
      replace (ln K / ln 2 * ln 2) with (ln K) by (field; lra). lra.
    + apply log2_le; [lra |]. unfold K. rewrite INR_IZR_INZ.
      apply IZR_le. lia.
Qed.

Lemma dict_in_get (d : dict) :
  NoDup (dict_keys d) -> Forall (fun c => 1 <= c)%Z (dict_values d) ->
  forall k c, In (k, c) d <-> dict_get d k 0 = c /\ (1 <= c)%Z.
Proof.
  induction d as [| [k' v] d IH]; intros Hnd Hpos k c.
  - cbn. split; [intros [] | intros [<- H]; lia].
  - cbn in Hnd, Hpos. inversion Hnd as [| ? ? Hnin Hnd']; subst.
    inversion Hpos as [| ? ? Hv Hpos']; subst.
    specialize (IH Hnd' Hpos' k c). cbn [In dict_get].
    destruct (byte_eqb_spec k' k) as [-> | Hne].
    + split.
      * intros [E | Hin]; [inversion E; subst; split; [reflexivity | exact Hv] |].
        exfalso. apply Hnin. apply (in_map fst) in Hin. exact Hin.
      * intros [<- _]. left. reflexivity.
    + split.
      * intros [E | Hin]; [inversion E; congruence | apply IH; exact Hin].
      * intros H. right. apply IH. exact H.
Qed.

Lemma count_bytes_permutation (b b' : list Byte.byte) :
  Permutation b b' -> Permutation (count_bytes b) (count_bytes b').
Proof.
  intros Hp.
  destruct (count_bytes_spec b) as (Hnd & Hpos & _ & Hget).
  destruct (count_bytes_spec b') as (Hnd' & Hpos' & _ & Hget').
  apply NoDup_Permutation.
  - apply (NoDup_map_inv fst). exact Hnd.
  - apply (NoDup_map_inv fst). exact Hnd'.
  - intros [k c]. rewrite (dict_in_get _ Hnd Hpos), (dict_in_get _ Hnd' Hpos').
    rewrite Hget, Hget'.
    rewrite (Permutation_count_occ Byte.byte_eq_dec b b') in Hp.
    rewrite (Hp k). reflexivity.
Qed.

(** Exact arithmetic: the entropy depends on the multiset of the bytes
    only. *)
Lemma entropy_permutation_exact (b b' : list Byte.byte) :
  Permutation b b' ->
  compute_entropy exact log2 b = compute_entropy exact log2 b'.
Proof.
  intros Hp.
  destruct (list_eq_dec Byte.byte_eq_dec b []) as [-> | Hne].
  { apply Permutation_nil in Hp. subst. reflexivity. }
  assert (Hne' : b' <> []).
  { intros ->. apply Hne. apply Permutation_nil. apply Permutation_sym. exact Hp. }
  rewrite !compute_entropy_nonempty by assumption.
  assert (Hlen : len b = len b').
  { unfold len. rewrite (Permutation_length Hp). reflexivity. }
  assert (Hn : (0 < len b)%Z).
  { unfold len. destruct b; [contradiction | cbn; lia]. }
  destruct (count_bytes_spec b) as (_ & Hpos & _ & _).
  destruct (count_bytes_spec b') as (_ & Hpos' & _ & _).
  rewrite <- Hlen.
  rewrite !entropy_loop_exact by assumption.
  f_equal. f_equal. apply shannon_sum_permutation.
  unfold dict_values. apply Permutation_map.
  apply count_bytes_permutation. exact Hp.
Qed.

(** ** Entropy in floating point: the lower bound *)

Section Nonnegative.

Variable rnd : R -> R.
Variable flog2 : R -> R.
Hypothesis Hrnd : binary64_rounding rnd.
(** [math.log2] is not positive on (0, 1]. *)
Hypothesis Hlog : forall x, 0 < x <= 1 -> flog2 x <= 0.

Lemma entropy_step_nonneg (n : Z) (ent : R) (c : Z) :
  (1 <= c <= n)%Z -> (n < 2 ^ 53)%Z -> 0 <= ent ->
  exists ent', entropy_step rnd flog2 n ent c = Ok ent' /\ 0 <= ent'.
Proof.
  intros Hc Hn Hent. unfold entropy_step, truediv.
  destruct (Z.eqb_spec n 0); [lia |]. cbn [bind].
  assert (Hn' : 1 <= IZR n) by (apply IZR_le; lia).
  assert (Hc1 : 1 <= IZR c) by (apply IZR_le; lia).
  assert (Hcn : IZR c <= IZR n) by (apply IZR_le; lia).
  set (q := IZR c / IZR n).
  assert (Hqn : q * IZR n = IZR c) by (unfold q; field; lra).
  pose proof (rnd_quotient rnd Hrnd c n ltac:(lia) ltac:(lia)) as He.
  fold q in He.
  assert (Hp0 : 0 < rnd q).
  { assert (q - rnd q <= Rabs (rnd q - q)).
    { rewrite <- Rabs_Ropp. replace (- (rnd q - q)) with (q - rnd q) by ring.
      apply Rle_abs. }
    apply Rmult_lt_reg_r with (IZR n); [lra |]. nra. }
  assert (Hp1 : rnd q <= 1).
  { rewrite <- (rnd_IZR rnd Hrnd 1) by lia. apply (rnd_monotone rnd Hrnd).
    apply Rmult_le_reg_r with (IZR n); [lra |]. rewrite Hqn. lra. }
  unfold math_log2. destruct (Rlt_dec 0 (rnd q)); [| contradiction].
  cbn [bind]. eexists; split; [reflexivity |].
  pose proof (Hlog (rnd q) (conj Hp0 Hp1)) as Hl.
  unfold fsub, fmul.
  assert (Hy : rnd (rnd q * flog2 (rnd q)) <= 0).
  { rewrite <- (rnd_IZR rnd Hrnd 0) by lia.
    apply (rnd_monotone rnd Hrnd). nra. }
  apply (rnd_nonneg rnd Hrnd). lra.
Qed.

Lemma entropy_loop_nonneg (n : Z) (counts : list Z) :
  (n < 2 ^ 53)%Z -> (forall c, In c counts -> (1 <= c <= n)%Z) ->
  forall ent, 0 <= ent ->
  exists ent', entropy_loop rnd flog2 n ent counts = Ok ent' /\ 0 <= ent'.
Proof.
  intros Hn. induction counts as [| c counts IH]; intros Hc ent Hent.
  - exists ent. split; [reflexivity | exact Hent].
  - cbn [entropy_loop].
    destruct (entropy_step_nonneg n ent c (Hc c (or_introl eq_refl)) Hn Hent)
      as (ent1 & -> & H1).
    cbn [bind]. apply IH; [| exact H1].
    intros c' Hc'. apply Hc. right. exact Hc'.
Qed.

(** For any rounding with the properties of binary64 the entropy of a
    block is computed and is not negative. *)
Lemma compute_entropy_nonneg (block : list Byte.byte) :
  (len block < 2 ^ 53)%Z ->
  exists ent, compute_entropy rnd flog2 block = Ok ent /\ 0 <= ent.
Proof.
  intros Hlen.
  destruct (list_eq_dec Byte.byte_eq_dec block []) as [-> | Hne].
  { exists 0. split; [reflexivity | lra]. }
  rewrite compute_entropy_nonempty by exact Hne.
  destruct (count_bytes_spec block) as (_ & Hpos & Htot & _).
  apply entropy_loop_nonneg; [exact Hlen | | lra].
  intros c Hc. split.
  - rewrite Forall_forall in Hpos. apply Hpos. exact Hc.
  - rewrite <- Htot. apply total_upper; assumption.
Qed.

End Nonnegative.

(** ** Examples *)

Example count_bytes_aba :
  count_bytes [Byte.x61; Byte.x62; Byte.x61] = [(Byte.x61, 2%Z); (Byte.x62, 1%Z)].
Proof. reflexivity. Qed.

(** Three blocks with the driver's minimum of 1: one column of three
    squares of 266 pixels. *)
Example layout_exact_3 : layout_exact 3 1 = (266, 1, 3)%Z.
Proof. reflexivity. Qed.

(** Three blocks when the single column is refused: the search keeps the
    first of the largest candidates. *)
Example layout_exact_3_search : layout_exact 3 300 = (266, 1, 3)%Z.
Proof. reflexivity. Qed.

(** 1000 blocks: 22 columns of 46 rows, squares of 17 pixels. *)
Example layout_exact_1000 : layout_exact 1000 1 = (17, 22, 46)%Z.
Proof. vm_compute. reflexivity. Qed.

Example grid_layout_3 :
  grid_layout exact 3 1 =
    Ok {| best_cols := 1; best_rows := 3; max_square_size := 266;
          left_margin := 67; top_margin := 1 |}.
Proof.
  rewrite (grid_layout_refines exact exact_binary64_rounding) by lia.
  reflexivity.
Qed.

(** ** The claims at concrete inputs, in exact arithmetic *)

(** C3 as stated fails without the bound on the minimum cell size: for
    n = 1600 blocks and a minimum of 0 the single column is accepted with
    squares of [int(min(400, 800 / 1600)) = 0] pixels (0.5 is a binary64
    number, so no rounding is involved: [vertical_layout_of_size_0]). *)
Lemma cell_size_zero_counterexample :
  (0 < 1600 <= canvas_width * canvas_height)%Z /\
  ~ (exists g, grid_layout exact 1600 0 = Ok g /\
       (1600 <= best_cols g * best_rows g)%Z /\ (1 <= max_square_size g)%Z).
Proof.
  split; [unfold canvas_width, canvas_height; lia |].
  rewrite (vertical_layout_of_size_0 exact exact_binary64_rounding).
  intros (g & E & _ & H). inversion E; subst g. cbn in H. lia.
Qed.

(** [grid_layout_fits] for three blocks and the driver's minimum of 1. *)
Lemma grid_layout_fits_witness :
  binary64_rounding exact /\
  (0 < 3 <= canvas_width * canvas_height)%Z /\ (1 <= 1)%Z /\
  exists g, grid_layout exact 3 1 = Ok g /\
    (3 <= best_cols g * best_rows g)%Z /\ (1 <= max_square_size g)%Z /\
    ((1 <= Z.min canvas_width (canvas_height / 3))%Z /\ vertical_layout 3 g \/
     (Z.min canvas_width (canvas_height / 3) < 1)%Z /\ searched_layout 3 g).
Proof.
  split; [exact exact_binary64_rounding |].
  split; [unfold canvas_width, canvas_height; lia |].
  split; [lia |].
  apply (grid_layout_fits exact exact_binary64_rounding 3 1);
    [unfold canvas_width, canvas_height; lia | lia].
Defined.

(** [max_entropy_cases] at a block of 17 bytes. *)
Lemma max_entropy_cases_witness :
  (0 < 17 < 256)%Z /\ max_entropy log2 17 = Ok (log2 17).
Proof.
  split; [lia |].
  apply (proj1 (proj2 (max_entropy_cases log2))). lia.
Defined.

(** [entropy_to_color_anchors] in exact arithmetic. *)
Lemma entropy_to_color_anchors_witness :
  binary64_rounding exact /\
  entropy_to_color exact 0.5 = Ok (0, 255, 0)%Z /\
  entropy_to_color exact 7 = entropy_to_color exact (nearest_bound 7).
Proof.
  split; [exact exact_binary64_rounding |].
  pose proof (entropy_to_color_anchors exact exact_binary64_rounding)
    as (_ & _ & H & _ & _ & Hc).
  split; [exact H | exact (Hc 7)].
Defined.

(** [fallback_unreachable] at an input above 1. *)
Lemma fallback_unreachable_witness :
  binary64_rounding exact /\
  exists c, anchor_loop exact (clamp 2) anchors = Ok (Some c) /\
            entropy_to_color exact 2 = Ok c.
Proof.
  split; [exact exact_binary64_rounding |].
  exact (fallback_unreachable exact exact_binary64_rounding 2).
Defined.

(** [entropy_to_color_valid] at an input below 0. *)
Lemma entropy_to_color_valid_witness :
  binary64_rounding exact /\
  exists r g b : Z,
    entropy_to_color exact (-3) = Ok (r, g, b) /\
    (0 <= r <= 255)%Z /\ (0 <= g <= 255)%Z /\ (0 <= b <= 255)%Z.
Proof.
  split; [exact exact_binary64_rounding |].
  exact (entropy_to_color_valid exact exact_binary64_rounding (-3)).
Defined.

(** [single_byte_block_blue] at the block [b"A"]. *)
Lemma single_byte_block_blue_witness :
  binary64_rounding exact /\ log2 1 = 0 /\
  max_entropy log2 (len [Byte.x41]) = Ok 0 /\
  process_block exact log2 [Byte.x41] = Ok (0, (0, 0, 255)%Z).
Proof.
  split; [exact exact_binary64_rounding |].
  split; [exact log2_1 |].
  exact (single_byte_block_blue exact log2 exact_binary64_rounding log2_1 Byte.x41).
Defined.

(** [persistence_failure_reported] for one blue block and a failing save. *)
Lemma persistence_failure_reported_witness :
  binary64_rounding exact /\ pillow failing_runtime = true /\
  [(0, 0, 255)%Z] <> ([] : list color) /\ (1 <= 1)%Z /\
  (len [(0, 0, 255)%Z] <= canvas_width * canvas_height)%Z /\
  create_image exact failing_runtime [(0, 0, 255)%Z] 1 "out.png" empty_world =
    (Ok tt, {| stdout := ["Error saving image: disk full"%string]; files := [] |}).
Proof.
  assert (Hmax : (len [(0, 0, 255)%Z] <= canvas_width * canvas_height)%Z)
    by (unfold len, canvas_width, canvas_height; cbn; lia).
  split; [exact exact_binary64_rounding |].
  split; [reflexivity |].
  split; [discriminate |].
  split; [lia |].
  split; [exact Hmax |].
  destruct (persistence_failure_reported exact exact_binary64_rounding
              failing_runtime [(0, 0, 255)%Z] 1 "out.png" empty_world)
    as (_ & Hsave & Hreach).
  destruct (Hreach ltac:(discriminate) ltac:(lia) Hmax) as (g & img & Eg & Ei).
  exact (Hsave eq_refl g img (Exception "disk full") Eg Ei eq_refl).
Defined.

(** * Further properties of the program *)

(** ** The frequency table *)

(** X1: the table built by the counting loop of [compute_entropy] has one
    entry for each distinct byte of the block, holding the number of
    occurrences of that byte; every count is at least 1, the counts add up
    to the length of the block, and the table has at most 256 entries and
    at most as many as the block has bytes. *)
Theorem freq_table_counts (block : list Byte.byte) :
  NoDup (dict_keys (count_bytes block)) /\
  (forall k, dict_get (count_bytes block) k 0 =
             Z.of_nat (count_occ Byte.byte_eq_dec block k)) /\
  Forall (fun c => 1 <= c)%Z (dict_values (count_bytes block)) /\
  total (dict_values (count_bytes block)) = len block /\
  (len (count_bytes block) <= Z.min 256 (len block))%Z.
Proof.
  destruct (count_bytes_spec block) as (Hnd & Hpos & Htot & Hget).
  split; [exact Hnd |]. split; [exact Hget |]. split; [exact Hpos |].
  split; [exact Htot |].
  pose proof (distinct_bytes _ Hnd) as H256.
  pose proof (total_length _ Hpos) as Hlen.
  unfold dict_keys, dict_values in *. rewrite length_map in *.
  rewrite Htot in Hlen. unfold len at 1. lia.
Qed.

(** X2: the order of the bytes of a block matters to the order of the
    table only: the tables of two blocks that hold the same bytes, each as
    often, are permutations of each other. *)
Theorem freq_table_permutation (block block' : list Byte.byte) :
  Permutation block block' ->
  Permutation (count_bytes block) (count_bytes block').
Proof. apply count_bytes_permutation. Qed.

Lemma log2_nonpos (x : R) : 0 < x <= 1 -> log2 x <= 0.
Proof.
  intros [H0 H1]. replace 0 with (log2 1) by apply log2_1.
  apply log2_le; assumption.
Qed.

(** X3: with any rounding that has the properties of binary64 and any
    [math.log2] that is not positive on (0, 1], the entropy of a block of
    fewer than 2^53 bytes is computed without an exception and is not
    negative. *)
Theorem entropy_never_negative (rnd flog2 : R -> R) (block : list Byte.byte) :
  binary64_rounding rnd ->
  (forall x, 0 < x <= 1 -> flog2 x <= 0) ->
  (len block < 2 ^ 53)%Z ->
  exists ent, compute_entropy rnd flog2 block = Ok ent /\ 0 <= ent.
Proof.
  intros Hrnd Hlog Hlen. apply compute_entropy_nonneg; assumption.
Qed.

(** ** Blocks of one repeated byte *)

Section Uniform.

Variable rnd : R -> R.
Variable flog2 : R -> R.
Hypothesis Hrnd : binary64_rounding rnd.
Hypothesis Hlog : flog2 1 = 0.

Lemma count_loop_uniform (b : Byte.byte) (block : list Byte.byte) :
  Forall (fun x => x = b) block ->
  forall c, fold_left dict_incr block [(b, c)] = [(b, (c + len block)%Z)].
Proof.
  induction block as [| x block IH]; intros H c.
  - cbn. f_equal. f_equal. unfold len. cbn. lia.
  - inversion H as [| ? ? Hx Hrest]; subst. cbn [fold_left].
    rewrite dict_incr_cons.
    destruct (byte_eqb_spec b b) as [_ | Hne]; [| contradiction].
    rewrite IH by exact Hrest. f_equal. f_equal.
    unfold len. cbn [List.length]. lia.
Qed.

Lemma count_bytes_uniform (b : Byte.byte) (block : list Byte.byte) :
  Forall (fun x => x = b) block ->
  count_bytes (b :: block) = [(b, len (b :: block))].
Proof.
  intros H. unfold count_bytes. cbn [fold_left].
  change (dict_incr [] b) with [(b, 1%Z)].
  rewrite count_loop_uniform by exact H. f_equal. f_equal.
  unfold len. cbn [List.length]. lia.
Qed.

Lemma compute_entropy_uniform (b : Byte.byte) (block : list Byte.byte) :
  Forall (fun x => x = b) block ->
  compute_entropy rnd flog2 (b :: block) = Ok 0.
Proof.
  intros H. rewrite compute_entropy_nonempty by discriminate.
  rewrite count_bytes_uniform by exact H.
  set (n := len (b :: block)).
  assert (Hn : (1 <= n)%Z) by (unfold n, len; cbn [List.length]; lia).
  cbn [dict_values map snd entropy_loop].
  unfold entropy_step, truediv.
  destruct (Z.eqb_spec n 0); [lia |]. cbn [bind].
  assert (Hq : IZR n / IZR n = 1).
  { assert (0 < IZR n) by (apply IZR_lt; lia). field. lra. }
  rewrite Hq. rewrite (rnd_IZR rnd Hrnd 1) by lia.
  unfold math_log2. destruct (Rlt_dec 0 1); [| lra]. cbn [bind].
  rewrite Hlog. unfold fsub, fmul. rewrite Rmult_0_r.
  rewrite (rnd_IZR rnd Hrnd 0) by lia.
  replace (0 - 0) with 0 by ring.
  rewrite (rnd_IZR rnd Hrnd 0) by lia. reflexivity.
Qed.

Lemma max_entropy_succeeds (n : Z) :
  (0 <= n)%Z -> exists m, max_entropy flog2 n = Ok m.
Proof.
  intros Hn. unfold max_entropy, math_log2.
  destruct (Z.eqb_spec n 0); [eexists; reflexivity |].
  destruct (n <? 256)%Z; [| eexists; reflexivity].
  destruct (Rlt_dec 0 (IZR n)) as [_ | Hneg]; [eexists; reflexivity |].
  exfalso. apply Hneg. apply IZR_lt. lia.
Qed.

(** X4: a block that repeats one byte value, whatever its length, has
    entropy 0, normalized entropy 0 and the colour blue (0, 0, 255), given
    that [math.log2(1.0)] is 0. *)
Theorem uniform_block_blue (b : Byte.byte) (block : list Byte.byte) :
  Forall (fun x => x = b) block ->
  compute_entropy rnd flog2 (b :: block) = Ok 0 /\
  process_block rnd flog2 (b :: block) = Ok (0, (0, 0, 255)%Z).
Proof.
  intros H. split; [apply compute_entropy_uniform; exact H |].
  unfold process_block. rewrite compute_entropy_uniform by exact H.
  cbn [bind].
  destruct (max_entropy_succeeds (len (b :: block))) as (m & ->).
  { unfold len. lia. }
  cbn [bind].
  assert (Hnorm : (if Rlt_dec 0 m then fdiv rnd 0 m else Ok 0) = Ok 0).
  { destruct (Rlt_dec 0 m) as [Hm | _]; [| reflexivity].
    unfold fdiv. destruct (Req_dec_T m 0); [lra |].
    replace (0 / m) with 0 by (field; lra).
    rewrite (rnd_IZR rnd Hrnd 0) by lia. reflexivity. }
  rewrite Hnorm. cbn [bind].
  rewrite (color_at_0 rnd Hrnd). reflexivity.
Qed.

End Uniform.

(** ** Blocks of distinct bytes *)

Lemma IZR_pow2 (k : Z) : (0 <= k)%Z -> IZR (2 ^ k) = powerRZ 2 k.
Proof.
  intros Hk. rewrite <- (Z2Nat.id k) by exact Hk.
  rewrite <- pow_powerRZ, pow_IZR. reflexivity.
Qed.

Lemma dict_incr_fresh (d : dict) (b : Byte.byte) :
  ~ In b (dict_keys d) -> dict_incr d b = d ++ [(b, 1%Z)].
Proof.
  induction d as [| [k v] d IH]; intros H.
  - reflexivity.
  - rewrite dict_incr_cons. cbn in H.
    destruct (byte_eqb_spec k b) as [-> | Hne]; [exfalso; apply H; left; reflexivity |].
    cbn. f_equal. apply IH. intros Hin. apply H. right. exact Hin.
Qed.

Lemma count_loop_distinct (block : list Byte.byte) :
  NoDup block ->
  forall d, (forall b, In b block -> ~ In b (dict_keys d)) ->
  fold_left dict_incr block d = d ++ map (fun b => (b, 1%Z)) block.
Proof.
  induction block as [| x block IH]; intros Hnd d Hd.
  - cbn. rewrite app_nil_r. reflexivity.
  - inversion Hnd as [| ? ? Hx Hnd']; subst. cbn [fold_left map].
    rewrite dict_incr_fresh by (apply Hd; left; reflexivity).
    rewrite IH; [rewrite <- app_assoc; reflexivity | exact Hnd' |].
    intros b Hb. unfold dict_keys. rewrite map_app, in_app_iff. cbn.
    intros [Hin | [-> | []]].
    + apply (Hd b); [right; exact Hb | exact Hin].
    + contradiction.
Qed.

Lemma count_bytes_distinct (block : list Byte.byte) :
  NoDup block -> dict_values (count_bytes block) = map (fun _ => 1%Z) block.
Proof.
  intros H. unfold count_bytes.
  rewrite count_loop_distinct; [| exact H | intros b _ []].
  cbn. unfold dict_values. rewrite map_map. reflexivity.
Qed.

Section Distinct.

Variable rnd : R -> R.
Variable flog2 : R -> R.
Hypothesis Hrnd : binary64_rounding rnd.
(** [math.log2] is exact at the powers of two from 2^-8 to 2^8. *)
Hypothesis Hpow : forall j : Z, (-8 <= j <= 8)%Z -> flog2 (powerRZ 2 j) = IZR j.

Lemma entropy_step_pow2 (k a : Z) :
  (1 <= k <= 8)%Z -> (0 <= a < 2 ^ k)%Z ->
  entropy_step rnd flog2 (2 ^ k) (IZR (a * k) * powerRZ 2 (- k)) 1 =
    Ok (IZR ((a + 1) * k) * powerRZ 2 (- k)).
Proof.
  intros Hk Ha. unfold entropy_step, truediv.
  assert (Hn : (0 < 2 ^ k)%Z) by (apply Z.pow_pos_nonneg; lia).
  assert (Hn8 : (2 ^ k <= 2 ^ 8)%Z) by (apply Z.pow_le_mono_r; lia).
  destruct (Z.eqb_spec (2 ^ k) 0); [lia |]. cbn [bind].
  assert (Hp : 1 / IZR (2 ^ k) = IZR 1 * powerRZ 2 (- k)).
  { rewrite IZR_pow2 by lia. rewrite powerRZ_neg'.
    unfold Rdiv. reflexivity. }
  rewrite Hp. rewrite (rnd_representable rnd Hrnd 1 (- k)) by lia.
  rewrite Rmult_1_l.
  assert (Hpos : 0 < powerRZ 2 (- k)) by (apply powerRZ_lt; lra).
  unfold math_log2. destruct (Rlt_dec 0 (powerRZ 2 (- k))); [| contradiction].
  cbn [bind]. rewrite Hpow by lia. f_equal.
  unfold fsub, fmul.
  replace (powerRZ 2 (- k) * IZR (- k)) with (IZR (- k) * powerRZ 2 (- k)) by ring.
  rewrite (rnd_representable rnd Hrnd (- k) (- k)) by lia.
  replace (IZR (a * k) * powerRZ 2 (- k) - IZR (- k) * powerRZ 2 (- k))
    with (IZR ((a + 1) * k) * powerRZ 2 (- k)).
  - apply (rnd_representable rnd Hrnd); [| lia].
    change (2 ^ 8)%Z with 256%Z in Hn8. nia.
  - rewrite !mult_IZR, plus_IZR, opp_IZR. ring.
Qed.

Lemma entropy_loop_pow2 (k : Z) (ones : list Z) :
  (1 <= k <= 8)%Z -> Forall (fun c => c = 1%Z) ones ->
  forall a, (0 <= a)%Z -> (a + len ones <= 2 ^ k)%Z ->
  entropy_loop rnd flog2 (2 ^ k) (IZR (a * k) * powerRZ 2 (- k)) ones =
    Ok (IZR ((a + len ones) * k) * powerRZ 2 (- k)).
Proof.
  intros Hk. induction ones as [| c ones IH]; intros Hones a Ha Hlen.
  - cbn. unfold len. cbn. rewrite Z.add_0_r. reflexivity.
  - inversion Hones as [| ? ? Hc Hrest]; subst.
    assert (Hl : len (1%Z :: ones) = (1 + len ones)%Z).
    { unfold len. cbn [List.length]. lia. }
    rewrite Hl in *. assert (0 <= len ones)%Z by (unfold len; lia).
    cbn [entropy_loop]. rewrite entropy_step_pow2 by lia. cbn [bind].
    rewrite IH; [| exact Hrest | lia | lia].
    do 3 f_equal. lia.
Qed.

Lemma compute_entropy_distinct (k : Z) (block : list Byte.byte) :
  (1 <= k <= 8)%Z -> NoDup block -> len block = (2 ^ k)%Z ->
  compute_entropy rnd flog2 block = Ok (IZR k).
Proof.
  intros Hk Hnd Hlen.
  assert (Hn : (0 < 2 ^ k)%Z) by (apply Z.pow_pos_nonneg; lia).
  assert (Hne : block <> []).
  { intros ->. unfold len in Hlen. cbn in Hlen. lia. }
  rewrite compute_entropy_nonempty by exact Hne.
  rewrite count_bytes_distinct by exact Hnd. rewrite Hlen.
  replace 0 with (IZR (0 * k) * powerRZ 2 (- k)) by (cbn; ring).
  rewrite entropy_loop_pow2.
  - f_equal. unfold len. rewrite length_map. fold (len block). rewrite Hlen.
    rewrite Z.add_0_l, mult_IZR, IZR_pow2 by lia.
    rewrite powerRZ_neg'. field. apply powerRZ_NOR. lra.
  - exact Hk.
  - apply Forall_forall. intros c Hc. apply in_map_iff in Hc as (? & <- & _).
    reflexivity.
  - lia.
  - unfold len. rewrite length_map. fold (len block). lia.
Qed.

Lemma max_entropy_pow2 (k : Z) :
  (1 <= k <= 8)%Z -> max_entropy flog2 (2 ^ k) = Ok (IZR k).
Proof.
  intros Hk. unfold max_entropy, math_log2.
  assert (Hn : (0 < 2 ^ k)%Z) by (apply Z.pow_pos_nonneg; lia).
  destruct (Z.eqb_spec (2 ^ k) 0); [lia |].
  destruct (Z.ltb_spec (2 ^ k) 256) as [Hlt | Hge].
  - destruct (Rlt_dec 0 (IZR (2 ^ k))) as [_ | Hneg].
    + rewrite IZR_pow2 by lia. rewrite Hpow by lia. reflexivity.
    + exfalso. apply Hneg. apply IZR_lt. lia.
  - assert (k = 8)%Z.
    { destruct (Z.eq_dec k 8) as [E | E]; [exact E |].
      assert (2 ^ k <= 2 ^ 7)%Z by (apply Z.pow_le_mono_r; lia).
      change (2 ^ 7)%Z with 128%Z in *. lia. }
    subst k. reflexivity.
Qed.

(** X5: a block of 2^k bytes that are all different, for k from 1 to 8,
    has entropy exactly k, which is also the maximum for its length; its
    normalized entropy is 1 and its colour red (255, 0, 0), given that
    [math.log2] is exact on the powers of two from 2^-8 to 2^8. *)
Theorem distinct_block_red (k : Z) (block : list Byte.byte) :
  (1 <= k <= 8)%Z -> NoDup block -> len block = (2 ^ k)%Z ->
  compute_entropy rnd flog2 block = Ok (IZR k) /\
  max_entropy flog2 (len block) = Ok (IZR k) /\
  process_block rnd flog2 block = Ok (1, (255, 0, 0)%Z).
Proof.
  intros Hk Hnd Hlen.
  pose proof (compute_entropy_distinct k block Hk Hnd Hlen) as He.
  pose proof (max_entropy_pow2 k Hk) as Hm. rewrite <- Hlen in Hm.
  split; [exact He |]. split; [exact Hm |].
  unfold process_block. rewrite He, Hm. cbn [bind].
  assert (Hk' : 1 <= IZR k) by (apply IZR_le; lia).
  destruct (Rlt_dec 0 (IZR k)); [| lra].
  unfold fdiv. destruct (Req_dec_T (IZR k) 0); [lra |].
  replace (IZR k / IZR k) with 1 by (field; lra).
  rewrite (rnd_IZR rnd Hrnd 1) by lia. cbn [bind].
  rewrite (color_at_1 rnd Hrnd). reflexivity.
Qed.

End Distinct.

Lemma log2_pow2 (j : Z) : log2 (powerRZ 2 j) = IZR j.
Proof.
  unfold log2. rewrite powerRZ_Rpower by lra. unfold Rpower.
  rewrite ln_exp. pose proof ln_2_pos. field. lra.
Qed.

(** ** The gradient *)

Lemma py_int_monotone (x y : R) : x <= y -> (py_int x <= py_int y)%Z.
Proof.
  intros H. unfold py_int.
  destruct (Rle_dec 0 x) as [Hx | Hx]; destruct (Rle_dec 0 y) as [Hy | Hy];
    try lra.
  - apply Zfloor_le. exact H.
  - pose proof (Zceil_bound x) as Hc.
    assert (Zceil x <= 0)%Z.
    { assert (IZR (Zceil x) < IZR 1) by lra. apply lt_IZR in H0. lia. }
    assert (0 <= Zfloor y)%Z by (apply Zfloor_lub; exact Hy). lia.
  - apply Zceil_le. exact H.
Qed.

Section Gradient.

Variable rnd : R -> R.
Hypothesis Hrnd : binary64_rounding rnd.

Lemma parameter_value (x x0 x1 : R) (k : Z) :
  x0 = IZR k / 4 -> x1 = IZR (k + 1) / 4 -> (0 <= k <= 3)%Z ->
  fdiv rnd (fsub rnd x x0) (fsub rnd x1 x0) = Ok (bracket_parameter rnd x x0).
Proof.
  intros E0 E1 Hk. unfold fsub, fdiv, bracket_parameter.
  assert (Ew : rnd (x1 - x0) = 0.25).
  { rewrite (rnd_quarter rnd Hrnd (x1 - x0) 1); [| | lia];
      subst; rewrite plus_IZR; lra. }
  rewrite Ew. destruct (Req_dec_T 0.25 0) as [E | _]; [lra | reflexivity].
Qed.

Lemma parameter_range (x x0 : R) (k : Z) :
  x0 = IZR k / 4 -> (0 <= k <= 3)%Z -> x0 <= x <= x0 + 0.25 ->
  0 <= bracket_parameter rnd x x0 <= 1.
Proof.
  intros E0 Hk Hx. unfold bracket_parameter.
  assert (Hq0 : rnd 0 = 0) by (apply (rnd_IZR rnd Hrnd 0); lia).
  assert (Hq1 : rnd 1 = 1) by (apply (rnd_IZR rnd Hrnd 1); lia).
  assert (Hq : rnd 0.25 = 0.25)
    by (apply (rnd_quarter rnd Hrnd 0.25 1); [lra | lia]).
  assert (Hd : 0 <= rnd (x - x0) <= 0.25).
  { split.
    - rewrite <- Hq0. apply (rnd_monotone rnd Hrnd). lra.
    - rewrite <- Hq. apply (rnd_monotone rnd Hrnd). lra. }
  split.
  - rewrite <- Hq0. apply (rnd_monotone rnd Hrnd). lra.
  - rewrite <- Hq1. apply (rnd_monotone rnd Hrnd). lra.
Qed.

Lemma parameter_monotone (x y x0 : R) :
  x <= y -> bracket_parameter rnd x x0 <= bracket_parameter rnd y x0.
Proof.
  intros H. unfold bracket_parameter.
  apply (rnd_monotone rnd Hrnd).
  assert (rnd (x - x0) <= rnd (y - x0)) by (apply (rnd_monotone rnd Hrnd); lra).
  lra.
Qed.

Lemma channel_same (t : R) (c : Z) :
  (0 <= c <= 255)%Z -> channel rnd t c c = c.
Proof.
  intros Hc. unfold channel, fadd, fmul.
  rewrite Z.sub_diag, Rmult_0_r. rewrite (rnd_IZR rnd Hrnd 0) by lia.
  rewrite Rplus_0_r. rewrite (rnd_IZR rnd Hrnd c) by lia.
  apply py_int_IZR.
Qed.

Lemma channel_up_monotone (t t' : R) :
  t <= t' -> (channel rnd t 0 255 <= channel rnd t' 0 255)%Z.
Proof.
  intros H. unfold channel, fadd, fmul.
  apply py_int_monotone. apply (rnd_monotone rnd Hrnd).
  assert (rnd (t * IZR (255 - 0)) <= rnd (t' * IZR (255 - 0))).
  { apply (rnd_monotone rnd Hrnd). cbn. lra. }
  lra.
Qed.

Lemma channel_down_monotone (t t' : R) :
  t <= t' -> (channel rnd t' 255 0 <= channel rnd t 255 0)%Z.
Proof.
  intros H. unfold channel, fadd, fmul.
  apply py_int_monotone. apply (rnd_monotone rnd Hrnd).
  assert (rnd (t' * IZR (0 - 255)) <= rnd (t * IZR (0 - 255))).
  { apply (rnd_monotone rnd Hrnd). cbn. lra. }
  lra.
Qed.

Ltac bracket_case :=
  match goal with
  | |- context [Rle_dec ?a ?b] => destruct (Rle_dec a b); try lra
  end.

Lemma interpolate_value (x : R) (k : Z) (x0 x1 : R) (c0 c1 : color) :
  x0 = IZR k / 4 -> x1 = IZR (k + 1) / 4 -> (0 <= k <= 3)%Z ->
  interpolate rnd x (x0, c0) (x1, c1) =
    Ok (channel rnd (bracket_parameter rnd x x0) (fst (fst c0)) (fst (fst c1)),
        channel rnd (bracket_parameter rnd x x0) (snd (fst c0)) (snd (fst c1)),
        channel rnd (bracket_parameter rnd x x0) (snd c0) (snd c1)).
Proof.
  intros E0 E1 Hk. destruct c0 as [[r0 g0] b0], c1 as [[r1 g1] b1].
  unfold interpolate. rewrite (parameter_value x x0 x1 k E0 E1 Hk).
  reflexivity.
Qed.

(** The colour of a clamped value, bracket by bracket. *)
Lemma gradient_first (x : R) :
  0 <= x <= 0.25 ->
  anchor_loop rnd x anchors =
    Ok (Some (0, channel rnd (bracket_parameter rnd x 0) 0 255, 255)%Z).
Proof.
  intros Hx. unfold anchors. cbn [anchor_loop fst]. do 2 bracket_case.
  unfold color in *.
  rewrite (interpolate_value x 0 0 0.25) by (simpl; lra || lia).
  cbn [bind fst snd]. rewrite !channel_same by lia. reflexivity.
Qed.

Lemma gradient_second (x : R) :
  0.25 < x <= 0.5 ->
  anchor_loop rnd x anchors =
    Ok (Some (0, 255, channel rnd (bracket_parameter rnd x 0.25) 255 0)%Z).
Proof.
  intros Hx. unfold anchors. cbn [anchor_loop fst]. do 4 bracket_case.
  unfold color in *.
  rewrite (interpolate_value x 1 0.25 0.5) by (simpl; lra || lia).
  cbn [bind fst snd]. rewrite !channel_same by lia. reflexivity.
Qed.

Lemma gradient_third (x : R) :
  0.5 < x <= 0.75 ->
  anchor_loop rnd x anchors =
    Ok (Some (channel rnd (bracket_parameter rnd x 0.5) 0 255, 255, 0)%Z).
Proof.
  intros Hx. unfold anchors. cbn [anchor_loop fst]. do 6 bracket_case.
  unfold color in *.
  rewrite (interpolate_value x 2 0.5 0.75) by (simpl; lra || lia).
  cbn [bind fst snd]. rewrite !channel_same by lia. reflexivity.
Qed.

Lemma gradient_fourth (x : R) :
  0.75 < x <= 1 ->
  anchor_loop rnd x anchors =
    Ok (Some (255, channel rnd (bracket_parameter rnd x 0.75) 255 0, 0)%Z).
Proof.
  intros Hx. unfold anchors. cbn [anchor_loop fst]. do 8 bracket_case.
  unfold color in *.
  rewrite (interpolate_value x 3 0.75 1) by (simpl; lra || lia).
  cbn [bind fst snd]. rewrite !channel_same by lia. reflexivity.
Qed.

Lemma clamp_monotone (x y : R) : x <= y -> clamp x <= clamp y.
Proof.
  intros H.
  destruct (clamp_cases x) as [[? ->] | [[? ->] | [? ->]]];
    destruct (clamp_cases y) as [[? ->] | [[? ->] | [? ->]]]; lra.
Qed.

(** The four pieces of the gradient, for a value of [0,1]. *)
Lemma gradient_pieces (c : R) :
  0 <= c <= 1 ->
  exists v : Z, (0 <= v <= 255)%Z /\
    ((c <= 0.25 /\
      v = channel rnd (bracket_parameter rnd c 0) 0 255 /\
      anchor_loop rnd c anchors = Ok (Some (0, v, 255)%Z)) \/
     (0.25 < c <= 0.5 /\
      v = channel rnd (bracket_parameter rnd c 0.25) 255 0 /\
      anchor_loop rnd c anchors = Ok (Some (0, 255, v)%Z)) \/
     (0.5 < c <= 0.75 /\
      v = channel rnd (bracket_parameter rnd c 0.5) 0 255 /\
      anchor_loop rnd c anchors = Ok (Some (v, 255, 0)%Z)) \/
     (0.75 < c /\
      v = channel rnd (bracket_parameter rnd c 0.75) 255 0 /\
      anchor_loop rnd c anchors = Ok (Some (255, v, 0)%Z))).
Proof.
  intros Hc.
  destruct (Rle_dec c 0.25) as [H1 | H1];
    [| destruct (Rle_dec c 0.5) as [H2 | H2];
       [| destruct (Rle_dec c 0.75) as [H3 | H3]]].
  - eexists. split; [| left; split; [exact H1 | split; [reflexivity |]]].
    + apply (channel_range rnd Hrnd); try lia.
      apply (parameter_range c 0 0); [lra | lia | lra].
    + apply gradient_first. lra.
  - eexists. split; [| right; left; split; [lra | split; [reflexivity |]]].
    + apply (channel_range rnd Hrnd); try lia.
      apply (parameter_range c 0.25 1); [simpl; lra | lia | lra].
    + apply gradient_second. lra.
  - eexists. split; [| right; right; left; split; [lra | split; [reflexivity |]]].
    + apply (channel_range rnd Hrnd); try lia.
      apply (parameter_range c 0.5 2); [simpl; lra | lia | lra].
    + apply gradient_third. lra.
  - eexists. split; [| right; right; right; split; [lra | split; [reflexivity |]]].
    + apply (channel_range rnd Hrnd); try lia.
      apply (parameter_range c 0.75 3); [simpl; lra | lia | lra].
    + apply gradient_fourth. lra.
Qed.

Lemma entropy_to_color_found (norm : R) (c : color) :
  anchor_loop rnd (clamp norm) anchors = Ok (Some c) ->
  entropy_to_color rnd norm = Ok c.
Proof. intros E. unfold entropy_to_color. rewrite E. reflexivity. Qed.

(** X6: the colour of any input has one of four forms, by the quarter
    the clamped input falls in: up to 0.25 red is 0 and blue 255 (blue to
    cyan); up to 0.5 red is 0 and green 255 (cyan to green); up to 0.75
    green is 255 and blue 0 (green to yellow); above, red is 255 and blue
    0 (yellow to red).  One channel at most is strictly between 0 and
    255. *)
Theorem gradient_shape (norm : R) :
  exists v : Z, (0 <= v <= 255)%Z /\
    ((norm <= 0.25 /\ entropy_to_color rnd norm = Ok (0, v, 255)%Z) \/
     (0.25 < norm <= 0.5 /\ entropy_to_color rnd norm = Ok (0, 255, v)%Z) \/
     (0.5 < norm <= 0.75 /\ entropy_to_color rnd norm = Ok (v, 255, 0)%Z) \/
     (0.75 < norm /\ entropy_to_color rnd norm = Ok (255, v, 0)%Z)).
Proof.
  destruct (gradient_pieces (clamp norm) (clamp_range norm))
    as (v & Hv & H).
  exists v. split; [exact Hv |].
  destruct (clamp_cases norm) as [[Hn E] | [[Hn E] | [Hn E]]];
    rewrite E in H;
    destruct H as [(Hc & _ & L) | [(Hc & _ & L) | [(Hc & _ & L) | (Hc & _ & L)]]];
    try lra; rewrite <- E in L; apply entropy_to_color_found in L.
  - left. split; [lra | exact L].
  - left. split; [lra | exact L].
  - right; left. split; [lra | exact L].
  - right; right; left. split; [lra | exact L].
  - right; right; right. split; [lra | exact L].
  - right; right; right. split; [lra | exact L].
Qed.

(** X7: the gradient is monotone in its end channels: of two inputs
    the larger one gets at least as much red and at most as much blue. *)
Theorem gradient_monotone (x y : R) (r g b r' g' b' : Z) :
  x <= y ->
  entropy_to_color rnd x = Ok (r, g, b) ->
  entropy_to_color rnd y = Ok (r', g', b') ->
  (r <= r')%Z /\ (b' <= b)%Z.
Proof.
  intros Hxy Ex Ey.
  pose proof (clamp_monotone x y Hxy) as Hc.
  pose proof (clamp_range x) as Rx. pose proof (clamp_range y) as Ry.
  destruct (gradient_pieces (clamp x) Rx) as (v & Hv & Hx).
  destruct (gradient_pieces (clamp y) Ry) as (v' & Hv' & Hy).
  assert (Pm : forall x0, bracket_parameter rnd (clamp x) x0 <=
                          bracket_parameter rnd (clamp y) x0)
    by (intros x0; apply parameter_monotone; exact Hc).
  destruct Hx as [(Cx & Vx & Lx) | [(Cx & Vx & Lx) | [(Cx & Vx & Lx) | (Cx & Vx & Lx)]]];
    apply entropy_to_color_found in Lx; rewrite Lx in Ex;
    injection Ex as <- <- <-;
    destruct Hy as [(Cy & Vy & Ly) | [(Cy & Vy & Ly) | [(Cy & Vy & Ly) | (Cy & Vy & Ly)]]];
    apply entropy_to_color_found in Ly; rewrite Ly in Ey;
    injection Ey as <- <- <-;
    try lra; try (split; lia).
  - split; [lia |]. subst v v'. apply channel_down_monotone. apply Pm.
  - split; [| lia]. subst v v'. apply channel_up_monotone. apply Pm.
Qed.

End Gradient.

(** ** The grid inside the canvas *)

Lemma cell_size_within (cols rows : Z) :
  (1 <= cols)%Z -> (1 <= rows)%Z ->
  (0 <= cell_size cols rows /\
   cols * cell_size cols rows <= canvas_width /\
   rows * cell_size cols rows <= canvas_height)%Z.
Proof.
  intros Hc Hr. unfold cell_size, canvas_width, canvas_height.
  pose proof (Z.mul_div_le 400 cols ltac:(lia)).
  pose proof (Z.mul_div_le 800 rows ltac:(lia)).
  pose proof (Z.div_pos 400 cols ltac:(lia) ltac:(lia)).
  pose proof (Z.div_pos 800 rows ltac:(lia) ltac:(lia)).
  set (a := (400 / cols)%Z) in *. set (b := (800 / rows)%Z) in *.
  destruct (Z.min_spec a b) as [[? ->] | [? ->]]; nia.
Qed.

Lemma layout_exact_within (n pixel_size : Z) :
  (1 <= n)%Z ->
  let '(m, c, r) := layout_exact n pixel_size in
  (1 <= c /\ 1 <= r /\ 0 <= m /\
   c * m <= canvas_width /\ r * m <= canvas_height /\
   (1 <= m -> n <= c * r))%Z.
Proof.
  intros Hn. unfold layout_exact.
  destruct (Z.min canvas_width (canvas_height / n) >=? pixel_size)%Z.
  - unfold canvas_width, canvas_height.
    pose proof (Z.mul_div_le 800 n ltac:(lia)).
    pose proof (Z.div_pos 800 n ltac:(lia) ltac:(lia)).
    set (b := (800 / n)%Z) in *.
    destruct (Z.min_spec 400 b) as [[? ->] | [? ->]]; repeat split; nia.
  - pose proof (search_exact_spec n (py_range 1 (n + 1)) (0, 1, 1)%Z) as Hs.
    cbn beta iota in Hs.
    destruct (search_exact n (0, 1, 1)%Z (py_range 1 (n + 1))) as [[m c] r].
    destruct Hs as (_ & [E | (Hc & Hr & Hm & Hlt)] & _).
    + inversion E; subst. unfold canvas_width, canvas_height.
      repeat split; lia.
    + apply in_py_range in Hc.
      pose proof (ceil_div_bounds n c ltac:(lia)) as Hb. rewrite <- Hr in Hb.
      pose proof (cell_size_within c r ltac:(lia) ltac:(lia)) as Hw.
      rewrite <- Hm in Hw. repeat split; lia.
Qed.

Lemma search_exact_too_many (n : Z) (l : list Z) :
  (canvas_width * canvas_height < n)%Z ->
  (forall c, In c l -> (1 <= c <= n)%Z) ->
  search_exact n (0, 1, 1)%Z l = (0, 1, 1)%Z.
Proof.
  intros Hn. induction l as [| x l IH]; intros Hl.
  - reflexivity.
  - cbn [search_exact fold_left]. unfold search_step_exact at 2.
    assert (Hx : (1 <= x <= n)%Z) by (apply Hl; left; reflexivity).
    pose proof (ceil_div_bounds n x Hx) as Hb.
    assert (Hz : (cell_size x (ceil_div n x) <= 0)%Z).
    { destruct (Z_le_gt_dec (cell_size x (ceil_div n x)) 0) as [H | H];
        [exact H | exfalso].
      pose proof (cell_size_within x (ceil_div n x) ltac:(lia) ltac:(lia)).
      unfold canvas_width, canvas_height in *. nia. }
    destruct (Z.gtb_spec (cell_size x (ceil_div n x)) 0); [lia |].
    apply IH. intros c Hc. apply Hl. right. exact Hc.
Qed.

(** The search keeps the first of the column counts of largest cell size. *)
Lemma search_exact_first (n : Z) (l : list Z) :
  forall st : best,
    let '(m0, c0, r0) := st in
    let '(m, c, r) := search_exact n st l in
    (m, c, r) = st \/
    exists l1 l2, l = l1 ++ c :: l2 /\ (m0 < m)%Z /\
      m = cell_size c (ceil_div n c) /\
      forall c', In c' l1 -> (cell_size c' (ceil_div n c') < m)%Z.
Proof.
  induction l as [| x l IH]; intros [[m0 c0] r0].
  - cbn. left. reflexivity.
  - cbn [search_exact fold_left].
    change (fold_left (search_step_exact n) l ?s) with (search_exact n s l).
    unfold search_step_exact.
    destruct (Z.gtb_spec (cell_size x (ceil_div n x)) m0) as [Hgt | Hle].
    + specialize (IH (cell_size x (ceil_div n x), x, ceil_div n x)).
      cbn beta iota in IH. destruct (search_exact n _ l) as [[m c] r].
      right. destruct IH as [E | (l1 & l2 & -> & Hlt & Hm & Hl1)].
      * inversion E; subst. exists [], l. repeat split; try lia.
        intros c' [].
      * exists (x :: l1), l2. repeat split; try lia.
        intros c' [<- | Hin]; [lia | apply Hl1; exact Hin].
    + specialize (IH (m0, c0, r0)).
      cbn beta iota in IH. destruct (search_exact n _ l) as [[m c] r].
      destruct IH as [E | (l1 & l2 & -> & Hlt & Hm & Hl1)].
      * left. exact E.
      * right. exists (x :: l1), l2. repeat split; try lia.
        intros c' [<- | Hin]; [lia | apply Hl1; exact Hin].
Qed.

Lemma seq_split (s1 s2 : list nat) (k : nat) :
  forall a m, seq a m = s1 ++ k :: s2 ->
  s1 = seq a (List.length s1) /\ k = (a + List.length s1)%nat.
Proof.
  induction s1 as [| x s1 IH]; intros a m E.
  - destruct m as [| m]; [discriminate |]. cbn in E. injection E as Ek _.
    split; [reflexivity | cbn; lia].
  - destruct m as [| m]; [discriminate |]. cbn in E. injection E as Ex E.
    destruct (IH _ _ E) as (H1 & H2). subst x.
    split; [cbn; f_equal; exact H1 | cbn; lia].
Qed.

Lemma py_range_split (a b c : Z) (l1 l2 : list Z) :
  py_range a b = l1 ++ c :: l2 ->
  forall c', (a <= c' < c)%Z -> In c' l1.
Proof.
  unfold py_range. intros E c' Hc'.
  apply map_eq_app in E as (s1 & s2 & Es & E1 & E2).
  destruct s2 as [| k s2]; [discriminate |]. cbn in E2.
  injection E2 as Ec _.
  destruct (seq_split _ _ _ _ _ Es) as (Hs1 & Hk).
  subst l1. apply in_map_iff. exists (Z.to_nat (c' - a)).
  split; [lia |]. rewrite Hs1. apply in_seq. lia.
Qed.

Section Canvas.

Variable rnd : R -> R.
Hypothesis Hrnd : binary64_rounding rnd.

Lemma grid_layout_on_canvas (n pixel_size : Z) :
  (1 <= n < 2 ^ 53)%Z ->
  exists g, grid_layout rnd n pixel_size = Ok g /\ on_canvas n g.
Proof.
  intros Hn. rewrite (grid_layout_refines rnd Hrnd) by exact Hn.
  pose proof (layout_exact_within n pixel_size ltac:(lia)) as H.
  destruct (layout_exact n pixel_size) as [[m c] r].
  eexists. split; [reflexivity |]. unfold on_canvas. cbn.
  repeat split; try lia.
Qed.

(** X8: for 1 to 2^53 - 1 blocks and any minimum size the layout is
    computed without an exception; it has at least one column and one
    row, squares of a size that is not negative and margins that are not
    negative; the grid with its margins fits the 400 x 800 canvas and is
    centred up to one pixel. *)
Theorem grid_within_canvas (n pixel_size : Z) :
  (1 <= n < 2 ^ 53)%Z ->
  exists g, grid_layout rnd n pixel_size = Ok g /\
    (1 <= best_cols g /\ 1 <= best_rows g /\ 0 <= max_square_size g /\
     0 <= left_margin g /\ 0 <= top_margin g /\
     left_margin g + best_cols g * max_square_size g <= canvas_width /\
     top_margin g + best_rows g * max_square_size g <= canvas_height /\
     0 <= canvas_width - best_cols g * max_square_size g - 2 * left_margin g <= 1 /\
     0 <= canvas_height - best_rows g * max_square_size g - 2 * top_margin g <= 1)%Z.
Proof.
  intros Hn.
  destruct (grid_layout_on_canvas n pixel_size Hn)
    as (g & E & Hc & Hr & Hs & Hw & Hh & _ & Hl & Ht).
  exists g. split; [exact E |].
  rewrite Hl, Ht.
  set (a := (canvas_width - best_cols g * max_square_size g)%Z) in *.
  set (b := (canvas_height - best_rows g * max_square_size g)%Z) in *.
  pose proof (Z.div_mod a 2 ltac:(lia)). pose proof (Z.mod_pos_bound a 2 ltac:(lia)).
  pose proof (Z.div_mod b 2 ltac:(lia)). pose proof (Z.mod_pos_bound b 2 ltac:(lia)).
  repeat split; lia.
Qed.

Lemma grid_layout_too_many_layout (n pixel_size : Z) :
  (canvas_width * canvas_height < n < 2 ^ 53)%Z -> (1 <= pixel_size)%Z ->
  grid_layout rnd n pixel_size =
    Ok {| best_cols := 1; best_rows := 1; max_square_size := 0;
          left_margin := 200; top_margin := 400 |}.
Proof.
  intros Hn Hp. unfold canvas_width, canvas_height in Hn.
  rewrite (grid_layout_refines rnd Hrnd) by lia.
  unfold layout_exact.
  assert (Hv : (canvas_height / n = 0)%Z)
    by (apply Z.div_small; unfold canvas_height; lia).
  rewrite Hv. change (Z.min canvas_width 0) with 0%Z.
  destruct (Z.geb_spec 0 pixel_size); [lia |].
  rewrite search_exact_too_many.
  - reflexivity.
  - unfold canvas_width, canvas_height. lia.
  - intros c Hc. apply in_py_range in Hc. lia.
Qed.

(** X9: with more blocks than the canvas has pixels (and a minimum size
    of at least 1, as [main] passes) no candidate of the search has
    squares of a pixel or more: the layout keeps the initial one column
    and one row with squares of size 0 and the margins 200 and 400. *)
Theorem grid_layout_too_many (n pixel_size : Z) :
  (canvas_width * canvas_height < n < 2 ^ 53)%Z -> (1 <= pixel_size)%Z ->
  grid_layout rnd n pixel_size =
    Ok {| best_cols := 1; best_rows := 1; max_square_size := 0;
          left_margin := 200; top_margin := 400 |}.
Proof. apply grid_layout_too_many_layout. Qed.

(** X10: when the layout is searched, a candidate replaces the best one
    only if its squares are strictly larger, so among the column counts
    with the largest squares the smallest is kept: every column count
    below the chosen one gives strictly smaller squares. *)
Theorem search_prefers_fewer_columns (n pixel_size : Z) (g : geometry) :
  (1 <= n < 2 ^ 53)%Z ->
  (Z.min canvas_width (canvas_height / n) < pixel_size)%Z ->
  grid_layout rnd n pixel_size = Ok g ->
  forall cols, (1 <= cols < best_cols g)%Z ->
    (cell_size cols (ceil_div n cols) < max_square_size g)%Z.
Proof.
  intros Hn Hv E cols Hcols.
  rewrite (grid_layout_refines rnd Hrnd) in E by exact Hn.
  unfold layout_exact in E.
  destruct (Z.geb_spec (Z.min canvas_width (canvas_height / n)) pixel_size);
    [lia |].
  pose proof (search_exact_first n (py_range 1 (n + 1)) (0, 1, 1)%Z) as Hs.
  cbn beta iota in Hs.
  destruct (search_exact n (0, 1, 1)%Z (py_range 1 (n + 1))) as [[m c] r].
  injection E as <-. cbn in *.
  destruct Hs as [E | (l1 & l2 & El & _ & _ & Hl1)].
  - inversion E; subst. lia.
  - apply Hl1. apply (py_range_split _ _ _ _ _ El). lia.
Qed.

End Canvas.

(** ** The squares of the picture *)

(** The box of a square is inverted exactly when the square has no
    pixel. *)
Lemma square_of_inverted (g : geometry) (i : Z) (col : color) :
  inverted (square_of g i col) = (max_square_size g <? 1)%Z.
Proof.
  unfold inverted, square_of. cbn.
  destruct (Z.ltb_spec (max_square_size g) 1);
    apply orb_true_iff || apply orb_false_iff.
  - left. apply Z.ltb_lt. lia.
  - split; apply Z.ltb_ge; lia.
Qed.

Lemma draw_loop_squares (rt : runtime) (g : geometry) (colors : list color) :
  best_cols g <> 0%Z ->
  checks_boxes rt = false \/ (1 <= max_square_size g)%Z ->
  forall i img,
    draw_loop rt g i colors img =
      Ok {| img_width := img_width img; img_height := img_height img;
            img_background := img_background img;
            img_rectangles := img_rectangles img ++ squares g i colors |}.
Proof.
  intros Hc Hs. induction colors as [| col rest IH]; intros i img.
  - cbn. rewrite app_nil_r. destruct img; reflexivity.
  - cbn [draw_loop squares]. unfold floordiv, pymod.
    destruct (Z.eqb_spec (best_cols g) 0); [contradiction |]. cbn [bind].
    change {| rect_x0 := left_margin g + i mod best_cols g * max_square_size g;
              rect_y0 := top_margin g + i / best_cols g * max_square_size g;
              rect_x1 := left_margin g + i mod best_cols g * max_square_size g +
                         max_square_size g - 1;
              rect_y1 := top_margin g + i / best_cols g * max_square_size g +
                         max_square_size g - 1;
              rect_fill := col |}%Z with (square_of g i col).
    rewrite draw_rectangle_accepts.
    + cbn [bind]. rewrite IH. cbn. rewrite <- app_assoc. reflexivity.
    + destruct Hs as [Hs | Hs]; [left; exact Hs | right].
      rewrite square_of_inverted. apply Z.ltb_ge. exact Hs.
Qed.

(** A library that checks its boxes refuses the first square without a
    pixel. *)
Lemma draw_loop_rejects (rt : runtime) (g : geometry) (colors : list color)
    (i : Z) (img : image) :
  best_cols g <> 0%Z -> checks_boxes rt = true ->
  (max_square_size g < 1)%Z -> colors <> [] ->
  draw_loop rt g i colors img = Raise ValueError.
Proof.
  intros Hc Hb Hs Hne. destruct colors as [| col rest]; [contradiction |].
  cbn [draw_loop]. unfold floordiv, pymod.
  destruct (Z.eqb_spec (best_cols g) 0); [contradiction |]. cbn [bind].
  change {| rect_x0 := left_margin g + i mod best_cols g * max_square_size g;
            rect_y0 := top_margin g + i / best_cols g * max_square_size g;
            rect_x1 := left_margin g + i mod best_cols g * max_square_size g +
                       max_square_size g - 1;
            rect_y1 := top_margin g + i / best_cols g * max_square_size g +
                       max_square_size g - 1;
            rect_fill := col |}%Z with (square_of g i col).
  unfold draw_rectangle. rewrite Hb, square_of_inverted.
  destruct (Z.ltb_spec (max_square_size g) 1); [reflexivity | lia].
Qed.

(** Whenever the loop returns, it has drawn the squares. *)
Lemma draw_loop_drawn (rt : runtime) (g : geometry) (colors : list color)
    (i : Z) (img img' : image) :
  best_cols g <> 0%Z ->
  draw_loop rt g i colors img = Ok img' ->
  img' = {| img_width := img_width img; img_height := img_height img;
            img_background := img_background img;
            img_rectangles := img_rectangles img ++ squares g i colors |}.
Proof.
  intros Hc E.
  destruct colors as [| col rest] eqn:Ec.
  { cbn in E. injection E as <-. cbn. rewrite app_nil_r.
    destruct img; reflexivity. }
  rewrite <- Ec in *.
  destruct (checks_boxes rt) eqn:Hb.
  - destruct (Z.ltb_spec (max_square_size g) 1) as [Hs | Hs].
    + rewrite draw_loop_rejects in E; try assumption; [discriminate |].
      rewrite Ec. discriminate.
    + rewrite draw_loop_squares in E by (try assumption; right; exact Hs).
      injection E as <-. reflexivity.
  - rewrite draw_loop_squares in E by (try assumption; left; exact Hb).
    injection E as <-. reflexivity.
Qed.

Lemma squares_length (g : geometry) (colors : list color) (i : Z) :
  List.length (squares g i colors) = List.length colors.
Proof.
  revert i. induction colors as [| col rest IH]; intros i; cbn;
    [reflexivity | now rewrite IH].
Qed.

Lemma squares_fill (g : geometry) (colors : list color) (i : Z) :
  map rect_fill (squares g i colors) = colors.
Proof.
  revert i. induction colors as [| col rest IH]; intros i; cbn;
    [reflexivity | now rewrite IH].
Qed.

Lemma squares_nth (g : geometry) (colors : list color) (d : rectangle) :
  forall i k, (k < List.length colors)%nat ->
    exists col, nth k (squares g i colors) d = square_of g (i + Z.of_nat k) col.
Proof.
  induction colors as [| col rest IH]; intros i k Hk; cbn in Hk; [lia |].
  destruct k as [| k].
  - exists col. cbn [squares nth]. f_equal. cbn. lia.
  - destruct (IH (i + 1)%Z k ltac:(lia)) as (c & E).
    exists c. cbn [squares nth]. rewrite E. f_equal. lia.
Qed.

Lemma square_inside (n : Z) (g : geometry) (i : Z) (col : color) :
  on_canvas n g -> (0 <= i < n)%Z -> inside_canvas (square_of g i col).
Proof.
  intros (Hc & Hr & Hs & Hw & Hh & Hn & Hl & Ht) Hi.
  unfold inside_canvas, square_of. cbn.
  set (c := best_cols g) in *. set (r := best_rows g) in *.
  set (s := max_square_size g) in *.
  pose proof (Z.mod_pos_bound i c ltac:(lia)) as Hm.
  assert (Hq : (0 <= i / c)%Z) by (apply Z.div_pos; lia).
  assert (Hl0 : (0 <= left_margin g /\ 2 * left_margin g <= canvas_width - c * s)%Z).
  { rewrite Hl.
    pose proof (Z.div_mod (canvas_width - c * s) 2 ltac:(lia)).
    pose proof (Z.mod_pos_bound (canvas_width - c * s) 2 ltac:(lia)). lia. }
  assert (Ht0 : (0 <= top_margin g /\ 2 * top_margin g <= canvas_height - r * s)%Z).
  { rewrite Ht.
    pose proof (Z.div_mod (canvas_height - r * s) 2 ltac:(lia)).
    pose proof (Z.mod_pos_bound (canvas_height - r * s) 2 ltac:(lia)). lia. }
  assert (Hx : ((i mod c + 1) * s <= c * s)%Z) by nia.
  assert (Hy : ((i / c) * s + s - 1 < r * s + canvas_height - r * s - top_margin g)%Z).
  { destruct (Z.eq_dec s 0) as [-> | Hs0].
    - lia.
    - assert (i / c < r)%Z by (apply Z.div_lt_upper_bound; nia). nia. }
  repeat split; nia.
Qed.

Lemma squares_apart (g : geometry) (i j : Z) (ci cj : color) :
  (1 <= best_cols g)%Z -> (0 <= max_square_size g)%Z ->
  (0 <= i < j)%Z -> apart (square_of g i ci) (square_of g j cj).
Proof.
  intros Hc Hs Hij. unfold apart, square_of. cbn.
  set (c := best_cols g) in *. set (s := max_square_size g) in *.
  pose proof (Z.div_mod i c ltac:(lia)) as Ei.
  pose proof (Z.div_mod j c ltac:(lia)) as Ej.
  pose proof (Z.mod_pos_bound i c ltac:(lia)).
  pose proof (Z.mod_pos_bound j c ltac:(lia)).
  assert (Hq : (i / c <= j / c)%Z) by (apply Z.div_le_mono; lia).
  destruct (Z.eq_dec (i / c) (j / c)) as [E | N].
  - assert (i mod c < j mod c)%Z by nia.
    left. nia.
  - right. right. left. nia.
Qed.

Lemma squares_disjoint (g : geometry) (i j : Z) (ci cj : color) (x y : Z) :
  (1 <= best_cols g)%Z -> (1 <= max_square_size g)%Z -> (0 <= i < j)%Z ->
  ~ (covers (square_of g i ci) x y /\ covers (square_of g j cj) x y).
Proof.
  intros Hc Hs Hij.
  pose proof (squares_apart g i j ci cj Hc ltac:(lia) Hij) as H.
  unfold apart, covers, square_of in *. cbn in *. lia.
Qed.

Section Drawing.

Variable rnd : R -> R.
Hypothesis Hrnd : binary64_rounding rnd.


(** X12: when the squares have at least one pixel, no two rectangles of
    the picture overlap: no pixel is covered by the rectangles of two
    different blocks, so no block is painted over by a later one. *)
Theorem squares_do_not_overlap (rt : runtime) (colors : list color)
    (pixel_size : Z) (g : geometry) (img : image) (d : rectangle)
    (i j : nat) (x y : Z) :
  (len colors < 2 ^ 53)%Z ->
  grid_layout rnd (len colors) pixel_size = Ok g ->
  (1 <= max_square_size g)%Z ->
  draw_loop rt g 0 colors (Image_new canvas_width canvas_height "white") = Ok img ->
  (i < j < List.length (img_rectangles img))%nat ->
  ~ (covers (nth i (img_rectangles img) d) x y /\
     covers (nth j (img_rectangles img) d) x y).
Proof.
  intros Hn Eg Hsize Ei Hij.
  destruct colors as [| col0 rest] eqn:Ec.
  { cbn in Ei. injection Ei as <-. cbn in Hij. lia. }
  rewrite <- Ec in *. assert (Hlen : (1 <= len colors)%Z) by (subst; unfold len; cbn; lia).
  clear Ec.
  destruct (grid_layout_on_canvas rnd Hrnd (len colors) pixel_size ltac:(lia))
    as (g' & Eg' & Hg).
  rewrite Eg in Eg'. injection Eg' as <-.
  apply draw_loop_drawn in Ei; [| destruct Hg; lia].
  subst img. cbn in *.
  rewrite squares_length in Hij.
  destruct (squares_nth g colors d 0%Z i ltac:(lia)) as (c1 & E1).
  destruct (squares_nth g colors d 0%Z j ltac:(lia)) as (c2 & E2).
  rewrite E1, E2. destruct Hg as (Hc & _).
  apply squares_disjoint; lia.
Qed.

(** The layout of a list that is not empty, and whether its squares have
    a pixel. *)
Lemma grid_layout_of_colors (colors : list color) (pixel_size : Z) :
  colors <> [] -> (len colors < 2 ^ 53)%Z ->
  exists g,
    grid_layout rnd (len colors) pixel_size = Ok g /\
    on_canvas (len colors) g /\
    ((1 <= pixel_size)%Z -> (len colors <= canvas_width * canvas_height)%Z ->
     (1 <= max_square_size g)%Z) /\
    ((1 <= pixel_size)%Z -> (canvas_width * canvas_height < len colors)%Z ->
     max_square_size g = 0%Z).
Proof.
  intros Hc Hn.
  assert (Hlen : (1 <= len colors)%Z).
  { unfold len. destruct colors; [contradiction | cbn; lia]. }
  destruct (grid_layout_on_canvas rnd Hrnd (len colors) pixel_size ltac:(lia))
    as (g & Eg & Hg).
  exists g. split; [exact Eg |]. split; [exact Hg |]. split.
  - intros Hp Hmax.
    destruct (grid_layout_visible rnd Hrnd (len colors) pixel_size
                ltac:(lia) Hp) as (g' & Eg' & _ & Hs).
    rewrite Eg in Eg'. injection Eg' as <-. exact Hs.
  - intros Hp Hmax.
    rewrite (grid_layout_too_many_layout rnd Hrnd (len colors) pixel_size
               ltac:(lia) Hp) in Eg.
    injection Eg as <-. reflexivity.
Qed.

Lemma create_image_draws (rt : runtime) (colors : list color)
    (pixel_size : Z) (output_file : string) (w : world) :
  pillow rt = true -> colors <> [] -> (len colors < 2 ^ 53)%Z ->
  checks_boxes rt = false \/
    ((1 <= pixel_size)%Z /\ (len colors <= canvas_width * canvas_height)%Z) ->
  (forall img, save_raises rt img output_file = None) ->
  exists g,
    on_canvas (len colors) g /\
    create_image rnd rt colors pixel_size output_file w =
      (Ok tt,
       {| stdout := stdout w ++ [("Image saved to " ++ output_file)%string];
          files :=
            (output_file,
             {| img_width := canvas_width; img_height := canvas_height;
                img_background := "white";
                img_rectangles := squares g 0 colors |}) :: files w |}).
Proof.
  intros Hp Hc Hn Hbox Hs.
  destruct (grid_layout_of_colors colors pixel_size Hc Hn)
    as (g & Eg & Hg & Hvis & _).
  exists g. split; [exact Hg |].
  unfold create_image. rewrite Hp, Eg. cbn [negb].
  rewrite draw_loop_squares.
  - rewrite Hs. reflexivity.
  - destruct Hg; lia.
  - destruct Hbox as [Hb | [H1 H2]]; [left; exact Hb | right; auto].
Qed.

(** With more colours than pixels a library that checks its boxes stops
    [create_image] at the first square. *)
Lemma create_image_rejects (rt : runtime) (colors : list color)
    (pixel_size : Z) (output_file : string) (w : world) :
  pillow rt = true -> checks_boxes rt = true -> (1 <= pixel_size)%Z ->
  (canvas_width * canvas_height < len colors < 2 ^ 53)%Z ->
  create_image rnd rt colors pixel_size output_file w = (Raise ValueError, w).
Proof.
  intros Hp Hb Hps Hn.
  assert (Hc : colors <> []).
  { intros ->. unfold len, canvas_width, canvas_height in Hn. cbn in Hn. lia. }
  destruct (grid_layout_of_colors colors pixel_size Hc ltac:(lia))
    as (g & Eg & Hg & _ & Hzero).
  unfold create_image. rewrite Hp, Eg. cbn [negb].
  rewrite draw_loop_rejects; try assumption; [reflexivity | |].
  - destruct Hg; lia.
  - rewrite Hzero by lia. lia.
Qed.

(** X13: with Pillow installed, at least one colour and no more colours
    than the canvas has pixels, a minimum size of at least 1 and a save
    that succeeds, [create_image] returns normally, writes one file under
    the given name and prints [Image saved to <name>] after the lines
    printed before; the image is 400 x 800 on a white background and
    holds one rectangle per colour, in order. *)
Theorem create_image_saves (rt : runtime) (colors : list color)
    (pixel_size : Z) (output_file : string) (w : world) :
  pillow rt = true -> colors <> [] -> (1 <= pixel_size)%Z ->
  (len colors <= canvas_width * canvas_height)%Z ->
  (forall img, save_raises rt img output_file = None) ->
  exists img,
    create_image rnd rt colors pixel_size output_file w =
      (Ok tt, {| stdout := stdout w ++ [("Image saved to " ++ output_file)%string];
                 files := (output_file, img) :: files w |}) /\
    img_width img = 400%Z /\ img_height img = 800%Z /\
    img_background img = "white"%string /\
    map rect_fill (img_rectangles img) = colors.
Proof.
  intros Hp Hc Hps Hn Hs.
  destruct (create_image_draws rt colors pixel_size output_file w Hp Hc
              ltac:(unfold canvas_width, canvas_height in Hn; lia)
              (or_intror (conj Hps Hn)) Hs)
    as (g & _ & E).
  eexists. split; [exact E |]. cbn.
  repeat split. apply squares_fill.
Qed.

End Drawing.

(** ** The blocks of a file *)

Lemma py_range_step_up (n bs : Z) :
  (1 <= bs)%Z ->
  py_range_step 0 n bs =
    Ok (map (fun k => (0 + Z.of_nat k * bs)%Z)
          (seq 0 (Z.to_nat (ceil_div n bs)))).
Proof.
  intros Hb. unfold py_range_step, ceil_div.
  destruct (Z.eqb_spec bs 0); [lia |].
  destruct (Z.ltb_spec 0 bs); [| lia].
  rewrite Z.sub_0_r. reflexivity.
Qed.

Lemma py_range_step_down (n bs : Z) :
  (0 <= n)%Z -> (bs < 0)%Z -> py_range_step 0 n bs = Ok [].
Proof.
  intros Hn Hb. unfold py_range_step.
  destruct (Z.eqb_spec bs 0); [lia |].
  destruct (Z.ltb_spec 0 bs); [lia |].
  assert (E : ((0 - n - bs - 1) / - bs <= 0)%Z).
  { assert ((0 - n - bs - 1) / - bs < 1)%Z; [| lia].
    apply Z.div_lt_upper_bound; lia. }
  replace (Z.to_nat ((0 - n - bs - 1) / - bs)) with 0%nat by lia.
  reflexivity.
Qed.

Lemma py_slice_chunk {A : Type} (data : list A) (bs : Z) (k : nat) :
  (1 <= bs)%Z ->
  py_slice data (0 + Z.of_nat k * bs) (0 + Z.of_nat k * bs + bs) = chunk data bs k.
Proof.
  intros Hb. unfold py_slice, chunk, slice_index, len.
  set (n := List.length data).
  assert (Hk : (0 <= Z.of_nat k * bs)%Z) by nia.
  destruct (Z.ltb_spec (0 + Z.of_nat k * bs) 0); [lia |].
  destruct (Z.ltb_spec (0 + Z.of_nat k * bs + bs) 0); [lia |].
  assert (Ek : (k * Z.to_nat bs)%nat = Z.to_nat (Z.of_nat k * bs)).
  { rewrite Z2Nat.inj_mul by lia. rewrite Nat2Z.id. reflexivity. }
  destruct (Z_le_gt_dec (Z.of_nat k * bs) (Z.of_nat n)) as [Hle | Hgt].
  - rewrite (Z.min_l (0 + Z.of_nat k * bs)) by lia.
    rewrite Ek. rewrite Z.add_0_l.
    destruct (Z_le_gt_dec (Z.of_nat k * bs + bs) (Z.of_nat n)) as [Hle' | Hgt'].
    + rewrite Z.min_l by lia. f_equal. lia.
    + rewrite Z.min_r by lia.
      rewrite !firstn_all2; [reflexivity | |]; rewrite length_skipn; fold n; lia.
  - rewrite !Z.min_r by lia. rewrite Z.sub_diag. cbn [Z.to_nat firstn].
    rewrite (skipn_all2 data) by (fold n; lia).
    rewrite firstn_nil. reflexivity.
Qed.

Lemma firstn_add {A : Type} (a b : nat) (l : list A) :
  (firstn a l ++ firstn b (skipn a l))%list = firstn (a + b) l.
Proof.
  revert l. induction a as [| a IH]; intros l; [reflexivity |].
  destruct l as [| x l]; cbn.
  - rewrite firstn_nil. reflexivity.
  - f_equal. apply IH.
Qed.

Lemma concat_chunks {A : Type} (data : list A) (bs : Z) (m : nat) :
  List.concat (map (chunk data bs) (seq 0 m)) = firstn (m * Z.to_nat bs) data.
Proof.
  induction m as [| m IH]; [reflexivity |].
  rewrite seq_S, map_app, concat_app, IH. cbn [map List.concat plus].
  rewrite app_nil_r. unfold chunk. rewrite firstn_add. f_equal. lia.
Qed.

Lemma nth_error_map_seq {A : Type} (f : nat -> A) (m : nat) :
  forall s k x, nth_error (map f (seq s m)) k = Some x ->
    (k < m)%nat /\ x = f (s + k)%nat.
Proof.
  induction m as [| m IH]; intros s k x E.
  - destruct k; discriminate.
  - destruct k as [| k]; cbn in E.
    + injection E as <-. split; [lia | f_equal; lia].
    + destruct (IH _ _ _ E) as (H1 & H2). split; [lia |].
      rewrite H2. f_equal. lia.
Qed.

Lemma split_blocks_chunks (data : list Byte.byte) (bs : Z) :
  (1 <= bs)%Z ->
  split_blocks data bs =
    Ok (map (chunk data bs) (seq 0 (Z.to_nat (ceil_div (len data) bs)))).
Proof.
  intros Hb. unfold split_blocks. rewrite py_range_step_up by exact Hb.
  cbn [bind]. rewrite map_map. f_equal. apply map_ext.
  intros k. apply py_slice_chunk. exact Hb.
Qed.

Lemma ceil_div_count (n bs : Z) :
  (0 <= n)%Z -> (1 <= bs)%Z ->
  (0 <= ceil_div n bs /\ n <= ceil_div n bs * bs < n + bs)%Z.
Proof.
  intros Hn Hb. unfold ceil_div.
  pose proof (Z.div_mod (n + bs - 1) bs ltac:(lia)).
  pose proof (Z.mod_pos_bound (n + bs - 1) bs ltac:(lia)).
  assert (0 <= (n + bs - 1) / bs)%Z by (apply Z.div_pos; lia).
  nia.
Qed.

Lemma chunk_length {A : Type} (data : list A) (bs : Z) (k : nat) :
  (1 <= bs)%Z ->
  len (chunk data bs k) = Z.min bs (Z.max 0 (len data - Z.of_nat k * bs)).
Proof.
  intros Hb. unfold chunk, len. rewrite length_firstn, length_skipn.
  assert (Z.of_nat (k * Z.to_nat bs) = Z.of_nat k * bs)%Z by nia.
  lia.
Qed.

(** X14: for a block size of at least 1 the blocks of [main] are
    computed without an exception and partition the data: joined in order
    they give the data back; there are ceil(len(data) / bs) of them; the
    block of index k is the data from offset k * bs on, cut after bs
    bytes; no block is empty or longer than bs, and every block but the
    last has exactly bs bytes. *)
Theorem split_blocks_partition (data : list Byte.byte) (bs : Z) :
  (1 <= bs)%Z ->
  exists blocks,
    split_blocks data bs = Ok blocks /\
    List.concat blocks = data /\
    len blocks = ceil_div (len data) bs /\
    forall k block, nth_error blocks k = Some block ->
      block = firstn (Z.to_nat bs) (skipn (k * Z.to_nat bs) data) /\
      (1 <= len block <= bs)%Z /\
      ((S k < List.length blocks)%nat -> len block = bs).
Proof.
  intros Hb. rewrite split_blocks_chunks by exact Hb.
  eexists. split; [reflexivity |].
  assert (Hn : (0 <= len data)%Z) by (unfold len; lia).
  destruct (ceil_div_count (len data) bs Hn Hb) as (Hc0 & Hc1 & Hc2).
  split; [| split].
  - rewrite concat_chunks. apply firstn_all2.
    unfold len in *. nia.
  - unfold len in *. rewrite length_map, length_seq. lia.
  - intros k block E. apply nth_error_map_seq in E. destruct E as (Hk & ->).
    cbn [plus]. split; [reflexivity |].
    rewrite length_map, length_seq, chunk_length by exact Hb.
    assert (H1 : ((Z.of_nat k + 1) * bs <= ceil_div (len data) bs * bs)%Z)
      by (apply Z.mul_le_mono_nonneg_r; lia).
    split; [lia | intros Hk'].
    assert (H2 : ((Z.of_nat k + 2) * bs <= ceil_div (len data) bs * bs)%Z)
      by (apply Z.mul_le_mono_nonneg_r; lia).
    lia.
Qed.

(** ** The loop over the blocks *)

Lemma create_image_appends (rnd : R -> R) (rt : runtime) (colors : list color)
    (pixel_size : Z) (output_file : string) (w : world) :
  exists rest,
    stdout (snd (create_image rnd rt colors pixel_size output_file w)) =
      (stdout w ++ rest)%list.
Proof.
  unfold create_image.
  destruct (pillow rt); cbn [negb]; [| eexists; reflexivity].
  destruct (grid_layout rnd (len colors) pixel_size) as [g | e];
    [| exists []; cbn; now rewrite app_nil_r].
  destruct (draw_loop rt g 0 colors _) as [img | e];
    [| exists []; cbn; now rewrite app_nil_r].
  destruct (save_raises rt img output_file); eexists; reflexivity.
Qed.

Section Blocks.

Variable rnd : R -> R.
Variable flog2 : R -> R.
Hypothesis Hrnd : binary64_rounding rnd.

Lemma entropy_step_succeeds (n : Z) (ent : R) (c : Z) :
  (1 <= c <= n)%Z -> (n < 2 ^ 53)%Z ->
  exists ent', entropy_step rnd flog2 n ent c = Ok ent'.
Proof.
  intros Hc Hn. unfold entropy_step, truediv.
  destruct (Z.eqb_spec n 0); [lia |]. cbn [bind].
  assert (Hn' : 1 <= IZR n) by (apply IZR_le; lia).
  assert (Hc1 : 1 <= IZR c) by (apply IZR_le; lia).
  set (q := IZR c / IZR n).
  assert (Hqn : q * IZR n = IZR c) by (unfold q; field; lra).
  pose proof (rnd_quotient rnd Hrnd c n ltac:(lia) ltac:(lia)) as He.
  fold q in He.
  assert (Hp0 : 0 < rnd q).
  { assert (q - rnd q <= Rabs (rnd q - q)).
    { rewrite <- Rabs_Ropp. replace (- (rnd q - q)) with (q - rnd q) by ring.
      apply Rle_abs. }
    apply Rmult_lt_reg_r with (IZR n); [lra |]. nra. }
  unfold math_log2. destruct (Rlt_dec 0 (rnd q)); [| contradiction].
  cbn [bind]. eexists; reflexivity.
Qed.

Lemma entropy_loop_succeeds (n : Z) (counts : list Z) :
  (n < 2 ^ 53)%Z -> (forall c, In c counts -> (1 <= c <= n)%Z) ->
  forall ent, exists ent', entropy_loop rnd flog2 n ent counts = Ok ent'.
Proof.
  intros Hn. induction counts as [| c counts IH]; intros Hc ent.
  - exists ent. reflexivity.
  - cbn [entropy_loop].
    destruct (entropy_step_succeeds n ent c (Hc c (or_introl eq_refl)) Hn)
      as (ent1 & ->).
    cbn [bind]. apply IH.
    intros c' Hc'. apply Hc. right. exact Hc'.
Qed.

Lemma compute_entropy_succeeds (block : list Byte.byte) :
  (len block < 2 ^ 53)%Z ->
  exists ent, compute_entropy rnd flog2 block = Ok ent.
Proof.
  intros Hlen.
  destruct (list_eq_dec Byte.byte_eq_dec block []) as [-> | Hne].
  { exists 0. reflexivity. }
  rewrite compute_entropy_nonempty by exact Hne.
  destruct (count_bytes_spec block) as (_ & Hpos & Htot & _).
  apply entropy_loop_succeeds; [exact Hlen |].
  intros c Hc. split.
  - rewrite Forall_forall in Hpos. apply Hpos. exact Hc.
  - rewrite <- Htot. apply total_upper; assumption.
Qed.

Lemma process_block_succeeds (block : list Byte.byte) :
  (len block < 2 ^ 53)%Z ->
  exists norm col,
    process_block rnd flog2 block = Ok (norm, col) /\ valid_color col.
Proof.
  intros Hlen. unfold process_block.
  destruct (compute_entropy_succeeds block Hlen) as (ent & ->). cbn [bind].
  destruct (max_entropy_succeeds flog2 (len block) ltac:(unfold len; lia))
    as (m & ->). cbn [bind].
  assert (Hnorm : exists norm,
    (if Rlt_dec 0 m then fdiv rnd ent m else Ok 0) = Ok norm).
  { destruct (Rlt_dec 0 m) as [Hm | Hm]; [| eexists; reflexivity].
    unfold fdiv. destruct (Req_dec_T m 0); [lra | eexists; reflexivity]. }
  destruct Hnorm as (norm & ->). cbn [bind].
  destruct (anchor_loop_returns rnd Hrnd (clamp norm) (clamp_range norm))
    as (c & E & Hv).
  unfold entropy_to_color. rewrite E. cbn [bind].
  exists norm, c. split; [reflexivity | exact Hv].
Qed.

(** X15: the processing of one block in [main] (entropy, maximum,
    normalized value, colour) raises no exception for a block of fewer
    than 2^53 bytes, whatever [math.log2] returns, and gives a colour
    with three channels in 0..255. *)
Theorem process_block_never_raises (block : list Byte.byte) :
  (len block < 2 ^ 53)%Z ->
  exists norm r g b,
    process_block rnd flog2 block = Ok (norm, (r, g, b)) /\
    (0 <= r <= 255)%Z /\ (0 <= g <= 255)%Z /\ (0 <= b <= 255)%Z.
Proof.
  intros Hlen.
  destruct (process_block_succeeds block Hlen) as (norm & [[r g] b] & E & Hv).
  exists norm, r, g, b. split; [exact E | exact Hv].
Qed.

(** The loop over the blocks: one colour and one line for each block, the
    offset advancing by [bs]. *)
Lemma block_loop_lines (bs : Z) (blocks : list (list Byte.byte)) :
  Forall (fun block => (len block < 2 ^ 53)%Z) blocks ->
  forall color_list offset_counter w,
  exists cols lines,
    block_loop rnd flog2 bs blocks color_list offset_counter w =
      (Ok (color_list ++ cols)%list,
       {| stdout := (stdout w ++ lines)%list; files := files w |}) /\
    List.length cols = List.length blocks /\
    List.length lines = List.length blocks /\
    forall k block, nth_error blocks k = Some block ->
      exists norm col,
        process_block rnd flog2 block = Ok (norm, col) /\
        nth_error cols k = Some col /\
        nth_error lines k =
          Some (block_line col block (offset_counter + Z.of_nat k * bs)).
Proof.
  induction blocks as [| block rest IH]; intros Hall color_list off w.
  - exists [], []. cbn. rewrite !app_nil_r. destruct w.
    repeat split. intros [| k] b; discriminate.
  - inversion Hall as [| ? ? Hb Hrest]; subst.
    destruct (process_block_succeeds block Hb) as (norm & col & E & _).
    cbn [block_loop]. rewrite E.
    destruct (IH Hrest (color_list ++ [col])%list (off + bs)%Z
                (print (block_line col block off) w))
      as (cols & lines & El & Hc & Hl & Hk).
    exists (col :: cols), (block_line col block off :: lines).
    rewrite El. cbn [print stdout files]. rewrite <- !app_assoc. cbn [app].
    repeat split; cbn [List.length]; try lia.
    intros [| k] b Eb; cbn in Eb.
    + injection Eb as <-. exists norm, col. cbn.
      repeat split; [exact E |]. do 2 f_equal. lia.
    + destruct (Hk k b Eb) as (norm' & col' & E' & Ec' & El').
      exists norm', col'. cbn [nth_error]. repeat split; try assumption.
      rewrite El'. do 2 f_equal. lia.
Qed.

End Blocks.

(** ** [main] *)

Lemma chunk_short {A : Type} (data : list A) (bs : Z) (k : nat) :
  (len (chunk data bs k) <= len data)%Z.
Proof.
  unfold chunk, len. rewrite length_firstn, length_skipn. lia.
Qed.

Lemma ceil_div_le (n bs : Z) :
  (0 <= n)%Z -> (1 <= bs)%Z -> (ceil_div n bs <= n)%Z.
Proof.
  intros Hn Hb. destruct (ceil_div_count n bs Hn Hb) as (H0 & H1 & H2). nia.
Qed.

Lemma ceil_div_positive (n bs : Z) :
  (1 <= n)%Z -> (1 <= bs)%Z -> (1 <= ceil_div n bs)%Z.
Proof.
  intros Hn Hb. destruct (ceil_div_count n bs ltac:(lia) Hb) as (H0 & H1 & H2).
  nia.
Qed.

Lemma header_line_negative (bs : Z) : (bs <= 0)%Z -> header_line bs = EmptyString.
Proof.
  intros Hb. unfold header_line, py_range.
  replace (Z.to_nat (bs - 0)) with 0%nat by lia. reflexivity.
Qed.

Section Main.

Variable rnd : R -> R.
Variable flog2 : R -> R.
Hypothesis Hrnd : binary64_rounding rnd.

(** The blocks of [main] and what the loop over them does. *)
Lemma main_blocks (data : list Byte.byte) (bs : Z) (w : world) :
  (1 <= bs)%Z -> (len data < 2 ^ 53)%Z ->
  exists blocks cols lines,
    split_blocks data bs = Ok blocks /\
    block_loop rnd flog2 bs blocks [] 0 w =
      (Ok cols, {| stdout := (stdout w ++ lines)%list; files := files w |}) /\
    len cols = ceil_div (len data) bs /\
    len lines = ceil_div (len data) bs /\
    forall k, (Z.of_nat k < ceil_div (len data) bs)%Z ->
      let block := py_slice data (Z.of_nat k * bs) (Z.of_nat k * bs + bs) in
      exists norm col,
        process_block rnd flog2 block = Ok (norm, col) /\
        nth_error cols k = Some col /\
        nth_error lines k = Some (block_line col block (Z.of_nat k * bs)).
Proof.
  intros Hb Hn.
  set (count := Z.to_nat (ceil_div (len data) bs)).
  assert (Hcount : (0 <= ceil_div (len data) bs)%Z).
  { apply ceil_div_count; [unfold len; lia | exact Hb]. }
  assert (Hall : Forall (fun block : list Byte.byte => (len block < 2 ^ 53)%Z)
                   (map (chunk data bs) (seq 0 count))).
  { apply Forall_forall. intros b Hin. apply in_map_iff in Hin.
    destruct Hin as (k & <- & _). pose proof (chunk_short data bs k). lia. }
  destruct (block_loop_lines rnd flog2 Hrnd bs _ Hall [] 0%Z w)
    as (cols & lines & El & Hc & Hl & Hk).
  exists (map (chunk data bs) (seq 0 count)), cols, lines.
  rewrite length_map, length_seq in Hc, Hl.
  split; [apply split_blocks_chunks; exact Hb |].
  split; [exact El |].
  split; [unfold len at 1; lia |].
  split; [unfold len at 1; lia |].
  intros k Hk' block.
  assert (Eb : nth_error (map (chunk data bs) (seq 0 count)) k = Some block).
  { rewrite nth_error_map. rewrite nth_error_seq.
    destruct (Nat.ltb_spec k count); [| lia]. cbn.
    unfold block. rewrite <- (py_slice_chunk data bs k Hb). reflexivity. }
  destruct (Hk k block Eb) as (norm & col & E & Ec & Eline).
  exists norm, col. repeat split; assumption.
Qed.

(** X16: when the file is read and the block size is at least 1,
    [main] prints the header line, then one line per block in the order
    of the file, then an empty line, after what was printed before.  The
    line of the block of index k shows the bytes [data[k*bs : k*bs+bs]]
    on the colour computed for that block, with the offset tag of
    k * bs.  Without a request for an image nothing follows and no file
    is written. *)
Theorem main_report (rt : runtime) (read_file : string -> result (list Byte.byte))
    (args : arguments) (w : world) (data : list Byte.byte) :
  read_file (arg_filename args) = Ok data ->
  (1 <= arg_block_size args)%Z -> (len data < 2 ^ 53)%Z ->
  let bs := arg_block_size args in
  exists lines rest,
    stdout (snd (main rnd flog2 rt read_file args w)) =
      (stdout w ++ header_line bs :: lines ++ EmptyString :: rest)%list /\
    len lines = ceil_div (len data) bs /\
    (forall k, (Z.of_nat k < ceil_div (len data) bs)%Z ->
       let block := py_slice data (Z.of_nat k * bs) (Z.of_nat k * bs + bs) in
       exists norm col,
         process_block rnd flog2 block = Ok (norm, col) /\
         nth_error lines k = Some (block_line col block (Z.of_nat k * bs))) /\
    (requested (arg_image args) = None ->
     rest = [] /\ files (snd (main rnd flog2 rt read_file args w)) = files w).
Proof.
  intros Er Hb Hn bs.
  destruct (main_blocks data bs (print (header_line bs) w) Hb Hn)
    as (blocks & cols & lines & Es & El & Hc & Hl & Hk).
  unfold main. rewrite Er. fold bs. rewrite Es, El.
  assert (Hlines : forall k, (Z.of_nat k < ceil_div (len data) bs)%Z ->
    let block := py_slice data (Z.of_nat k * bs) (Z.of_nat k * bs + bs) in
    exists norm col,
      process_block rnd flog2 block = Ok (norm, col) /\
      nth_error lines k = Some (block_line col block (Z.of_nat k * bs))).
  { intros k Hk'. destruct (Hk k Hk') as (norm & col & E & _ & E').
    exists norm, col. split; assumption. }
  destruct (requested (arg_image args)) as [output_file |].
  - match goal with
    | |- context [create_image ?r ?t ?c ?p ?o ?v] =>
        destruct (create_image_appends r t c p o v) as (rest & Erest);
        destruct (create_image r t c p o v) as [[u | e] w3]
    end; cbn [snd] in *; exists lines, rest; rewrite Erest; cbn;
      rewrite <- !app_assoc; cbn; (split; [reflexivity |]);
      (split; [exact Hl |]); (split; [exact Hlines | discriminate]).
  - exists lines, []. cbn. rewrite <- !app_assoc. cbn.
    split; [reflexivity |]. split; [exact Hl |].
    split; [exact Hlines | intros _; split; reflexivity].
Qed.

Lemma create_image_returns (rt : runtime) (colors : list color)
    (pixel_size : Z) (output_file : string) (w : world) :
  colors <> [] -> (len colors < 2 ^ 53)%Z ->
  checks_boxes rt = false \/
    ((1 <= pixel_size)%Z /\ (len colors <= canvas_width * canvas_height)%Z) ->
  fst (create_image rnd rt colors pixel_size output_file w) = Ok tt.
Proof.
  intros Hc Hn Hbox. unfold create_image.
  destruct (pillow rt); cbn [negb]; [| reflexivity].
  destruct (grid_layout_of_colors rnd Hrnd colors pixel_size Hc Hn)
    as (g & -> & Hg & Hvis & _).
  rewrite draw_loop_squares.
  - match goal with |- context [save_raises ?a ?b ?c] =>
      destruct (save_raises a b c) end; reflexivity.
  - destruct Hg; lia.
  - destruct Hbox as [Hb | [H1 H2]]; [left; exact Hb | right; auto].
Qed.

Lemma create_image_empty (rt : runtime) (pixel_size : Z)
    (output_file : string) (w : world) :
  pillow rt = true ->
  create_image rnd rt [] pixel_size output_file w = (Raise ZeroDivisionError, w).
Proof. intros Hp. unfold create_image. rewrite Hp. reflexivity. Qed.

(** X17: how [main] ends once the file is read.  A block size of 0 ends
    it with an uncaught [ValueError] before anything is printed.
    Otherwise it returns normally, except in two cases, both with an
    image requested and Pillow installed.  When there is no block (an
    empty file or a negative block size) [create_image] divides by zero
    and the [ZeroDivisionError] is not caught.  When there are more
    blocks than the canvas has pixels the squares have size 0, and a
    library that checks its boxes raises a [ValueError] in
    [draw.rectangle] that is not caught either.  A failing save never
    stops it. *)
Theorem main_outcome (rt : runtime) (read_file : string -> result (list Byte.byte))
    (args : arguments) (w : world) (data : list Byte.byte) :
  read_file (arg_filename args) = Ok data -> (len data < 2 ^ 53)%Z ->
  fst (main rnd flog2 rt read_file args w) =
    (if (arg_block_size args =? 0)%Z then Uncaught ValueError
     else match requested (arg_image args) with
          | None => Returned
          | Some _ =>
              if pillow rt && ((arg_block_size args <? 0)%Z || (len data =? 0)%Z)
              then Uncaught ZeroDivisionError
              else if pillow rt && checks_boxes rt &&
                      (canvas_width * canvas_height <?
                       ceil_div (len data) (arg_block_size args))%Z
              then Uncaught ValueError
              else Returned
          end) /\
  ((arg_block_size args = 0)%Z -> snd (main rnd flog2 rt read_file args w) = w).
Proof.
  intros Er Hn. set (bs := arg_block_size args).
  unfold main. rewrite Er. fold bs.
  destruct (Z.eqb_spec bs 0) as [E0 | N0].
  { rewrite E0. cbn. split; reflexivity. }
  split; [| intros; contradiction].
  destruct (Z.ltb_spec bs 0) as [Hneg | Hpos].
  - unfold split_blocks.
    rewrite py_range_step_down by (unfold len; lia). cbn.
    destruct (requested (arg_image args)) as [output_file |]; [| reflexivity].
    destruct (pillow rt) eqn:Hp.
    + rewrite create_image_empty by exact Hp. reflexivity.
    + rewrite (create_image_without_pillow rnd) by exact Hp. reflexivity.
  - destruct (main_blocks data bs (print (header_line bs) w) ltac:(lia) Hn)
      as (blocks & cols & lines & Es & El & Hc & Hl & Hk).
    rewrite Es, El.
    destruct (requested (arg_image args)) as [output_file |]; [| reflexivity].
    cbn [orb].
    destruct (Z.eqb_spec (len data) 0) as [Ed | Nd].
    + assert (cols = []).
      { rewrite Ed in Hc. unfold ceil_div in Hc.
        rewrite Z.div_small in Hc by lia.
        destruct cols; [reflexivity | unfold len in Hc; cbn in Hc; lia]. }
      subst cols.
      destruct (pillow rt) eqn:Hp; cbn [andb].
      * rewrite create_image_empty by exact Hp. reflexivity.
      * rewrite (create_image_without_pillow rnd) by exact Hp. reflexivity.
    + rewrite andb_false_r.
      assert (Hd : (1 <= len data)%Z) by (unfold len in *; lia).
      pose proof (ceil_div_positive (len data) bs Hd ltac:(lia)).
      pose proof (ceil_div_le (len data) bs ltac:(lia) ltac:(lia)).
      assert (Hne : cols <> []).
      { intros ->. unfold len in Hc at 1. cbn in Hc. lia. }
      destruct (pillow rt) eqn:Hp; cbn [andb].
      2: { rewrite (create_image_without_pillow rnd) by exact Hp. reflexivity. }
      destruct (checks_boxes rt) eqn:Hb; cbn [andb].
      * destruct (Z.ltb_spec (canvas_width * canvas_height)
                    (ceil_div (len data) bs)) as [Hmany | Hfew].
        -- rewrite create_image_rejects; try assumption; [reflexivity | lia | lia].
        -- assert (Hfit : (len cols <= canvas_width * canvas_height)%Z)
             by (rewrite Hc; exact Hfew).
           assert (Hlt : (len cols < 2 ^ 53)%Z) by lia.
           match goal with
           | |- context [create_image ?r ?t ?c ?p ?o ?v] =>
               pose proof (create_image_returns t c p o v Hne Hlt
                             (or_intror (conj (Z.le_refl 1) Hfit))) as Hret;
               destruct (create_image r t c p o v) as [[u | e] w3]
           end; [reflexivity | cbn in Hret; discriminate Hret].
      * assert (Hlt : (len cols < 2 ^ 53)%Z) by lia.
        match goal with
        | |- context [create_image ?r ?t ?c ?p ?o ?v] =>
            pose proof (create_image_returns t c p o v Hne Hlt
                          (or_introl Hb)) as Hret;
            destruct (create_image r t c p o v) as [[u | e] w3]
        end; [reflexivity | cbn in Hret; discriminate Hret].
Qed.

End Main.

(** ** The picture of a file *)

Section Picture.

Variable rnd : R -> R.
Variable flog2 : R -> R.
Hypothesis Hrnd : binary64_rounding rnd.

(** X18: [main] with a request for an image, Pillow installed, a file
    that is not empty, a block size of at least 1, no more blocks than
    the canvas has pixels and a save that succeeds: it returns normally
    and writes one file under the requested name; the image holds one
    rectangle per block, each inside the canvas, and the rectangle of
    index k has the colour computed for the block
    [data[k*bs : k*bs+bs]]. *)
Theorem main_draws_blocks (rt : runtime)
    (read_file : string -> result (list Byte.byte))
    (args : arguments) (w : world) (data : list Byte.byte)
    (output_file : string) :
  read_file (arg_filename args) = Ok data ->
  (1 <= arg_block_size args)%Z -> (1 <= len data < 2 ^ 53)%Z ->
  (ceil_div (len data) (arg_block_size args) <=
   canvas_width * canvas_height)%Z ->
  requested (arg_image args) = Some output_file ->
  pillow rt = true ->
  (forall img, save_raises rt img output_file = None) ->
  let bs := arg_block_size args in
  exists img,
    fst (main rnd flog2 rt read_file args w) = Returned /\
    files (snd (main rnd flog2 rt read_file args w)) =
      (output_file, img) :: files w /\
    len (img_rectangles img) = ceil_div (len data) bs /\
    Forall inside_canvas (img_rectangles img) /\
    forall k, (Z.of_nat k < ceil_div (len data) bs)%Z ->
      exists norm col rect,
        process_block rnd flog2
          (py_slice data (Z.of_nat k * bs) (Z.of_nat k * bs + bs)) =
          Ok (norm, col) /\
        nth_error (img_rectangles img) k = Some rect /\
        rect_fill rect = col.
Proof.
  intros Er Hb Hn Hmax Ei Hp Hs bs. fold bs in Hmax.
  destruct (main_blocks rnd flog2 Hrnd data bs (print (header_line bs) w) Hb
              ltac:(lia))
    as (blocks & cols & lines & Es & El & Hc & Hl & Hk).
  pose proof (ceil_div_positive (len data) bs ltac:(lia) Hb) as Hpos.
  pose proof (ceil_div_le (len data) bs ltac:(lia) Hb) as Hle.
  assert (Hne : cols <> []).
  { intros ->. unfold len in Hc at 1. cbn in Hc. lia. }
  unfold main. rewrite Er. fold bs. rewrite Es, El, Ei.
  assert (Hfit : (len cols <= canvas_width * canvas_height)%Z)
    by (rewrite Hc; exact Hmax).
  assert (Hlt : (len cols < 2 ^ 53)%Z) by lia.
  match goal with
  | |- context [create_image _ _ _ _ _ ?v] =>
      destruct (create_image_draws rnd Hrnd rt cols 1 output_file v Hp Hne
                  Hlt (or_intror (conj (Z.le_refl 1) Hfit)) Hs)
        as (g & Hg & ->)
  end.
  eexists. cbn.
  split; [reflexivity |]. split; [reflexivity |].
  cbn [img_rectangles].
  split; [| split].
  - unfold len at 1. rewrite squares_length. exact Hc.
  - apply Forall_forall. intros r Hin.
    destruct (In_nth _ _ r Hin) as (k & Hk' & Ek).
    rewrite squares_length in Hk'.
    destruct (squares_nth g cols r 0%Z k Hk') as (c & E).
    rewrite <- Ek, E. apply (square_inside (len cols)); [exact Hg |].
    unfold len. lia.
  - intros k Hk'. destruct (Hk k Hk') as (norm & col & E & Ec & _).
    pose proof (squares_fill g cols 0%Z) as Hf.
    assert (Em : nth_error (map rect_fill (squares g 0 cols)) k = Some col)
      by (rewrite Hf; exact Ec).
    rewrite nth_error_map in Em.
    destruct (nth_error (squares g 0 cols) k) as [rect |]; [| discriminate].
    injection Em as Em. exists norm, col, rect.
    repeat split; [exact E | exact Em].
Qed.

End Picture.

(** ** The columns of the hex dump *)

Lemma substring_0_3 (a b c : ascii) (s : string) :
  substring 0 3 (String a (String b (String c s))) =
    String a (String b (String c EmptyString)).
Proof. destruct s; reflexivity. Qed.

Lemma string_of_length_3 (s : string) :
  String.length s = 3%nat ->
  exists a b c, s = String a (String b (String c EmptyString)).
Proof.
  destruct s as [| a [| b [| c [| d s]]]]; cbn; intros H; try discriminate.
  exists a, b, c. reflexivity.
Qed.

Lemma concat_columns (l : list string) :
  Forall (fun s => String.length s = 3%nat) l ->
  forall k s, nth_error l k = Some s ->
    substring (3 * k) 3 (String.concat EmptyString l) = s.
Proof.
  induction l as [| x xs IH]; intros Hall k s E.
  - destruct k; discriminate.
  - inversion Hall as [| ? ? Hx Hxs]; subst.
    destruct (string_of_length_3 x Hx) as (a & b & c & ->).
    destruct k as [| k].
    + cbn in E. injection E as <-.
      destruct xs; cbn [String.concat String.append Nat.mul];
        apply substring_0_3.
    + cbn [nth_error] in E.
      destruct xs as [| y ys]; [destruct k; discriminate |].
      replace (3 * S k)%nat with (S (S (S (3 * k)))) by lia.
      cbn [String.concat String.append substring].
      apply (IH Hxs k s E).
Qed.

Lemma hex_str_columns (block : list Byte.byte) :
  forall k b, nth_error block k = Some b ->
    substring (3 * k) 2 (hex_str block) = format_02x b.
Proof.
  unfold hex_str.
  induction block as [| x xs IH]; intros k b E.
  - destruct k; discriminate.
  - destruct k as [| k].
    + cbn in E. injection E as <-.
      destruct xs; cbn [map String.concat]; unfold format_02x;
        cbn [String.append Nat.mul substring]; try reflexivity;
        match goal with |- context [substring 0 0 ?s] => destruct s end;
        reflexivity.
    + cbn [nth_error] in E.
      destruct xs as [| y ys]; [destruct k; discriminate |].
      replace (3 * S k)%nat with (S (S (S (3 * k)))) by lia.
      cbn [map String.concat]. unfold format_02x at 1.
      cbn [String.append substring].
      apply (IH k b E).
Qed.

Lemma header_cells_width :
  forallb (fun c => Nat.eqb (String.length (header_cell c)) 3) (py_range 0 4096)
    = true.
Proof. vm_compute. reflexivity. Qed.

Lemma header_cell_width (count : Z) :
  (0 <= count < 4096)%Z -> String.length (header_cell count) = 3%nat.
Proof.
  intros Hc. pose proof header_cells_width as H.
  rewrite forallb_forall in H. apply Nat.eqb_eq. apply H.
  apply in_py_range. lia.
Qed.

(** X19: for block sizes up to 4096 the column labels of the header
    stand over their bytes: every label with its spacing takes 3
    characters, as a byte with its separator does, so the label of column
    k starts at character 3k of the header line, where the two hex digits
    of byte k start in the line of a block. *)
Theorem header_aligned (bs : Z) (block : list Byte.byte) (k : nat) (b : Byte.byte) :
  (bs <= 4096)%Z -> (Z.of_nat k < bs)%Z -> nth_error block k = Some b ->
  substring (3 * k) 3 (header_line bs) = header_cell (Z.of_nat k) /\
  substring (3 * k) 2 (hex_str block) = format_02x b.
Proof.
  intros Hb Hk Eb. split; [| apply hex_str_columns; exact Eb].
  unfold header_line. apply concat_columns.
  - apply Forall_forall. intros s Hin. apply in_map_iff in Hin.
    destruct Hin as (c & <- & Hc). apply in_py_range in Hc.
    apply header_cell_width. lia.
  - rewrite nth_error_map. unfold py_range. rewrite nth_error_map.
    rewrite nth_error_seq.
    destruct (Nat.ltb_spec k (Z.to_nat (bs - 0))); [| lia].
    cbn. reflexivity.
Qed.

(** ** The further properties at concrete inputs, in exact arithmetic *)

(** [freq_table_permutation] for a block of two bytes and its reverse. *)
Lemma freq_table_permutation_witness :
  Permutation [Byte.x00; Byte.x01] [Byte.x01; Byte.x00] /\
  Permutation (count_bytes [Byte.x00; Byte.x01])
              (count_bytes [Byte.x01; Byte.x00]).
Proof.
  assert (H : Permutation [Byte.x00; Byte.x01] [Byte.x01; Byte.x00])
    by apply perm_swap.
  exact (conj H (freq_table_permutation _ _ H)).
Defined.

(** [entropy_never_negative] for the block [b"AB"]. *)
Lemma entropy_never_negative_witness :
  binary64_rounding exact /\
  (forall x, 0 < x <= 1 -> log2 x <= 0) /\
  (len [Byte.x41; Byte.x42] < 2 ^ 53)%Z /\
  exists ent, compute_entropy exact log2 [Byte.x41; Byte.x42] = Ok ent /\ 0 <= ent.
Proof.
  assert (Hlen : (len [Byte.x41; Byte.x42] < 2 ^ 53)%Z) by reflexivity.
  split; [exact exact_binary64_rounding |].
  split; [exact log2_nonpos |].
  split; [exact Hlen |].
  exact (entropy_never_negative exact log2 [Byte.x41; Byte.x42]
           exact_binary64_rounding log2_nonpos Hlen).
Defined.

(** [uniform_block_blue] for the block [b"AAA"]. *)
Lemma uniform_block_blue_witness :
  binary64_rounding exact /\ log2 1 = 0 /\
  Forall (fun x => x = Byte.x41) [Byte.x41; Byte.x41] /\
  compute_entropy exact log2 [Byte.x41; Byte.x41; Byte.x41] = Ok 0 /\
  process_block exact log2 [Byte.x41; Byte.x41; Byte.x41] =
    Ok (0, (0, 0, 255)%Z).
Proof.
  assert (H : Forall (fun x => x = Byte.x41) [Byte.x41; Byte.x41])
    by (repeat constructor).
  split; [exact exact_binary64_rounding |].
  split; [exact log2_1 |].
  split; [exact H |].
  exact (uniform_block_blue exact log2 exact_binary64_rounding log2_1
           Byte.x41 [Byte.x41; Byte.x41] H).
Defined.

(** [distinct_block_red] for a block of two different bytes. *)
Lemma distinct_block_red_witness :
  binary64_rounding exact /\
  (forall j : Z, (-8 <= j <= 8)%Z -> log2 (powerRZ 2 j) = IZR j) /\
  (1 <= 1 <= 8)%Z /\ NoDup [Byte.x00; Byte.x01] /\
  len [Byte.x00; Byte.x01] = (2 ^ 1)%Z /\
  compute_entropy exact log2 [Byte.x00; Byte.x01] = Ok 1 /\
  max_entropy log2 (len [Byte.x00; Byte.x01]) = Ok 1 /\
  process_block exact log2 [Byte.x00; Byte.x01] = Ok (1, (255, 0, 0)%Z).
Proof.
  assert (Hpow : forall j : Z, (-8 <= j <= 8)%Z -> log2 (powerRZ 2 j) = IZR j)
    by (intros j _; apply log2_pow2).
  assert (Hk : (1 <= 1 <= 8)%Z) by lia.
  assert (Hnd : NoDup [Byte.x00; Byte.x01]).
  { constructor; [intros [H | []]; discriminate H |].
    constructor; [intros [] | constructor]. }
  assert (Hlen : len [Byte.x00; Byte.x01] = (2 ^ 1)%Z) by reflexivity.
  split; [exact exact_binary64_rounding |].
  split; [exact Hpow |]. split; [exact Hk |]. split; [exact Hnd |].
  split; [exact Hlen |].
  exact (distinct_block_red exact log2 exact_binary64_rounding Hpow 1
           [Byte.x00; Byte.x01] Hk Hnd Hlen).
Defined.

(** [gradient_shape] at an input of the second quarter. *)
Lemma gradient_shape_witness :
  binary64_rounding exact /\
  exists v : Z, (0 <= v <= 255)%Z /\
    ((0.3 <= 0.25 /\ entropy_to_color exact 0.3 = Ok (0, v, 255)%Z) \/
     (0.25 < 0.3 <= 0.5 /\ entropy_to_color exact 0.3 = Ok (0, 255, v)%Z) \/
     (0.5 < 0.3 <= 0.75 /\ entropy_to_color exact 0.3 = Ok (v, 255, 0)%Z) \/
     (0.75 < 0.3 /\ entropy_to_color exact 0.3 = Ok (255, v, 0)%Z)).
Proof.
  split; [exact exact_binary64_rounding |].
  exact (gradient_shape exact exact_binary64_rounding 0.3).
Defined.

(** [gradient_monotone] at the two ends of the gradient. *)
Lemma gradient_monotone_witness :
  binary64_rounding exact /\ 0 <= 1 /\
  entropy_to_color exact 0 = Ok (0, 0, 255)%Z /\
  entropy_to_color exact 1 = Ok (255, 0, 0)%Z /\
  (0 <= 255)%Z /\ (0 <= 255)%Z.
Proof.
  assert (H01 : 0 <= 1) by lra.
  pose proof (color_at_0 exact exact_binary64_rounding) as E0.
  pose proof (color_at_1 exact exact_binary64_rounding) as E1.
  split; [exact exact_binary64_rounding |].
  split; [exact H01 |]. split; [exact E0 |]. split; [exact E1 |].
  exact (gradient_monotone exact exact_binary64_rounding 0 1
           0 0 255 255 0 0 H01 E0 E1).
Defined.

(** [grid_within_canvas] for three blocks. *)
Lemma grid_within_canvas_witness :
  binary64_rounding exact /\ (1 <= 3 < 2 ^ 53)%Z /\
  exists g, grid_layout exact 3 1 = Ok g /\
    (1 <= best_cols g /\ 1 <= best_rows g /\ 0 <= max_square_size g /\
     0 <= left_margin g /\ 0 <= top_margin g /\
     left_margin g + best_cols g * max_square_size g <= canvas_width /\
     top_margin g + best_rows g * max_square_size g <= canvas_height /\
     0 <= canvas_width - best_cols g * max_square_size g - 2 * left_margin g <= 1 /\
     0 <= canvas_height - best_rows g * max_square_size g - 2 * top_margin g <= 1)%Z.
Proof.
  assert (Hn : (1 <= 3 < 2 ^ 53)%Z) by lia.
  split; [exact exact_binary64_rounding |]. split; [exact Hn |].
  exact (grid_within_canvas exact exact_binary64_rounding 3 1 Hn).
Defined.

(** [grid_layout_too_many] for one block more than the canvas has pixels. *)
Lemma grid_layout_too_many_witness :
  binary64_rounding exact /\
  (canvas_width * canvas_height < 320001 < 2 ^ 53)%Z /\ (1 <= 1)%Z /\
  grid_layout exact 320001 1 =
    Ok {| best_cols := 1; best_rows := 1; max_square_size := 0;
          left_margin := 200; top_margin := 400 |}.
Proof.
  assert (Hn : (canvas_width * canvas_height < 320001 < 2 ^ 53)%Z)
    by (unfold canvas_width, canvas_height; lia).
  assert (Hp : (1 <= 1)%Z) by lia.
  split; [exact exact_binary64_rounding |].
  split; [exact Hn |]. split; [exact Hp |].
  exact (grid_layout_too_many exact exact_binary64_rounding 320001 1 Hn Hp).
Defined.

(** [search_prefers_fewer_columns] for 1000 blocks: 22 columns. *)
Lemma search_prefers_fewer_columns_witness :
  binary64_rounding exact /\ (1 <= 1000 < 2 ^ 53)%Z /\
  (Z.min canvas_width (canvas_height / 1000) < 1)%Z /\
  exists g, grid_layout exact 1000 1 = Ok g /\
    forall cols, (1 <= cols < best_cols g)%Z ->
      (cell_size cols (ceil_div 1000 cols) < max_square_size g)%Z.
Proof.
  assert (Hn : (1 <= 1000 < 2 ^ 53)%Z) by lia.
  assert (Hv : (Z.min canvas_width (canvas_height / 1000) < 1)%Z) by reflexivity.
  split; [exact exact_binary64_rounding |].
  split; [exact Hn |]. split; [exact Hv |].
  destruct (grid_layout_succeeds exact exact_binary64_rounding 1000 1 ltac:(lia))
    as (g & Eg & _).
  exists g. split; [exact Eg |].
  exact (search_prefers_fewer_columns exact exact_binary64_rounding 1000 1 g
           Hn Hv Eg).
Defined.


(** [squares_do_not_overlap] for the squares of a blue and a red block. *)
Lemma squares_do_not_overlap_witness :
  binary64_rounding exact /\
  (len [(0, 0, 255)%Z; (255, 0, 0)%Z] < 2 ^ 53)%Z /\
  exists g img,
    grid_layout exact (len [(0, 0, 255)%Z; (255, 0, 0)%Z]) 1 = Ok g /\
    (1 <= max_square_size g)%Z /\
    draw_loop working_runtime g 0 [(0, 0, 255)%Z; (255, 0, 0)%Z]
      (Image_new canvas_width canvas_height "white") = Ok img /\
    (0 < 1 < List.length (img_rectangles img))%nat /\
    forall d x y,
      ~ (covers (nth 0 (img_rectangles img) d) x y /\
         covers (nth 1 (img_rectangles img) d) x y).
Proof.
  assert (Hn : (len [(0, 0, 255)%Z; (255, 0, 0)%Z] < 2 ^ 53)%Z) by reflexivity.
  split; [exact exact_binary64_rounding |]. split; [exact Hn |].
  destruct (grid_layout_visible exact exact_binary64_rounding
              (len [(0, 0, 255)%Z; (255, 0, 0)%Z]) 1
              ltac:(unfold len, canvas_width, canvas_height; cbn; lia)
              ltac:(lia))
    as (g & Eg & Hg & Hs).
  assert (Ei : draw_loop working_runtime g 0 [(0, 0, 255)%Z; (255, 0, 0)%Z]
                 (Image_new canvas_width canvas_height "white") =
               Ok {| img_width := canvas_width; img_height := canvas_height;
                     img_background := "white";
                     img_rectangles :=
                       squares g 0 [(0, 0, 255)%Z; (255, 0, 0)%Z] |}).
  { rewrite draw_loop_squares by (lia || (right; exact Hs)). reflexivity. }
  assert (Hij : (0 < 1 < 2)%nat) by lia.
  exists g. eexists. split; [exact Eg |]. split; [exact Hs |].
  split; [exact Ei |]. split; [exact Hij |].
  intros d x y.
  exact (squares_do_not_overlap exact exact_binary64_rounding working_runtime
           [(0, 0, 255)%Z; (255, 0, 0)%Z] 1 g _ d 0 1 x y Hn Eg Hs Ei Hij).
Defined.

(** [create_image_saves] for one blue block. *)
Lemma create_image_saves_witness :
  binary64_rounding exact /\ pillow working_runtime = true /\
  [(0, 0, 255)%Z] <> ([] : list color) /\ (1 <= 1)%Z /\
  (len [(0, 0, 255)%Z] <= canvas_width * canvas_height)%Z /\
  (forall img, save_raises working_runtime img "out.png" = None) /\
  exists img,
    create_image exact working_runtime [(0, 0, 255)%Z] 1 "out.png" empty_world =
      (Ok tt, {| stdout := stdout empty_world ++ ["Image saved to out.png"%string];
                 files := ("out.png"%string, img) :: files empty_world |}) /\
    img_width img = 400%Z /\ img_height img = 800%Z /\
    img_background img = "white"%string /\
    map rect_fill (img_rectangles img) = [(0, 0, 255)%Z].
Proof.
  assert (Hp : pillow working_runtime = true) by reflexivity.
  assert (Hc : [(0, 0, 255)%Z] <> ([] : list color)) by discriminate.
  assert (Hps : (1 <= 1)%Z) by lia.
  assert (Hn : (len [(0, 0, 255)%Z] <= canvas_width * canvas_height)%Z)
    by (unfold len, canvas_width, canvas_height; cbn; lia).
  assert (Hs : forall img, save_raises working_runtime img "out.png" = None)
    by reflexivity.
  split; [exact exact_binary64_rounding |].
  split; [exact Hp |]. split; [exact Hc |]. split; [exact Hps |].
  split; [exact Hn |]. split; [exact Hs |].
  exact (create_image_saves exact exact_binary64_rounding working_runtime
           [(0, 0, 255)%Z] 1 "out.png" empty_world Hp Hc Hps Hn Hs).
Defined.

(** [split_blocks_partition] for three bytes in blocks of two. *)
Lemma split_blocks_partition_witness :
  (1 <= 2)%Z /\
  exists blocks,
    split_blocks [Byte.x41; Byte.x42; Byte.x43] 2 = Ok blocks /\
    List.concat blocks = [Byte.x41; Byte.x42; Byte.x43] /\
    len blocks = ceil_div (len [Byte.x41; Byte.x42; Byte.x43]) 2 /\
    forall k block, nth_error blocks k = Some block ->
      block = firstn (Z.to_nat 2) (skipn (k * Z.to_nat 2)
                                     [Byte.x41; Byte.x42; Byte.x43]) /\
      (1 <= len block <= 2)%Z /\
      ((S k < List.length blocks)%nat -> len block = 2%Z).
Proof.
  assert (Hb : (1 <= 2)%Z) by lia.
  split; [exact Hb |].
  exact (split_blocks_partition [Byte.x41; Byte.x42; Byte.x43] 2 Hb).
Defined.

(** [process_block_never_raises] for the block [b"AB"]. *)
Lemma process_block_never_raises_witness :
  binary64_rounding exact /\ (len [Byte.x41; Byte.x42] < 2 ^ 53)%Z /\
  exists norm r g b,
    process_block exact log2 [Byte.x41; Byte.x42] = Ok (norm, (r, g, b)) /\
    (0 <= r <= 255)%Z /\ (0 <= g <= 255)%Z /\ (0 <= b <= 255)%Z.
Proof.
  assert (Hn : (len [Byte.x41; Byte.x42] < 2 ^ 53)%Z) by reflexivity.
  split; [exact exact_binary64_rounding |]. split; [exact Hn |].
  exact (process_block_never_raises exact log2 exact_binary64_rounding
           [Byte.x41; Byte.x42] Hn).
Defined.

(** [main_report] for a file of three bytes and blocks of two. *)
Lemma main_report_witness :
  binary64_rounding exact /\
  sample_file (arg_filename sample_arguments) =
    Ok [Byte.x41; Byte.x42; Byte.x43] /\
  (1 <= arg_block_size sample_arguments)%Z /\
  (len [Byte.x41; Byte.x42; Byte.x43] < 2 ^ 53)%Z /\
  exists lines rest,
    stdout (snd (main exact log2 working_runtime sample_file sample_arguments
                   empty_world)) =
      (stdout empty_world ++
       header_line 2 :: lines ++ EmptyString :: rest)%list /\
    len lines = ceil_div (len [Byte.x41; Byte.x42; Byte.x43]) 2 /\
    (forall k,
       (Z.of_nat k < ceil_div (len [Byte.x41; Byte.x42; Byte.x43]) 2)%Z ->
       exists norm col,
         process_block exact log2
           (py_slice [Byte.x41; Byte.x42; Byte.x43]
              (Z.of_nat k * 2) (Z.of_nat k * 2 + 2)) = Ok (norm, col) /\
         nth_error lines k =
           Some (block_line col
                   (py_slice [Byte.x41; Byte.x42; Byte.x43]
                      (Z.of_nat k * 2) (Z.of_nat k * 2 + 2))
                   (Z.of_nat k * 2))) /\
    (requested (arg_image sample_arguments) = None ->
     rest = [] /\
     files (snd (main exact log2 working_runtime sample_file sample_arguments
                   empty_world)) = files empty_world).
Proof.
  assert (Er : sample_file (arg_filename sample_arguments) =
               Ok [Byte.x41; Byte.x42; Byte.x43]) by reflexivity.
  assert (Hb : (1 <= arg_block_size sample_arguments)%Z) by (cbn; lia).
  assert (Hn : (len [Byte.x41; Byte.x42; Byte.x43] < 2 ^ 53)%Z) by reflexivity.
  split; [exact exact_binary64_rounding |].
  split; [exact Er |]. split; [exact Hb |]. split; [exact Hn |].
  exact (main_report exact log2 exact_binary64_rounding working_runtime
           sample_file sample_arguments empty_world
           [Byte.x41; Byte.x42; Byte.x43] Er Hb Hn).
Defined.

(** [main_outcome] for the same file, without an image. *)
Lemma main_outcome_witness :
  binary64_rounding exact /\
  sample_file (arg_filename sample_arguments) =
    Ok [Byte.x41; Byte.x42; Byte.x43] /\
  (len [Byte.x41; Byte.x42; Byte.x43] < 2 ^ 53)%Z /\
  fst (main exact log2 working_runtime sample_file sample_arguments
         empty_world) = Returned.
Proof.
  assert (Er : sample_file (arg_filename sample_arguments) =
               Ok [Byte.x41; Byte.x42; Byte.x43]) by reflexivity.
  assert (Hn : (len [Byte.x41; Byte.x42; Byte.x43] < 2 ^ 53)%Z) by reflexivity.
  split; [exact exact_binary64_rounding |].
  split; [exact Er |]. split; [exact Hn |].
  exact (proj1 (main_outcome exact log2 exact_binary64_rounding working_runtime
                  sample_file sample_arguments empty_world
                  [Byte.x41; Byte.x42; Byte.x43] Er Hn)).
Defined.

(** [main_draws_blocks] for the same file, with an image. *)
Lemma main_draws_blocks_witness :
  binary64_rounding exact /\
  sample_file (arg_filename sample_arguments_image) =
    Ok [Byte.x41; Byte.x42; Byte.x43] /\
  (1 <= arg_block_size sample_arguments_image)%Z /\
  (1 <= len [Byte.x41; Byte.x42; Byte.x43] < 2 ^ 53)%Z /\
  (ceil_div (len [Byte.x41; Byte.x42; Byte.x43])
     (arg_block_size sample_arguments_image) <=
   canvas_width * canvas_height)%Z /\
  requested (arg_image sample_arguments_image) = Some "out.png"%string /\
  pillow working_runtime = true /\
  (forall img, save_raises working_runtime img "out.png" = None) /\
  exists img,
    fst (main exact log2 working_runtime sample_file sample_arguments_image
           empty_world) = Returned /\
    files (snd (main exact log2 working_runtime sample_file
                  sample_arguments_image empty_world)) =
      ("out.png"%string, img) :: files empty_world /\
    len (img_rectangles img) = ceil_div (len [Byte.x41; Byte.x42; Byte.x43]) 2 /\
    Forall inside_canvas (img_rectangles img) /\
    forall k,
      (Z.of_nat k < ceil_div (len [Byte.x41; Byte.x42; Byte.x43]) 2)%Z ->
      exists norm col rect,
        process_block exact log2
          (py_slice [Byte.x41; Byte.x42; Byte.x43]
             (Z.of_nat k * 2) (Z.of_nat k * 2 + 2)) = Ok (norm, col) /\
        nth_error (img_rectangles img) k = Some rect /\
        rect_fill rect = col.
Proof.
  assert (Er : sample_file (arg_filename sample_arguments_image) =
               Ok [Byte.x41; Byte.x42; Byte.x43]) by reflexivity.
  assert (Hb : (1 <= arg_block_size sample_arguments_image)%Z) by (cbn; lia).
  assert (Hn : (1 <= len [Byte.x41; Byte.x42; Byte.x43] < 2 ^ 53)%Z)
    by (unfold len; cbn; lia).
  assert (Hmax : (ceil_div (len [Byte.x41; Byte.x42; Byte.x43])
                    (arg_block_size sample_arguments_image) <=
                  canvas_width * canvas_height)%Z) by (vm_compute; discriminate).
  assert (Ei : requested (arg_image sample_arguments_image) =
               Some "out.png"%string) by reflexivity.
  assert (Hp : pillow working_runtime = true) by reflexivity.
  assert (Hs : forall img, save_raises working_runtime img "out.png" = None)
    by reflexivity.
  split; [exact exact_binary64_rounding |].
  split; [exact Er |]. split; [exact Hb |]. split; [exact Hn |].
  split; [exact Hmax |].
  split; [exact Ei |]. split; [exact Hp |]. split; [exact Hs |].
  exact (main_draws_blocks exact log2 exact_binary64_rounding working_runtime
           sample_file sample_arguments_image empty_world
           [Byte.x41; Byte.x42; Byte.x43] "out.png" Er Hb Hn Hmax Ei Hp Hs).
Defined.

(** [header_aligned] for the first byte of a block, with 16 columns. *)
Lemma header_aligned_witness :
  (16 <= 4096)%Z /\ (Z.of_nat 0 < 16)%Z /\
  nth_error [Byte.x41; Byte.x42] 0 = Some Byte.x41 /\
  substring (3 * 0) 3 (header_line 16) = header_cell (Z.of_nat 0) /\
  substring (3 * 0) 2 (hex_str [Byte.x41; Byte.x42]) = format_02x Byte.x41.
Proof.
  assert (Hb : (16 <= 4096)%Z) by lia.
  assert (Hk : (Z.of_nat 0 < 16)%Z) by (cbn; lia).
  assert (Eb : nth_error [Byte.x41; Byte.x42] 0 = Some Byte.x41) by reflexivity.
  split; [exact Hb |]. split; [exact Hk |]. split; [exact Eb |].
  exact (header_aligned 16 [Byte.x41; Byte.x42] 0 Byte.x41 Hb Hk Eb).
Defined.

(** * The entropy in floating point: the upper bound *)

Lemma ln_2_half : / 2 <= ln 2.
Proof.
  pose proof (ln_le_minus_1 (/ 2) ltac:(lra)) as H.
  rewrite ln_Rinv in H by lra. lra.
Qed.

Lemma x_ln_x (r : R) : 0 < r -> r - 1 <= r * ln r.
Proof.
  intros Hr.
  assert (Hi : 0 < / r) by (apply Rinv_0_lt_compat; exact Hr).
  pose proof (ln_le_minus_1 (/ r) Hi) as H.
  rewrite ln_Rinv in H by exact Hr.
  assert (E : r * / r = 1) by (field; lra).
  assert (Hm : r * - ln r <= r * (/ r - 1)).
  { apply Rmult_le_compat_l; lra. }
  rewrite Rmult_minus_distr_l, E in Hm. lra.
Qed.

(** [- p ln p] for a [p] within the relative distance [u] of [q]. *)
Lemma term_perturbed (q p u : R) :
  0 < q <= 1 -> 0 < p -> 0 <= u -> p <= (1 + u) * q -> q - p <= u * q ->
  - (p * ln p) <= (1 + u) * - (q * ln q) + u * q.
Proof.
  intros [Hq0 Hq1] Hp Hu Hhi Hlo.
  set (r := p / q).
  assert (Hr : 0 < r) by (unfold r; apply Rdiv_lt_0_compat; assumption).
  assert (Ep : p = q * r) by (unfold r; field; lra).
  assert (El : ln p = ln q + ln r) by (rewrite Ep; apply ln_mult; assumption).
  pose proof (x_ln_x r Hr) as Hx.
  assert (Hlq : ln q <= 0).
  { pose proof (ln_le_minus_1 q Hq0). lra. }
  rewrite El.
  assert (H1 : p * - ln q <= (1 + u) * q * - ln q).
  { apply Rmult_le_compat_r; lra. }
  assert (E2 : q * (1 - r) = q - p) by (rewrite Ep; ring).
  assert (H3 : q * - (r * ln r) <= q * (1 - r)).
  { apply Rmult_le_compat_l; lra. }
  assert (E4 : p * (ln q + ln r) = p * ln q + q * (r * ln r))
    by (rewrite Ep; ring).
  rewrite E4. lra.
Qed.

Lemma unit_roundoff_value : powerRZ 2 (-53) = / 9007199254740992.
Proof.
  pose proof unit_roundoff as H.
  change (IZR (2 ^ 53)) with 9007199254740992 in H.
  apply Rmult_eq_reg_r with 9007199254740992; [| lra].
  rewrite H. field.
Qed.

Lemma ulp_value : powerRZ 2 (-52) = 2 * powerRZ 2 (-53).
Proof.
  replace (-52)%Z with (1 + -53)%Z by lia.
  rewrite powerRZ_add by lra. simpl. lra.
Qed.

Lemma tiny_value : 0 < powerRZ 2 (-1022) <= / 1267650600228229401496703205376.
Proof.
  split; [apply powerRZ_lt; lra |].
  apply Rle_trans with (powerRZ 2 (-100)); [apply powerRZ_2_le; lia |].
  right.
  apply Rmult_eq_reg_r with 1267650600228229401496703205376; [| lra].
  replace (/ 1267650600228229401496703205376 * 1267650600228229401496703205376)
    with 1 by (field; lra).
  change 1267650600228229401496703205376 with (IZR (2 ^ 100)).
  change 100%Z with (Z.of_nat 100).
  rewrite <- (pow_IZR 2 100), pow_powerRZ.
  rewrite <- powerRZ_add by lra. reflexivity.
Qed.

Lemma huge_value : 128 <= powerRZ 2 1023.
Proof.
  apply Rle_trans with (powerRZ 2 7); [| apply powerRZ_2_le; lia].
  simpl. lra.
Qed.

Section Accuracy.

Variable rnd : R -> R.
Variable flog2 : R -> R.
Hypothesis Hrnd : binary64_rounding rnd.
Hypothesis Hacc : log2_accuracy flog2.

(** Rounding a number that is not negative adds, relatively, at most the
    unit roundoff, and in the subnormal range at most 2^-1022. *)
Lemma rnd_upper (y : R) :
  0 <= y <= 100 ->
  0 <= rnd y <= (1 + powerRZ 2 (-53)) * y + powerRZ 2 (-1022).
Proof.
  intros [H0 H1]. split; [apply (rnd_nonneg rnd Hrnd); exact H0 |].
  pose proof unit_roundoff_pos as Hu. pose proof tiny_value as [Ht _].
  pose proof huge_value as Hh.
  destruct (Rle_dec (powerRZ 2 (-1022)) y) as [Hn | Hs].
  - pose proof (rnd_relative_error rnd Hrnd y) as He.
    rewrite (Rabs_pos_eq y) in He by lra.
    specialize (He ltac:(lra)).
    pose proof (Rle_abs (rnd y - y)). lra.
  - apply Rle_trans with (rnd (powerRZ 2 (-1022))).
    + apply (rnd_monotone rnd Hrnd). lra.
    + pose proof (rnd_representable rnd Hrnd 1 (-1022) ltac:(lia) ltac:(lia)) as E.
      rewrite Rmult_1_l in E. rewrite E. nra.
Qed.

Lemma rnd_lower (x : R) :
  -100 <= x <= 0 ->
  - ((1 + powerRZ 2 (-53)) * - x + powerRZ 2 (-1022)) <= rnd x <= 0.
Proof.
  intros [H0 H1].
  pose proof unit_roundoff_pos as Hu. pose proof tiny_value as [Ht _].
  pose proof huge_value as Hh.
  split.
  - destruct (Rle_dec x (- powerRZ 2 (-1022))) as [Hn | Hs].
    + pose proof (rnd_relative_error rnd Hrnd x) as He.
      rewrite (Rabs_left1 x) in He by lra.
      specialize (He ltac:(lra)).
      pose proof (Rle_abs (- (rnd x - x))) as Ha. rewrite Rabs_Ropp in Ha. lra.
    + apply Rle_trans with (rnd (- powerRZ 2 (-1022))).
      * pose proof (rnd_representable rnd Hrnd (-1) (-1022)
                      ltac:(lia) ltac:(lia)) as E.
        replace (IZR (-1) * powerRZ 2 (-1022)) with (- powerRZ 2 (-1022)) in E
          by lra.
        rewrite E. nra.
      * apply (rnd_monotone rnd Hrnd). lra.
  - rewrite <- (rnd_IZR rnd Hrnd 0) by lia.
    apply (rnd_monotone rnd Hrnd). exact H1.
Qed.

Lemma shannon_term_small (n c : Z) :
  (1 <= c <= n)%Z -> 0 <= shannon_term n c <= 2.
Proof.
  intros H. split; [apply shannon_term_nonneg; exact H |].
  assert (Hn : 0 < IZR n) by (apply IZR_lt; lia).
  assert (Hc : 1 <= IZR c) by (apply IZR_le; lia).
  assert (Hcn : IZR c <= IZR n) by (apply IZR_le; lia).
  set (q := IZR c / IZR n).
  assert (Hq : 0 < q) by (unfold q; apply Rdiv_lt_0_compat; lra).
  assert (Hq1 : q <= 1).
  { apply Rmult_le_reg_r with (IZR n); [exact Hn |].
    replace (q * IZR n) with (IZR c) by (unfold q; field; lra). lra. }
  pose proof (shannon_term_ln n c) as E. fold q in E.
  pose proof (x_ln_x q Hq) as Hx. pose proof ln_2_half as Hl.
  assert (Hs : shannon_term n c * ln 2 <= 1) by lra.
  pose proof (shannon_term_nonneg n c H) as Hs0.
  nra.
Qed.

(** One turn of the loop stays within its budget. *)
Lemma entropy_step_budget (n : Z) (ent : R) (c : Z) :
  (1 <= c <= n)%Z -> (n < 2 ^ 53)%Z -> 0 <= ent <= 16 ->
  exists ent',
    entropy_step rnd flog2 n ent c = Ok ent' /\
    0 <= ent' <=
      (1 + powerRZ 2 (-53)) * (ent + term_budget n c) + powerRZ 2 (-1022).
Proof.
  intros Hc Hn Hent. unfold entropy_step, truediv.
  destruct (Z.eqb_spec n 0); [lia |]. cbn [bind].
  assert (Hn' : 1 <= IZR n) by (apply IZR_le; lia).
  assert (Hn2 : IZR n < IZR (2 ^ 53)) by (apply IZR_lt; lia).
  assert (Hc1 : 1 <= IZR c) by (apply IZR_le; lia).
  assert (Hcn : IZR c <= IZR n) by (apply IZR_le; lia).
  pose proof unit_roundoff as Hu1. pose proof unit_roundoff_pos as Hu.
  pose proof tiny_value as [Ht Ht'].
  pose proof unit_roundoff_value as Hv.
  set (u := powerRZ 2 (-53)) in *. set (eta := powerRZ 2 (-1022)) in *.
  set (q := IZR c / IZR n).
  assert (Hqn : q * IZR n = IZR c) by (unfold q; field; lra).
  assert (Hq0 : 0 < q) by (unfold q; apply Rdiv_lt_0_compat; lra).
  assert (Hq1 : q <= 1).
  { apply Rmult_le_reg_r with (IZR n); [lra |]. rewrite Hqn. lra. }
  assert (Hqlo : u <= q).
  { apply Rmult_le_reg_r with (IZR n); [lra |]. rewrite Hqn. nra. }
  assert (Hrange : powerRZ 2 (-1022) <= Rabs q <= powerRZ 2 1023).
  { rewrite Rabs_pos_eq by lra. split.
    - apply Rle_trans with (powerRZ 2 (-53)); [apply powerRZ_2_le; lia | exact Hqlo].
    - pose proof huge_value. lra. }
  pose proof (rnd_relative_error rnd Hrnd q Hrange) as He.
  rewrite (Rabs_pos_eq q) in He by lra. fold u in He.
  set (p := rnd q) in *.
  assert (Hpq : q - u * q <= p <= q + u * q).
  { pose proof (Rle_abs (p - q)) as A1.
    pose proof (Rle_abs (- (p - q))) as A2. rewrite Rabs_Ropp in A2. lra. }
  assert (Hp0 : 0 < p) by nra.
  assert (Hp1 : p <= 1).
  { unfold p. rewrite <- (rnd_IZR rnd Hrnd 1) by lia.
    apply (rnd_monotone rnd Hrnd). exact Hq1. }
  unfold math_log2. destruct (Rlt_dec 0 p); [| contradiction]. cbn [bind].
  eexists; split; [reflexivity |].
  (* the logarithm *)
  pose proof (Hacc p (conj Hp0 Hp1)) as Hl.
  rewrite ulp_value in Hl. fold u in Hl.
  assert (Hlp : log2 p <= 0).
  { rewrite <- log2_1. apply log2_le; assumption. }
  rewrite (Rabs_left1 (log2 p)) in Hl by exact Hlp.
  assert (Hfl : (1 + 2 * u) * log2 p <= flog2 p <= 0).
  { pose proof (Rle_abs (flog2 p - log2 p)) as A1.
    pose proof (Rle_abs (- (flog2 p - log2 p))) as A2.
    rewrite Rabs_Ropp in A2. split; nra. }
  (* the term of the sum *)
  pose proof (term_perturbed q p u (conj Hq0 Hq1) Hp0 ltac:(lra)
                ltac:(lra) ltac:(lra)) as Hterm.
  pose proof (shannon_term_ln n c) as Es. fold q in Es.
  pose proof (shannon_term_small n c Hc) as [Hs0 Hs2].
  pose proof ln_2_half as Hln.
  set (s := shannon_term n c) in *.
  assert (Hplog : - (p * log2 p) <= (1 + u) * s + 2 * u * q).
  { assert (E : - (p * log2 p) * ln 2 = - (p * ln p)).
    { unfold log2. field. lra. }
    assert (H1 : - (p * log2 p) * ln 2 <= ((1 + u) * s + 2 * u * q) * ln 2)
      by nra.
    apply Rmult_le_reg_r with (ln 2); [lra | exact H1]. }
  assert (Hplog0 : 0 <= - (p * log2 p)) by nra.
  set (x := p * flog2 p).
  assert (Hx : - ((1 + 2 * u) * ((1 + u) * s + 2 * u * q)) <= x <= 0).
  { unfold x. split; [| nra].
    assert (p * ((1 + 2 * u) * log2 p) <= p * flog2 p)
      by (apply Rmult_le_compat_l; lra).
    nra. }
  assert (Hxs : -100 <= x) by nra.
  unfold fsub, fmul. fold x.
  pose proof (rnd_lower x (conj Hxs (proj2 Hx))) as [Ht1 Ht2].
  fold u in Ht1. fold eta in Ht1.
  set (t := rnd x) in *.
  assert (Hbud : - t <= term_budget n c).
  { unfold term_budget. rewrite ulp_value. fold u. fold eta. fold s. fold q.
    nra. }
  assert (Hy : 0 <= ent - t <= 100) by nra.
  pose proof (rnd_upper (ent - t) Hy) as [Hr1 Hr2].
  fold u in Hr2. fold eta in Hr2.
  split; [exact Hr1 |].
  apply Rle_trans with ((1 + u) * (ent - t) + eta); [exact Hr2 |].
  nra.
Qed.

Lemma term_budget_nonneg (n c : Z) : (1 <= c <= n)%Z -> 0 <= term_budget n c.
Proof.
  intros H. unfold term_budget.
  pose proof (shannon_term_nonneg n c H) as Hs.
  pose proof unit_roundoff_pos as Hu. pose proof tiny_value as [Ht _].
  assert (Hq : 0 <= IZR c / IZR n).
  { apply Rlt_le, Rdiv_lt_0_compat; apply IZR_lt; lia. }
  rewrite ulp_value.
  set (u := powerRZ 2 (-53)) in *. set (s := shannon_term n c) in *.
  set (q := IZR c / IZR n) in *.
  assert (0 <= (1 + u) * s + 2 * u * q) by nra.
  assert (0 <= (1 + 2 * u) * ((1 + u) * s + 2 * u * q)) by nra.
  nra.
Qed.

Lemma budget_monotone (n : Z) (counts : list Z) :
  forall ent ent', ent <= ent' -> budget n ent counts <= budget n ent' counts.
Proof.
  pose proof unit_roundoff_pos as Hu.
  induction counts as [| c counts IH]; intros ent ent' H; cbn [budget].
  - exact H.
  - apply IH. nra.
Qed.

Lemma budget_above (n : Z) (counts : list Z) :
  (forall c, In c counts -> (1 <= c <= n)%Z) ->
  forall ent, 0 <= ent -> ent <= budget n ent counts.
Proof.
  pose proof unit_roundoff_pos as Hu. pose proof tiny_value as [Ht _].
  induction counts as [| c counts IH]; intros Hc ent Hent; cbn [budget].
  - lra.
  - pose proof (term_budget_nonneg n c (Hc c (or_introl eq_refl))) as Hb.
    apply Rle_trans with
      ((1 + powerRZ 2 (-53)) * (ent + term_budget n c) + powerRZ 2 (-1022)).
    + nra.
    + apply IH; [intros c' Hc'; apply Hc; right; exact Hc' | nra].
Qed.

(** The loop stays within its budget. *)
Lemma entropy_loop_budget (n : Z) (counts : list Z) :
  (n < 2 ^ 53)%Z -> (forall c, In c counts -> (1 <= c <= n)%Z) ->
  forall ent, 0 <= ent -> budget n ent counts <= 16 ->
  exists e, entropy_loop rnd flog2 n ent counts = Ok e /\
            0 <= e <= budget n ent counts.
Proof.
  intros Hn. induction counts as [| c counts IH]; intros Hc ent Hent Hb.
  - exists ent. cbn. split; [reflexivity | lra].
  - cbn [entropy_loop budget] in *.
    assert (Hc' : forall c', In c' counts -> (1 <= c' <= n)%Z)
      by (intros c' H; apply Hc; right; exact H).
    pose proof (term_budget_nonneg n c (Hc c (or_introl eq_refl))) as Htb.
    pose proof unit_roundoff_pos as Hu. pose proof tiny_value as [Ht _].
    set (b := (1 + powerRZ 2 (-53)) * (ent + term_budget n c)
              + powerRZ 2 (-1022)) in *.
    assert (Hb0 : 0 <= b) by (unfold b; nra).
    pose proof (budget_above n counts Hc' b Hb0) as Hab.
    assert (Hent16 : ent <= 16) by (unfold b in *; nra).
    destruct (entropy_step_budget n ent c (Hc c (or_introl eq_refl)) Hn
                (conj Hent Hent16)) as (ent1 & -> & H1 & H2).
    fold b in H2. cbn [bind].
    pose proof (budget_monotone n counts ent1 b H2) as Hm.
    destruct (IH Hc' ent1 H1 ltac:(lra)) as (e & -> & He0 & He1).
    exists e. split; [reflexivity | lra].
Qed.

End Accuracy.

(** The budget in closed form: the sum of Shannon, with the errors of the
    terms and of the additions. *)
Lemma budget_closed (n : Z) (counts : list Z) :
  (0 < n)%Z -> (forall c, In c counts -> (1 <= c <= n)%Z) ->
  forall ent, 0 <= ent ->
  budget n ent counts <=
    (1 + powerRZ 2 (-53)) ^ List.length counts *
      (ent
       + (1 + powerRZ 2 (-53)) *
           ((1 + powerRZ 2 (-52)) *
              ((1 + powerRZ 2 (-53)) * shannon_sum n counts
               + 2 * powerRZ 2 (-53) * (IZR (total counts) / IZR n)))
       + 2 * INR (List.length counts) * powerRZ 2 (-1022)).
Proof.
  intros Hn. assert (Hn' : 0 < IZR n) by (apply IZR_lt; lia).
  pose proof unit_roundoff_pos as Hu. pose proof tiny_value as [Ht _].
  rewrite ulp_value.
  set (u := powerRZ 2 (-53)) in *. set (eta := powerRZ 2 (-1022)) in *.
  induction counts as [| c counts IH]; intros Hc ent Hent.
  - cbn. lra.
  - assert (Hc' : forall c', In c' counts -> (1 <= c' <= n)%Z)
      by (intros c' H; apply Hc; right; exact H).
    pose proof (Hc c (or_introl eq_refl)) as Hc0.
    pose proof (term_budget_nonneg n c Hc0) as Htb.
    pose proof (shannon_term_nonneg n c Hc0) as Hs.
    pose proof (shannon_sum_nonneg n counts Hc') as HS.
    assert (HT : 0 <= IZR (total counts) / IZR n).
    { assert (0 <= total counts)%Z.
      { clear - Hc'. induction counts as [| x l IHl]; [cbn; lia |].
        rewrite total_cons.
        pose proof (Hc' x (or_introl eq_refl)).
        assert (0 <= total l)%Z
          by (apply IHl; intros c' H'; apply Hc'; right; exact H').
        lia. }
      apply Rmult_le_pos; [apply IZR_le; lia |].
      apply Rlt_le, Rinv_0_lt_compat; exact Hn'. }
    assert (Hq : 0 <= IZR c / IZR n).
    { apply Rlt_le, Rdiv_lt_0_compat; [apply IZR_lt; lia | exact Hn']. }
    cbn [budget List.length]. fold u. fold eta.
    set (b := (1 + u) * (ent + term_budget n c) + eta).
    assert (Hb0 : 0 <= b) by (unfold b; nra).
    specialize (IH Hc' b Hb0).
    eapply Rle_trans; [exact IH |].
    rewrite <- tech_pow_Rmult, S_INR, total_cons, plus_IZR.
    cbn [shannon_sum fold_right]. fold (shannon_sum n counts).
    set (P := (1 + u) ^ List.length counts).
    assert (HP : 0 <= P) by (unfold P; apply pow_le; lra).
    set (k := INR (List.length counts)).
    assert (Hk : 0 <= k) by (unfold k; apply pos_INR).
    set (S := shannon_sum n counts) in *. set (s := shannon_term n c) in *.
    set (T := IZR (total counts) / IZR n) in *. set (q := IZR c / IZR n) in *.
    replace ((IZR c + IZR (total counts)) / IZR n) with (q + T)
      by (unfold q, T; field; lra).
    assert (Eb : b = (1 + u) * (ent + (1 + u) * ((1 + 2 * u) * ((1 + u) * s + 2 * u * q)) + eta) + eta).
    { unfold b, term_budget. rewrite ulp_value. fold u. fold eta. fold s. fold q.
      ring. }
    set (R := (1 + u) * ((1 + 2 * u) * ((1 + u) * S + 2 * u * T)) + 2 * k * eta).
    assert (HR : 0 <= R).
    { unfold R. assert (0 <= (1 + u) * S + 2 * u * T) by nra.
      assert (0 <= (1 + 2 * u) * ((1 + u) * S + 2 * u * T)) by nra. nra. }
    set (X := (1 + u) * ((1 + 2 * u) * ((1 + u) * s + 2 * u * q))) in *.
    assert (HX : 0 <= X).
    { unfold X. assert (0 <= (1 + u) * s + 2 * u * q) by nra.
      assert (0 <= (1 + 2 * u) * ((1 + u) * s + 2 * u * q)) by nra. nra. }
    replace (b + (1 + u) * ((1 + 2 * u) * ((1 + u) * S + 2 * u * T))
             + 2 * k * eta) with (b + R) by (unfold R; ring).
    replace (ent + (1 + u) * ((1 + 2 * u) * ((1 + u) * (s + S) + 2 * u * (q + T)))
             + 2 * (k + 1) * eta) with (ent + X + R + 2 * eta)
      by (unfold X, R; ring).
    apply Rle_trans with (P * ((1 + u) * (ent + X + R + 2 * eta)));
      [| right; ring].
    apply Rmult_le_compat_l; [exact HP |].
    rewrite Eb. nra.
Qed.

Lemma pow_bound (u : R) (k : nat) :
  0 <= u -> 2 * INR k * u <= 1 -> (1 + u) ^ k <= 1 + 2 * INR k * u.
Proof.
  intros Hu. induction k as [| k IH]; intros H.
  - cbn. lra.
  - rewrite S_INR in *. rewrite <- tech_pow_Rmult.
    pose proof (pos_INR k) as Hk.
    assert (Hk' : 2 * INR k * u <= 1) by nra.
    specialize (IH Hk').
    assert (0 <= (1 + u) ^ k) by (apply pow_le; lra).
    nra.
Qed.

Lemma powerRZ_2_neg (k : Z) :
  (0 <= k)%Z -> powerRZ 2 (- k) = / IZR (2 ^ k).
Proof.
  intros Hk. rewrite powerRZ_neg'. rewrite IZR_pow2 by exact Hk. reflexivity.
Qed.

Lemma two_pow_m43 : powerRZ 2 (-43) = / 8796093022208.
Proof. exact (powerRZ_2_neg 43 ltac:(lia)). Qed.

Lemma two_pow_m51 : powerRZ 2 (-51) = / 2251799813685248.
Proof. exact (powerRZ_2_neg 51 ltac:(lia)). Qed.

(** The arithmetic of the bound: 256 additions and the errors of the
    terms cost less than a factor of 1 + 2^-43 and a constant of 2^-51. *)
Lemma budget_arithmetic (P K H eta : R) :
  0 <= K <= 256 -> 0 <= H ->
  0 <= P <= 1 + 2 * K * powerRZ 2 (-53) ->
  0 <= eta <= / 1267650600228229401496703205376 ->
  P * (0 + (1 + powerRZ 2 (-53)) *
             ((1 + powerRZ 2 (-52)) *
                ((1 + powerRZ 2 (-53)) * H + 2 * powerRZ 2 (-53) * 1))
       + 2 * K * eta)
  <= (1 + powerRZ 2 (-43)) * H + powerRZ 2 (-51).
Proof.
  intros HK HH HP Heta.
  rewrite ulp_value, unit_roundoff_value.
  rewrite two_pow_m43, two_pow_m51.
  rewrite unit_roundoff_value in HP.
  set (u := / 9007199254740992) in *.
  assert (Hu : u = / 9007199254740992) by reflexivity.
  set (Y := 0 + (1 + u) * ((1 + 2 * u) * ((1 + u) * H + 2 * u * 1))
            + 2 * K * eta).
  set (Y2 := (1 + u) * ((1 + 2 * u) * ((1 + u) * H + 2 * u))
             + 512 * / 1267650600228229401496703205376).
  assert (HY0 : 0 <= Y).
  { unfold Y. assert (0 <= (1 + u) * H + 2 * u * 1) by (rewrite Hu; lra).
    assert (0 <= (1 + 2 * u) * ((1 + u) * H + 2 * u * 1)) by (rewrite Hu in *; nra).
    assert (0 <= 2 * K * eta) by nra.
    rewrite Hu in *. nra. }
  assert (HY : Y <= Y2).
  { unfold Y, Y2.
    assert (2 * K * eta <= 512 * / 1267650600228229401496703205376) by nra.
    lra. }
  assert (HP2 : P <= 1 + 512 * u) by (rewrite Hu in *; nra).
  apply Rle_trans with ((1 + 512 * u) * Y2).
  - apply Rle_trans with ((1 + 512 * u) * Y).
    + apply Rmult_le_compat_r; [exact HY0 | exact HP2].
    + apply Rmult_le_compat_l; [rewrite Hu; lra | exact HY].
  - unfold Y2. rewrite Hu. lra.
Qed.

Section Bound.

Variable rnd : R -> R.
Variable flog2 : R -> R.
Hypothesis Hrnd : binary64_rounding rnd.
Hypothesis Hacc : log2_accuracy flog2.

Lemma compute_entropy_upper (block : list Byte.byte) :
  block <> [] -> (len block < 2 ^ 53)%Z ->
  exists ent,
    compute_entropy rnd flog2 block = Ok ent /\
    0 <= ent <=
      (1 + powerRZ 2 (-43)) *
        shannon_sum (len block) (dict_values (count_bytes block))
      + powerRZ 2 (-51).
Proof.
  intros Hne Hlen.
  set (n := len block) in *.
  assert (Hn : (1 <= n)%Z).
  { unfold n, len. destruct block; [contradiction | cbn; lia]. }
  destruct (count_bytes_spec block) as (Hnd & Hpos & Htot & _).
  fold n in Htot.
  set (counts := dict_values (count_bytes block)) in *.
  assert (Hc : forall c, In c counts -> (1 <= c <= n)%Z).
  { intros c Hin. split.
    - rewrite Forall_forall in Hpos. apply Hpos. exact Hin.
    - rewrite <- Htot. apply total_upper; assumption. }
  assert (Hk : (List.length counts <= 256)%nat).
  { pose proof (distinct_bytes _ Hnd) as H.
    unfold counts, dict_values, dict_keys in *. rewrite length_map in *.
    exact H. }
  pose proof (shannon_sum_nonneg n counts Hc) as HH0.
  (* Shannon's sum is at most 8 *)
  assert (HH8 : shannon_sum n counts <= 8).
  { destruct (entropy_bounds_exact block) as (e & m & Ee & Em & _ & Hem).
    rewrite compute_entropy_nonempty in Ee by exact Hne.
    fold n counts in Ee.
    rewrite entropy_loop_exact in Ee by (try assumption; lia).
    injection Ee as Ee. fold n in Em.
    rewrite max_entropy_exact in Em by lia. injection Em as Em.
    assert (log2 (IZR (Z.min n 256)) <= 8).
    { rewrite <- log2_256. apply log2_le.
      - apply IZR_lt. lia.
      - apply IZR_le. lia. }
    lra. }
  pose proof unit_roundoff_pos as Hu. pose proof tiny_value as Ht.
  pose proof (budget_closed n counts ltac:(lia) Hc 0 ltac:(lra)) as Hcl.
  rewrite Htot in Hcl.
  replace (IZR n / IZR n) with 1 in Hcl
    by (field; apply not_0_IZR; lia).
  assert (HK : 0 <= INR (List.length counts) <= 256).
  { split; [apply pos_INR |].
    replace 256 with (INR 256) by (rewrite INR_IZR_INZ; reflexivity).
    apply le_INR. exact Hk. }
  assert (HP : 0 <= (1 + powerRZ 2 (-53)) ^ List.length counts
               <= 1 + 2 * INR (List.length counts) * powerRZ 2 (-53)).
  { split; [apply pow_le; lra |].
    apply pow_bound; [lra |].
    rewrite unit_roundoff_value. lra. }
  pose proof (budget_arithmetic _ _ _ _ HK HH0 HP
                (conj (Rlt_le _ _ (proj1 Ht)) (proj2 Ht))) as Har.
  assert (Hb16 : budget n 0 counts <= 16).
  { eapply Rle_trans; [exact Hcl |]. eapply Rle_trans; [exact Har |].
    rewrite two_pow_m43, two_pow_m51. lra. }
  rewrite compute_entropy_nonempty by exact Hne. fold n counts.
  destruct (entropy_loop_budget rnd flog2 Hrnd Hacc n counts Hlen Hc 0
              ltac:(lra) Hb16) as (e & -> & He0 & He1).
  exists e. split; [reflexivity |]. split; [exact He0 |].
  eapply Rle_trans; [exact He1 |]. eapply Rle_trans; [exact Hcl | exact Har].
Qed.

End Bound.

(** C2, amended: for every block of fewer than 2^53 bytes the computed
    entropy is not negative and exceeds the entropy of exact arithmetic
    by rounding error only: it is at most (1 + 2^-43) times the exact
    entropy plus 2^-51, for every rounding with the properties of binary64
    and every [math.log2] accurate to one unit in the last place on
    (0, 1].  The exact entropy itself lies between 0 and the exact
    maximum, [log2(min(256, len(b)))].  The computed entropy may exceed
    the computed maximum in the last place. *)
Theorem entropy_bounds (rnd flog2 : R -> R) (block : list Byte.byte) :
  binary64_rounding rnd -> log2_accuracy flog2 -> (len block < 2 ^ 53)%Z ->
  exists ent e m,
    compute_entropy rnd flog2 block = Ok ent /\
    compute_entropy exact log2 block = Ok e /\
    max_entropy log2 (len block) = Ok m /\
    0 <= e <= m /\
    0 <= ent <= (1 + powerRZ 2 (-43)) * e + powerRZ 2 (-51).
Proof.
  intros Hrnd Hacc Hlen.
  destruct (entropy_bounds_exact block) as (e & m & Ee & Em & Hem).
  destruct (list_eq_dec Byte.byte_eq_dec block []) as [-> | Hne].
  { exists 0, e, m. cbn in Ee. injection Ee as <-.
    repeat split; try assumption; try reflexivity; try lra.
    rewrite two_pow_m43, two_pow_m51. lra. }
  destruct (compute_entropy_upper rnd flog2 Hrnd Hacc block Hne Hlen)
    as (ent & E & H0 & H1).
  exists ent, e, m.
  split; [exact E |]. split; [exact Ee |]. split; [exact Em |].
  split; [exact Hem |]. split; [exact H0 |].
  assert (Hn : (0 < len block)%Z).
  { unfold len. destruct block; [contradiction | cbn; lia]. }
  destruct (count_bytes_spec block) as (_ & Hpos & _ & _).
  rewrite compute_entropy_nonempty in Ee by exact Hne.
  rewrite entropy_loop_exact in Ee by assumption.
  injection Ee as <-. rewrite Rplus_0_l. exact H1.
Qed.

(** [entropy_bounds] for the block [b"AB"], in exact arithmetic. *)
Lemma entropy_bounds_witness :
  binary64_rounding exact /\ log2_accuracy log2 /\
  (len [Byte.x41; Byte.x42] < 2 ^ 53)%Z /\
  exists ent e m,
    compute_entropy exact log2 [Byte.x41; Byte.x42] = Ok ent /\
    compute_entropy exact log2 [Byte.x41; Byte.x42] = Ok e /\
    max_entropy log2 (len [Byte.x41; Byte.x42]) = Ok m /\
    0 <= e <= m /\
    0 <= ent <= (1 + powerRZ 2 (-43)) * e + powerRZ 2 (-51).
Proof.
  assert (Hacc : log2_accuracy log2).
  { intros x _. replace (log2 x - log2 x) with 0 by ring. rewrite Rabs_R0.
    apply Rmult_le_pos; [apply powerRZ_le; lra | apply Rabs_pos]. }
  assert (Hlen : (len [Byte.x41; Byte.x42] < 2 ^ 53)%Z) by reflexivity.
  split; [exact exact_binary64_rounding |].
  split; [exact Hacc |]. split; [exact Hlen |].
  exact (entropy_bounds exact log2 [Byte.x41; Byte.x42]
           exact_binary64_rounding Hacc Hlen).
Defined.

(** * The entropy and the order of the bytes *)

Lemma dict_get_absent (d : dict) (k : Byte.byte) (default : Z) :
  ~ In k (dict_keys d) -> dict_get d k default = default.
Proof.
  induction d as [| [k' v] d IH]; intros H; [reflexivity |].
  cbn in *. destruct (byte_eqb_spec k' k) as [-> | Hne].
  - exfalso. apply H. left. reflexivity.
  - apply IH. intros Hin. apply H. right. exact Hin.
Qed.

(** Two tables with the same keys in the same order and the same count
    for every key are the same table. *)
Lemma dict_same (d : dict) :
  forall d' : dict,
    NoDup (dict_keys d) -> dict_keys d = dict_keys d' ->
    (forall k, dict_get d k 0 = dict_get d' k 0) -> d = d'.
Proof.
  induction d as [| [k v] d IH]; intros [| [k' v'] d'] Hnd Hk Hg;
    try discriminate; [reflexivity |].
  cbn in Hk. injection Hk as <- Hk.
  inversion Hnd as [| ? ? Hnin Hnd']; subst.
  pose proof (Hg k) as Hv. cbn in Hv.
  destruct (byte_eqb_spec k k) as [_ | Hne]; [| contradiction].
  subst v'. f_equal. apply IH; [exact Hnd' | exact Hk |].
  intros k2. specialize (Hg k2). cbn in Hg.
  destruct (byte_eqb_spec k k2) as [E | Hne]; [| exact Hg].
  rewrite <- E.
  rewrite (dict_get_absent d k 0 Hnin).
  rewrite (dict_get_absent d' k 0); [reflexivity |].
  unfold dict_keys in *. rewrite <- Hk. exact Hnin.
Qed.

Lemma count_bytes_same_order (b b' : list Byte.byte) :
  Permutation b b' ->
  dict_keys (count_bytes b) = dict_keys (count_bytes b') ->
  count_bytes b = count_bytes b'.
Proof.
  intros Hp Hk.
  destruct (count_bytes_spec b) as (Hnd & _ & _ & Hget).
  destruct (count_bytes_spec b') as (_ & _ & _ & Hget').
  apply dict_same; [exact Hnd | exact Hk |].
  intros k. rewrite Hget, Hget'.
  rewrite (Permutation_count_occ Byte.byte_eq_dec b b') in Hp.
  rewrite (Hp k). reflexivity.
Qed.

(** C9, amended: the entropy of a block depends on the table of counts
    and on its order, which is the order in which the byte values first
    occur.  Two blocks that hold the same bytes, each as often, and in
    which the byte values first occur in the same order have the same
    entropy, bit for bit, whatever the rounding and the logarithm: in the
    model with an abstract rounding and in machine arithmetic.  For any
    other reordering the results are equal in exact arithmetic only. *)
Theorem entropy_permutation (rnd flog2 : R -> R)
    (mlog2 : PrimFloat.float -> PrimFloat.float) (b b' : list Byte.byte) :
  Permutation b b' ->
  (dict_keys (count_bytes b) = dict_keys (count_bytes b') ->
   compute_entropy rnd flog2 b = compute_entropy rnd flog2 b' /\
   Binary64.compute_entropy mlog2 b = Binary64.compute_entropy mlog2 b') /\
  compute_entropy exact log2 b = compute_entropy exact log2 b'.
Proof.
  intros Hp. split; [| apply entropy_permutation_exact; exact Hp].
  intros Hk.
  pose proof (count_bytes_same_order b b' Hp Hk) as Ec.
  assert (Hlen : len b = len b').
  { unfold len. rewrite (Permutation_length Hp). reflexivity. }
  destruct b as [| x b]; destruct b' as [| x' b'].
  - split; reflexivity.
  - apply Permutation_nil in Hp. discriminate.
  - apply Permutation_sym, Permutation_nil in Hp. discriminate.
  - unfold compute_entropy, Binary64.compute_entropy.
    rewrite Ec, Hlen. split; reflexivity.
Qed.

(** [entropy_permutation] for [b"abbccc"] and [b"abcbcc"], in which a, b
    and c first occur in the same order. *)
Lemma entropy_permutation_witness :
  Permutation abbccc
    [Byte.x61; Byte.x62; Byte.x63; Byte.x62; Byte.x63; Byte.x63] /\
  dict_keys (count_bytes abbccc) =
    dict_keys (count_bytes
                 [Byte.x61; Byte.x62; Byte.x63; Byte.x62; Byte.x63; Byte.x63]) /\
  compute_entropy exact log2 abbccc =
    compute_entropy exact log2
      [Byte.x61; Byte.x62; Byte.x63; Byte.x62; Byte.x63; Byte.x63] /\
  Binary64.compute_entropy Binary64.libm_log2 abbccc =
    Binary64.compute_entropy Binary64.libm_log2
      [Byte.x61; Byte.x62; Byte.x63; Byte.x62; Byte.x63; Byte.x63].
Proof.
  assert (Hp : Permutation abbccc
                 [Byte.x61; Byte.x62; Byte.x63; Byte.x62; Byte.x63; Byte.x63]).
  { unfold abbccc. do 2 apply perm_skip. apply perm_swap. }
  assert (Hk : dict_keys (count_bytes abbccc) =
               dict_keys (count_bytes
                 [Byte.x61; Byte.x62; Byte.x63; Byte.x62; Byte.x63; Byte.x63]))
    by reflexivity.
  split; [exact Hp |]. split; [exact Hk |].
  exact (proj1 (entropy_permutation exact log2 Binary64.libm_log2 abbccc
                  [Byte.x61; Byte.x62; Byte.x63; Byte.x62; Byte.x63; Byte.x63]
                  Hp) Hk).
Defined.

(** * The entropy in binary64 *)

Import PrimFloat.

(** C2 as stated fails in binary64.  For a block of eleven distinct bytes
    the loop adds eleven times the rounded product of 1/11 and its
    logarithm and arrives at 3.459431618637298
    ([0x1.bacea7c065d44p+1]), one unit in the last place above
    [math.log2(11)] = 3.4594316186372973 ([0x1.bacea7c065d42p+1]); the
    normalized entropy is 1.0000000000000002. *)
Lemma entropy_exceeds_maximum :
  Binary64.compute_entropy Binary64.libm_log2 eleven_bytes =
    Ok 0x1.bacea7c065d44p+1%float /\
  Binary64.max_entropy Binary64.libm_log2 (len eleven_bytes) =
    Ok 0x1.bacea7c065d42p+1%float /\
  (0x1.bacea7c065d42p+1 <? 0x1.bacea7c065d44p+1)%float = true /\
  Binary64.normalized Binary64.libm_log2 eleven_bytes =
    Ok 0x1.0000000000001p+0%float.
Proof. vm_compute. repeat split. Qed.

(** C9 as stated fails in binary64.  [b"abbccc"] and [b"acccbb"] hold the
    same bytes, but the sum runs over the table in the order of first
    occurrence, (a, b, c) for the one and (a, c, b) for the other, and the
    results differ in the last place: 1.4591479170272448 and
    1.4591479170272446. *)
Lemma entropy_depends_on_order :
  Permutation abbccc acccbb /\
  Binary64.compute_entropy Binary64.libm_log2 abbccc =
    Ok 0x1.758ab7c7a895fp+0%float /\
  Binary64.compute_entropy Binary64.libm_log2 acccbb =
    Ok 0x1.758ab7c7a895ep+0%float /\
  (0x1.758ab7c7a895fp+0 =? 0x1.758ab7c7a895ep+0)%float = false.
Proof.
  split.
  - unfold abbccc, acccbb. apply perm_skip.
    apply (Permutation_app_comm [Byte.x62; Byte.x62]
             [Byte.x63; Byte.x63; Byte.x63]).
  - vm_compute. repeat split.
Qed.
